(** * DEIM data loader: batch collation, mixup scheduling and scale generation

    A shallow embedding of [engine/data/dataloader.py]:
    [generate_scales], [BaseCollateFunction.set_epoch],
    [BatchImageCollateFunction] ([__init__], [set_epoch], [apply_mixup],
    [__call__]), [batch_image_collate_fn] and [DataLoader] ([set_epoch],
    [epoch], [shuffle]).

    Conventions of the embedding.
    - Python [int] is [Z]; Python [float] is idealised as an exact rational
      [Q] (no rounding error; comparisons are comparisons of values).
    - A tensor is the list of its slices along dimension 0, each slice
      flattened to a list of scalars; [torch.cat(.., dim=0)] is list
      concatenation and [len] is the length of that list.
    - Target dictionaries are objects in a store indexed by references, so
      that two names of one dictionary observe each other's updates; image
      batches live in a store of their own because [mul_] and [add_] update
      them in place.
    - Side effects ([print], [gc.collect], [torch.cuda.empty_cache], files
      written by the visualisation) are recorded as a sequence of events.
    - Exceptions are values; a computation returns the final world together
      with either an exception or a result.  What has been written to the
      store before an exception is raised stays written.
    - The random source, the failures of tensor operations, the resize
      kernel and the exception [torch.cat] raises for images it refuses are
      given from outside, as an [environment]; the values of
      [random.random()] lie in [0, 1), which the theorems assume where they
      need it. *)

From Stdlib Require Import ZArith QArith Qround Qabs String List Lia Lqa.
From stdpp Require Import base option list gmap strings.

Local Open Scope Z_scope.

(** ** Scale generation *)

(** Python's [int(x)] on a float: truncation towards zero. *)
Definition int_of_float (x : Q) : Z :=
  if Qle_bool 0 x then Qfloor x else Qceiling x.

(** Python's [range(n)] for an integer [n]: empty when [n <= 0]. *)
Definition range (n : Z) : list Z := map Z.of_nat (seq 0 (Z.to_nat n)).

(** Python's [[x] * n] for an integer [n]: empty when [n <= 0]. *)
Definition list_repeat {A} (x : A) (n : Z) : list A := repeat x (Z.to_nat n).

Definition generate_scales (base_size base_size_repeat : Z) : list Z :=
  let scale_repeat :=
    (base_size - int_of_float (inject_Z base_size * (75 # 100) / (32 # 1)) * 32) / 32 in
  let scales :=
    map (fun i => int_of_float (inject_Z base_size * (75 # 100) / (32 # 1)) * 32 + i * 32)
        (range scale_repeat) in
  let scales := scales ++ list_repeat base_size base_size_repeat in
  let scales := scales ++
    map (fun i => int_of_float (inject_Z base_size * (125 # 100) / (32 # 1)) * 32 - i * 32)
        (range scale_repeat) in
  scales.

(** The scale set as the specification words it. *)
Definition generate_scales_spec (base repeatCount : Z) : list Z :=
  let low := Qfloor (inject_Z base * (75 # 100) / (32 # 1)) * 32 in
  let step := (base - low) / 32 in
  map (fun i => low + 32 * i) (range step) ++
  list_repeat base repeatCount ++
  map (fun i => Qfloor (inject_Z base * (125 # 100) / (32 # 1)) * 32 - 32 * i) (range step).

(** ** Values, exceptions and observable events *)

Definition row := list Q.
Definition tensor := list row.

(** A 1-D tensor built by [torch.tensor] from a Python list of floats. *)
Definition tensor_of_list (l : list Q) : tensor := map (fun x => [x]) l.

Definition loc := nat.

Inductive exn :=
| RuntimeError (msg : string)
| NotImplementedError (msg : string)
| KeyError (key : string)
| IndexError (msg : string)
| ValueError (msg : string).

(** [isinstance(e, RuntimeError)]: [NotImplementedError] is a subclass of
    [RuntimeError] in Python; [ValueError], [KeyError] and [IndexError] are
    not. *)
Definition is_RuntimeError (e : exn) : bool :=
  match e with
  | RuntimeError _ | NotImplementedError _ => true
  | KeyError _ | IndexError _ | ValueError _ => false
  end.

Definition str (e : exn) : string :=
  match e with
  | RuntimeError m | NotImplementedError m | KeyError m | IndexError m
  | ValueError m => m
  end.

(** Python's [needle in haystack] on strings. *)
Definition str_contains (needle haystack : string) : bool :=
  match String.index 0 needle haystack with Some _ => true | None => false end.

Definition is_cuda_oom (e : exn) : bool :=
  is_RuntimeError e && str_contains "CUDA out of memory" (str e).

(** The texts written by [print], one constructor per format string. *)
Inductive message :=
| MsgActivating (epoch : Z)
| MsgDeactivating (epoch : Z)
| MsgAdjusting (epoch : Z) (prob : Q)
| MsgFullProbability (epoch : Z) (prob : Q)
| MsgMixupClosed (epoch : Z)
| MsgUsingMixup (prob : Q) (epochs : list Z)
| MsgGradualStart (epoch : Z)
| MsgMultiScaleUntil (stop_epoch : Z)
| MsgMultiScales (scales : option (list Z))
| MsgCudaOom (epoch : Z)
| MsgMemoryIntensive (mixup_active : bool)
| MsgMixVis (i : nat) (boxes_len : nat).

Inductive event :=
| Print (m : message)
| GcCollect
| CudaEmptyCache
| MakeDirs (path : string)
| SaveImage (vis_save : string) (i : nat) (boxes_len : nat).

(** ** The collate object *)

Record collate_fn := {
  base_size : Z;
  scales : option (list Z);
  stop_epoch : Z;
  ema_restart_decay : Q;
  mixup_prob : Q;
  mixup_epochs : list Z;
  gradual_mixup : bool;
  original_mixup_prob : Q;
  data_vis : bool;
  vis_save : string;
  print_info_flag : bool;
  warm_up_epochs : Z;
  _epoch : option Z
}.

Definition Qlt_bool (x y : Q) : bool := negb (Qle_bool y x).

(** [BatchImageCollateFunction.__init__]: the object and what it prints. *)
Definition init (stop_epoch_arg : option Z) (ema_restart_decay_arg : Q)
    (base_size_arg : Z) (base_size_repeat_arg : option Z) (mixup_prob_arg : Q)
    (mixup_epochs_arg : list Z) (data_vis_arg : bool) (vis_save_arg : string)
    (gradual_mixup_arg : bool) : collate_fn * list event :=
  let scales_ := generate_scales base_size_arg <$> base_size_repeat_arg in
  let stop_epoch_ := default 100000000 stop_epoch_arg in
  let out1 :=
    if Qlt_bool 0 mixup_prob_arg then
      (if data_vis_arg then [MakeDirs vis_save_arg] else []) ++
      [Print (MsgUsingMixup mixup_prob_arg mixup_epochs_arg)] ++
      (if gradual_mixup_arg && (2 <=? length mixup_epochs_arg)%nat
       then [Print (MsgGradualStart (default 0 (head mixup_epochs_arg)))] else [])
    else [] in
  let out2 :=
    match stop_epoch_arg with
    | Some _ => [Print (MsgMultiScaleUntil stop_epoch_); Print (MsgMultiScales scales_)]
    | None => []
    end in
  ({| base_size := base_size_arg;
      scales := scales_;
      stop_epoch := stop_epoch_;
      ema_restart_decay := ema_restart_decay_arg;
      mixup_prob := mixup_prob_arg;
      mixup_epochs := mixup_epochs_arg;
      gradual_mixup := gradual_mixup_arg;
      original_mixup_prob := mixup_prob_arg;
      data_vis := data_vis_arg;
      vis_save := vis_save_arg;
      print_info_flag := true;
      warm_up_epochs := 3;
      _epoch := None |},
   out1 ++ out2).

(** The [epoch] property: [-1] until [set_epoch] has been called. *)
Definition epoch (self : collate_fn) : Z := default (-1) (_epoch self).

Definition with_epoch (e : Z) (self : collate_fn) : collate_fn :=
  {| base_size := base_size self; scales := scales self;
     stop_epoch := stop_epoch self; ema_restart_decay := ema_restart_decay self;
     mixup_prob := mixup_prob self; mixup_epochs := mixup_epochs self;
     gradual_mixup := gradual_mixup self;
     original_mixup_prob := original_mixup_prob self;
     data_vis := data_vis self; vis_save := vis_save self;
     print_info_flag := print_info_flag self;
     warm_up_epochs := warm_up_epochs self; _epoch := Some e |}.

Definition with_mixup_prob (p : Q) (self : collate_fn) : collate_fn :=
  {| base_size := base_size self; scales := scales self;
     stop_epoch := stop_epoch self; ema_restart_decay := ema_restart_decay self;
     mixup_prob := p; mixup_epochs := mixup_epochs self;
     gradual_mixup := gradual_mixup self;
     original_mixup_prob := original_mixup_prob self;
     data_vis := data_vis self; vis_save := vis_save self;
     print_info_flag := print_info_flag self;
     warm_up_epochs := warm_up_epochs self; _epoch := _epoch self |}.

Definition with_print_info_flag (b : bool) (self : collate_fn) : collate_fn :=
  {| base_size := base_size self; scales := scales self;
     stop_epoch := stop_epoch self; ema_restart_decay := ema_restart_decay self;
     mixup_prob := mixup_prob self; mixup_epochs := mixup_epochs self;
     gradual_mixup := gradual_mixup self;
     original_mixup_prob := original_mixup_prob self;
     data_vis := data_vis self; vis_save := vis_save self;
     print_info_flag := b;
     warm_up_epochs := warm_up_epochs self; _epoch := _epoch self |}.

(** ** The world a call runs in *)

(** What the code takes from outside: the random source (the successive
    values of [random.random()] and of the index drawn by [random.choice]),
    the tensor operations that raise (the [k]-th tensor operation of a run
    raises [e] when [faults k = Some e], which is how device-memory
    exhaustion enters), whether CUDA is present, the resize kernel, and the
    exception [torch.cat] raises for a list of images it does not accept
    (its class and its text are the library's, and differ between its
    versions). *)
Record environment := {
  random_floats : nat -> Q;
  random_index : nat -> nat;
  faults : nat -> option exn;
  cuda_is_available : bool;
  interpolate : tensor -> Z -> tensor;
  cat_error : list row -> exn
}.

Record world := {
  self : collate_fn;
  dicts : gmap loc (gmap string tensor);
  tensors : list tensor;
  stdout : list event;
  draws : nat;
  ops : nat
}.

Definition with_self (f : collate_fn -> collate_fn) (w : world) : world :=
  {| self := f (self w); dicts := dicts w; tensors := tensors w;
     stdout := stdout w; draws := draws w; ops := ops w |}.
Definition with_dicts (d : gmap loc (gmap string tensor)) (w : world) : world :=
  {| self := self w; dicts := d; tensors := tensors w;
     stdout := stdout w; draws := draws w; ops := ops w |}.
Definition with_tensors (t : list tensor) (w : world) : world :=
  {| self := self w; dicts := dicts w; tensors := t;
     stdout := stdout w; draws := draws w; ops := ops w |}.
Definition with_stdout (o : list event) (w : world) : world :=
  {| self := self w; dicts := dicts w; tensors := tensors w;
     stdout := o; draws := draws w; ops := ops w |}.
Definition with_draws (n : nat) (w : world) : world :=
  {| self := self w; dicts := dicts w; tensors := tensors w;
     stdout := stdout w; draws := n; ops := ops w |}.
Definition with_ops (n : nat) (w : world) : world :=
  {| self := self w; dicts := dicts w; tensors := tensors w;
     stdout := stdout w; draws := draws w; ops := n |}.

(** Computations: state passing with exceptions. *)
Definition M (A : Type) : Type := world -> world * (exn + A).

Definition ret {A} (a : A) : M A := fun w => (w, inr a).
Definition raise {A} (e : exn) : M A := fun w => (w, inl e).
Definition bind {A B} (m : M A) (k : A -> M B) : M B :=
  fun w => match m w with
           | (w', inr a) => k a w'
           | (w', inl e) => (w', inl e)
           end.

Declare Scope py_scope.
Delimit Scope py_scope with py.
Notation "x <- m ;; k" := (bind m (fun x => k))
  (at level 100, m at next level, right associativity) : py_scope.
Notation "m ;;; k" := (bind m (fun _ => k))
  (at level 100, right associativity) : py_scope.
Local Open Scope py_scope.

Definition get_self : M collate_fn := fun w => (w, inr (self w)).
Definition modify_self (f : collate_fn -> collate_fn) : M unit :=
  fun w => (with_self f w, inr tt).
Definition emit (e : event) : M unit :=
  fun w => (with_stdout (stdout w ++ [e]) w, inr tt).
Definition print (m : message) : M unit := emit (Print m).
Definition gc_collect : M unit := emit GcCollect.
Definition cuda_empty_cache : M unit := emit CudaEmptyCache.

Fixpoint for_each {A} (l : list A) (body : A -> M unit) : M unit :=
  match l with
  | [] => ret tt
  | x :: l' => body x ;;; for_each l' body
  end.

(** [l[0]] and [l[-1]] on a Python list. *)
Definition getitem_first {A} (l : list A) : M A :=
  match head l with
  | Some x => ret x
  | None => raise (IndexError "list index out of range")
  end.
Definition getitem_last {A} (l : list A) : M A :=
  match last l with
  | Some x => ret x
  | None => raise (IndexError "list index out of range")
  end.
Definition getitem_nth {A} (l : list A) (i : nat) : M A :=
  match l !! i with
  | Some x => ret x
  | None => raise (IndexError "list index out of range")
  end.

(** [d[key]] and [d[key] = v] on the dictionary referenced by [r]. *)
Definition dict_getitem (r : loc) (key : string) : M tensor :=
  fun w => match dicts w !! r ≫= (fun d => d !! key) with
           | Some v => (w, inr v)
           | None => (w, inl (KeyError key))
           end.
Definition dict_setitem (r : loc) (key : string) (v : tensor) : M unit :=
  fun w => (with_dicts (<[r := <[key := v]> (default ∅ (dicts w !! r))]> (dicts w)) w,
            inr tt).
Definition dict_contains (r : loc) (key : string) : M bool :=
  fun w => (w, inr (bool_decide (is_Some (dicts w !! r ≫= (fun d => d !! key))))).

(** Python's [round(x)] to an integer: ties go to the even neighbour. *)
Definition round_half_even (x : Q) : Z :=
  let f := Qfloor x in
  match Qcompare (x - inject_Z f)%Q (1 # 2) with
  | Lt => f
  | Gt => f + 1
  | Eq => if Z.even f then f else f + 1
  end.

(** [round(x, 6)]. *)
Definition round6 (x : Q) : Q := round_half_even (x * (1000000 # 1))%Q # 1000000.

(** [l[-1:] + l[:-1]], which is also [roll(shifts=1)] along dimension 0. *)
Definition roll1 {A} (l : list A) : list A :=
  drop (length l - 1) l ++ take (length l - 1) l.

Section Collate.

Variable env : environment.

(** A tensor operation of the library: raises what the environment says. *)
Definition tensor_op : M unit :=
  fun w => (with_ops (S (ops w)) w,
            match faults env (ops w) with Some e => inl e | None => inr tt end).

Definition random_random : M Q :=
  fun w => (with_draws (S (draws w)) w, inr (random_floats env (draws w))).

Definition random_uniform (a b : Q) : M Q :=
  u <- random_random ;; ret (a + (b - a) * u)%Q.

Definition random_choice {A} (l : list A) : M A :=
  match l with
  | [] => raise (IndexError "Cannot choose from an empty sequence")
  | _ => fun w =>
      getitem_nth l (random_index env (draws w) mod length l)%nat
                  (with_draws (S (draws w)) w)
  end.

(** Image batches: objects updated in place. *)
Definition tensor_load (l : loc) : M tensor :=
  fun w => (w, inr (default [] (tensors w !! l))).
Definition tensor_store (l : loc) (t : tensor) : M unit :=
  fun w => (with_tensors (<[l := t]> (tensors w)) w, inr tt).
Definition tensor_new (t : tensor) : M loc :=
  fun w => (with_tensors (tensors w ++ [t]) w, inr (length (tensors w))).

(** [torch.cat([x[None] for x in imgs], dim=0)]: a new tensor.  An empty
    list and images of different sizes are refused, with the exception the
    library raises for them. *)
Definition stack_images (imgs : list row) : M loc :=
  match imgs with
  | [] => raise (cat_error env [])
  | x :: rest =>
      if forallb (fun y => length y =? length x)%nat rest
      then tensor_op ;;; tensor_new imgs
      else raise (cat_error env imgs)
  end.

(** [t.roll(shifts=1, dims=0)]: a new tensor. *)
Definition tensor_roll (l : loc) : M loc :=
  tensor_op ;;; t <- tensor_load l ;; tensor_new (roll1 t).

(** [t.mul_(c)]: in place, returns [t]. *)
Definition tensor_mul_ (l : loc) (c : Q) : M loc :=
  tensor_op ;;; t <- tensor_load l ;;
  tensor_store l (map (map (fun p => p * c)%Q) t) ;;; ret l.

(** [t.add_(t2)]: in place, returns [t]. *)
Definition tensor_add_ (l l2 : loc) : M loc :=
  tensor_op ;;; t <- tensor_load l ;; t2 <- tensor_load l2 ;;
  tensor_store l (zip_with (zip_with Qplus) t t2) ;;; ret l.

Definition torch_cat (ts : list tensor) : M tensor :=
  tensor_op ;;; ret (concat ts).

Definition torch_tensor (l : list Q) : M tensor :=
  tensor_op ;;; ret (tensor_of_list l).

Definition F_interpolate (t : tensor) (size : Z) : M tensor :=
  tensor_op ;;; ret (interpolate env t size).

(** ** [set_epoch] *)

Definition Base_set_epoch (epoch_ : Z) : M unit :=
  modify_self (with_epoch epoch_) ;;;
  s <- get_self ;;
  if (2 <=? length (mixup_epochs s))%nat then
    first <- getitem_first (mixup_epochs s) ;;
    if epoch_ =? first then print (MsgActivating epoch_)
    else
      last_ <- getitem_last (mixup_epochs s) ;;
      if epoch_ =? last_ then print (MsgDeactivating epoch_) else ret tt
  else ret tt.

Definition set_epoch (epoch_ : Z) : M unit :=
  Base_set_epoch epoch_ ;;;
  s <- get_self ;;
  if gradual_mixup s && Qlt_bool 0 (mixup_prob s) then
    if (2 <=? length (mixup_epochs s))%nat then
      first <- getitem_first (mixup_epochs s) ;;
      if first <=? epoch_ then
        last_ <- getitem_last (mixup_epochs s) ;;
        if epoch_ <? last_ then
          let epochs_since_start := epoch_ - first in
          if epochs_since_start <? warm_up_epochs s then
            let adjusted_prob :=
              (original_mixup_prob s *
               (inject_Z (epochs_since_start + 1) / inject_Z (warm_up_epochs s)))%Q in
            if negb (Qeq_bool (mixup_prob s) adjusted_prob) then
              modify_self (with_mixup_prob adjusted_prob) ;;;
              print (MsgAdjusting epoch_ adjusted_prob)
            else ret tt
          else if negb (Qeq_bool (mixup_prob s) (original_mixup_prob s)) then
            modify_self (with_mixup_prob (original_mixup_prob s)) ;;;
            print (MsgFullProbability epoch_ (original_mixup_prob s))
          else ret tt
        else ret tt
      else ret tt
    else ret tt
  else ret tt.

(** ** [apply_mixup] *)

(** [d_i[key] = torch.cat([d_i[key], d_s[key]], dim=0)]. *)
Definition extend_entry (ti si : loc) (key : string) : M unit :=
  a <- dict_getitem ti key ;;
  b <- dict_getitem si key ;;
  c <- torch_cat [a; b] ;;
  dict_setitem ti key c.

(** One round of the merging loop, for index [i]. *)
Definition merge_target (beta : Q) (targets shifted_targets : list loc) (i : nat)
  : M unit :=
  ti <- getitem_nth targets i ;;
  si <- getitem_nth shifted_targets i ;;
  extend_entry ti si "boxes" ;;;
  extend_entry ti si "labels" ;;;
  extend_entry ti si "area" ;;;
  a <- dict_getitem ti "boxes" ;;
  b <- dict_getitem si "boxes" ;;
  c <- torch_tensor (repeat beta (length a) ++ repeat (1 - beta)%Q (length b)) ;;
  dict_setitem ti "mixup" c.

(** The merging of the targets: the shifted list holds the same
    dictionaries as [targets], not copies of them. *)
Definition merge_targets (beta : Q) (targets : list loc) : M unit :=
  let shifted_targets := roll1 targets in
  for_each (seq 0 (length targets)) (merge_target beta targets shifted_targets) ;;;
  gc_collect.

(** The blend of the images, in place. *)
Definition blend_images (images : loc) (beta : Q) : M unit :=
  rolled_images <- tensor_roll images ;;
  _ <- tensor_mul_ images beta ;;
  r <- tensor_mul_ rolled_images (1 - beta)%Q ;;
  _ <- tensor_add_ images r ;;
  gc_collect.

(** One round of the visualisation loop, for index [i]. *)
Definition visualise (images : loc) (targets : list loc) (i : nat) : M unit :=
  t <- tensor_load images ;;
  _ <- getitem_nth t i ;;
  tensor_op ;;;
  ti <- getitem_nth targets i ;;
  boxes <- dict_getitem ti "boxes" ;;
  print (MsgMixVis i (length boxes)) ;;;
  s <- get_self ;;
  tensor_op ;;;
  emit (SaveImage (vis_save s) i (length boxes)) ;;;
  gc_collect.

(** The test of line 177: the draw comes first, the window is looked at
    only when the draw is below the probability. *)
Definition mixup_condition : M bool :=
  u <- random_random ;;
  s <- get_self ;;
  if Qlt_bool u (mixup_prob s) then
    first <- getitem_first (mixup_epochs s) ;;
    if first <=? epoch s then
      last_ <- getitem_last (mixup_epochs s) ;; ret (epoch s <? last_)
    else ret false
  else ret false.

(** The notice of lines 172 to 174. *)
Definition closing_notice : M unit :=
  s <- get_self ;;
  last_ <- getitem_last (mixup_epochs s) ;;
  if (epoch s =? last_) && print_info_flag s then
    print (MsgMixupClosed (epoch s)) ;;;
    modify_self (with_print_info_flag false)
  else ret tt.

Definition apply_mixup (images : loc) (targets : list loc) : M (loc * list loc) :=
  closing_notice ;;;
  active <- mixup_condition ;;
  if active : bool then
    x <- random_uniform (45 # 100) (55 # 100) ;;
    let beta := round6 x in
    blend_images images beta ;;;
    merge_targets beta targets ;;;
    s <- get_self ;;
    (if data_vis s then
       for_each (seq 0 (Nat.min 2 (length targets))) (visualise images targets)
     else ret tt) ;;;
    ret (images, targets)
  else ret (images, targets).

(** ** [__call__] *)

(** [tg['masks'] = F.interpolate(tg['masks'], size=sz, mode='nearest')]. *)
Definition resize_masks (sz : Z) (tg : loc) : M unit :=
  m <- dict_getitem tg "masks" ;;
  m' <- F_interpolate m sz ;;
  dict_setitem tg "masks" m'.

(** Lines 232 to 241: when the next epoch opens the mixup window, memory
    is released before the batch is built. *)
Definition release_before_transition : M unit :=
  s <- get_self ;;
  let current_epoch := epoch s in
  next_is_transition <-
    (if (2 <=? length (mixup_epochs s))%nat then
       first <- getitem_first (mixup_epochs s) ;; ret (current_epoch + 1 =? first)
     else ret false) ;;
  if next_is_transition : bool then
    gc_collect ;;;
    if cuda_is_available env then cuda_empty_cache else ret tt
  else ret tt.

(** Lines 251 to 259: the resize to a scale drawn from [scales]. *)
Definition multi_scale_resize (images : loc) (targets : list loc)
  : M (loc * list loc) :=
  s <- get_self ;;
  match scales s with
  | Some scales_ =>
      if epoch s <? stop_epoch s then
        sz <- random_choice scales_ ;;
        t <- tensor_load images ;;
        t' <- F_interpolate t sz ;;
        images <- tensor_new t' ;;
        t0 <- getitem_first targets ;;
        has_masks <- dict_contains t0 "masks" ;;
        (if has_masks : bool then
           for_each targets (resize_masks sz) ;;;
           raise (NotImplementedError "")
         else ret tt) ;;;
        ret (images, targets)
      else ret (images, targets)
  | None => ret (images, targets)
  end.

(** The body of the [try] block. *)
Definition call_body (items : list (row * loc)) : M (loc * list loc) :=
  release_before_transition ;;;
  images <- stack_images (map fst items) ;;
  let targets := map snd items in
  it <- apply_mixup images targets ;;
  multi_scale_resize (fst it) (snd it).

(** The [except RuntimeError] clause. *)
Definition handler (e : exn) : M unit :=
  if is_RuntimeError e then
    (if str_contains "CUDA out of memory" (str e) then
       s <- get_self ;;
       print (MsgCudaOom (epoch s)) ;;;
       mixup_active <-
         (if (2 <=? length (mixup_epochs s))%nat then
            first <- getitem_first (mixup_epochs s) ;;
            if first <=? epoch s then
              last_ <- getitem_last (mixup_epochs s) ;; ret (epoch s <? last_)
            else ret false
          else ret false) ;;
       print (MsgMemoryIntensive mixup_active) ;;;
       gc_collect ;;;
       cuda_empty_cache
     else ret tt)
  else ret tt.

Definition call (items : list (row * loc)) : M (loc * list loc) :=
  fun w =>
    match call_body items w with
    | (w', inr r) => (w', inr r)
    | (w', inl e) => (handler e ;;; raise e) w'
    end.

End Collate.

(** ** The scheduler, read off [set_epoch] *)

(** The window [(start, end)] the scheduler works with: the first and the
    last element of [mixup_epochs], when it has at least two elements. *)
Definition window (s : collate_fn) : option (Z * Z) :=
  if (2 <=? length (mixup_epochs s))%nat then
    match head (mixup_epochs s), last (mixup_epochs s) with
    | Some a, Some b => Some (a, b)
    | _, _ => None
    end
  else None.

(** What [BaseCollateFunction.set_epoch] prints for epoch [e]. *)
Definition boundary_notice (e : Z) (s : collate_fn) : list event :=
  match window s with
  | Some (a, b) =>
      if e =? a then [Print (MsgActivating e)]
      else if e =? b then [Print (MsgDeactivating e)] else []
  | None => []
  end.

(** The probability [set_epoch] aims at for epoch [e], when it aims at one. *)
Definition target_prob (e : Z) (s : collate_fn) : option Q :=
  if gradual_mixup s && Qlt_bool 0 (mixup_prob s) then
    match window s with
    | Some (a, b) =>
        if (a <=? e) && (e <? b) then
          if e - a <? warm_up_epochs s then
            Some (original_mixup_prob s *
                  (inject_Z (e - a + 1) / inject_Z (warm_up_epochs s)))%Q
          else Some (original_mixup_prob s)
        else None
    | None => None
    end
  else None.

(** The probability after [set_epoch e]: assigned only when it differs in
    value from the one aimed at. *)
Definition next_prob (e : Z) (s : collate_fn) : Q :=
  match target_prob e s with
  | Some p => if Qeq_bool (mixup_prob s) p then mixup_prob s else p
  | None => mixup_prob s
  end.

(** What [BatchImageCollateFunction.set_epoch] prints about the
    probability for epoch [e]. *)
Definition prob_notice (e : Z) (s : collate_fn) : list event :=
  match target_prob e s with
  | Some p =>
      if Qeq_bool (mixup_prob s) p then []
      else if (e - default 0 (head (mixup_epochs s)) <? warm_up_epochs s)
           then [Print (MsgAdjusting e p)] else [Print (MsgFullProbability e p)]
  | None => []
  end.

(** What [__init__] establishes and every method keeps: the warm-up lasts
    three epochs, and the effective probability is positive exactly when
    the original one is ([mixup_prob] is meant to lie in [0, 1]). *)
Definition scheduler_ok (s : collate_fn) : Prop :=
  warm_up_epochs s = 3 /\
  ((0 < original_mixup_prob s /\ 0 < mixup_prob s)%Q \/
   (original_mixup_prob s == 0 /\ mixup_prob s == 0)%Q).

(** The world of a new object: the caller's dictionaries, nothing printed
    yet. *)
Definition new_world (s : collate_fn) (d : gmap loc (gmap string tensor)) : world :=
  {| self := s; dicts := d; tensors := []; stdout := []; draws := 0; ops := 0 |}.

Definition is_activating (ev : event) : bool :=
  match ev with Print (MsgActivating _) => true | _ => false end.
Definition is_deactivating (ev : event) : bool :=
  match ev with Print (MsgDeactivating _) => true | _ => false end.

Fixpoint count_events (p : event -> bool) (out : list event) : nat :=
  match out with
  | [] => 0
  | ev :: out' => (if p ev then 1 else 0) + count_events p out'
  end.

(** The epochs [e0, e0 + 1, ..., e0 + n - 1]. *)
Fixpoint consecutive (e0 : Z) (n : nat) : list Z :=
  match n with
  | O => []
  | S n' => e0 :: consecutive (e0 + 1) n'
  end.

(** [set_epoch], called for each epoch of [es] in turn. *)
Definition set_epochs (es : list Z) : M unit := for_each es set_epoch.

(** ** Reasoning about computations *)

(** The entry [key] of the dictionary referenced by [r]. *)
Definition entry (w : world) (r : loc) (key : string) : option tensor :=
  dicts w !! r ≫= (fun d => d !! key).

Definition annotation_keys : list string := ["boxes"; "labels"; "area"].

Definition is_oom_notice (ev : event) : bool :=
  match ev with Print (MsgCudaOom _) => true | _ => false end.

(** What holds between the world before and after any part of the [try]
    block, finished or interrupted by an exception: no dictionary loses a
    key, the annotation sequences only grow at their end, nothing of the
    object changes but [print_info_flag], and no out-of-memory notice is
    printed. *)
Record evolves (w w' : world) : Prop := {
  keys_kept : forall r key, is_Some (entry w r key) -> is_Some (entry w' r key);
  annotations_grow : forall r key b,
    key ∈ annotation_keys -> entry w r key = Some b ->
    exists b', entry w' r key = Some (b ++ b');
  config_kept :
    with_print_info_flag true (self w') = with_print_info_flag true (self w);
  oom_notices_kept :
    count_events is_oom_notice (stdout w') = count_events is_oom_notice (stdout w)
}.

(** The image batches are left as they are. *)
Definition tensors_kept (w w' : world) : Prop := tensors w' = tensors w.

(** Neither the dictionaries nor the image batches are touched. *)
Definition data_kept (w w' : world) : Prop :=
  dicts w' = dicts w /\ tensors w' = tensors w.

(** [m] takes every world to one related to it by [R], whether it returns
    or raises. *)
Definition follows {A} (R : world -> world -> Prop) (m : M A) : Prop :=
  forall w, R w (fst (m w)).

(** Started in [w], [m] returns (it does not raise) a value and a world
    satisfying [Q]. *)
Definition wp {A} (m : M A) (Q : A -> world -> Prop) (w : world) : Prop :=
  exists a, snd (m w) = inr a /\ Q a (fst (m w)).

(** If [m], started in a world satisfying [P], returns, then the value and
    the world satisfy [Q]. *)
Definition partial {A} (P : world -> Prop) (m : M A) (Q : A -> world -> Prop) : Prop :=
  forall w a, P w -> snd (m w) = inr a -> Q a (fst (m w)).

(** Started in a world satisfying [P], [m] raises. *)
Definition fails {A} (P : world -> Prop) (m : M A) : Prop :=
  forall w, P w -> exists e, snd (m w) = inl e.

(** No tensor operation raises. *)
Definition no_faults (env : environment) : Prop := forall k, faults env k = None.

(** Every target has its three annotation sequences. *)
Definition annotated (targets : list loc) (w : world) : Prop :=
  forall r key, r ∈ targets -> key ∈ annotation_keys -> is_Some (entry w r key).

(** The images after the blend: [images.mul_(beta)] plus the rolled copy
    multiplied by [1 - beta]. *)
Definition scaled (c : Q) (t : tensor) : tensor := map (map (fun p => p * c)%Q) t.
Definition blend (beta : Q) (t : tensor) : tensor :=
  zip_with (zip_with Qplus) (scaled beta t) (scaled (1 - beta)%Q (roll1 t)).

(** The ratio [apply_mixup] draws, from the second value of the random
    source consumed by the call. *)
Definition drawn_beta (env : environment) (w : world) : Q :=
  round6 ((45 # 100) + ((55 # 100) - (45 # 100)) * random_floats env (S (draws w)))%Q.

(** The test of [apply_mixup], as a condition on the world it starts in. *)
Definition mixup_applies (env : environment) (w : world) : Prop :=
  exists start end_,
    head (mixup_epochs (self w)) = Some start /\
    last (mixup_epochs (self w)) = Some end_ /\
    Qlt_bool (random_floats env (draws w)) (mixup_prob (self w)) = true /\
    start <= epoch (self w) < end_.

(** What [torch.cat] accepts when it stacks the images: at least one, all
    of one size.  An image is the flattened list of its scalars, so the
    embedding tells two shapes apart by their numbers of elements only. *)
Definition stackable (imgs : list row) : bool :=
  match imgs with
  | [] => false
  | x :: rest => forallb (fun y => length y =? length x)%nat rest
  end.

(** Whether the epoch is inside the window, as the handler reports it. *)
Definition mixup_active (s : collate_fn) : bool :=
  match window s with
  | Some (a, b) => (a <=? epoch s) && (epoch s <? b)
  | None => false
  end.

(** What the [except] clause writes for the exception [e]. *)
Definition handler_events (e : exn) (s : collate_fn) : list event :=
  if is_cuda_oom e then
    [Print (MsgCudaOom (epoch s)); Print (MsgMemoryIntensive (mixup_active s));
     GcCollect; CudaEmptyCache]
  else [].

(** [annotated], computed. *)
Definition annotatedb (targets : list loc) (w : world) : bool :=
  forallb (fun r =>
    forallb (fun key => bool_decide (is_Some (entry w r key))) annotation_keys)
    targets.

(** ** Concrete inputs *)

Definition cuda_oom : exn :=
  RuntimeError "CUDA out of memory. Tried to allocate 20.00 MiB".

(** An environment whose random source always gives [u], whose tensor
    operation number [n] raises [cuda_oom] when [fault_at = Some n], without
    CUDA, whose resize kernel is the identity, and whose [torch.cat] raises
    [ValueError] for an empty list and [RuntimeError] for images of
    different sizes. *)
Definition sample_env (u : Q) (fault_at : option nat) : environment :=
  {| random_floats := fun _ => u;
     random_index := fun _ => 0%nat;
     faults := fun k =>
       match fault_at with
       | Some n => if (k =? n)%nat then Some cuda_oom else None
       | None => None
       end;
     cuda_is_available := false;
     interpolate := fun t _ => t;
     cat_error := fun imgs =>
       match imgs with
       | [] => ValueError "torch.cat(): expected a non-empty list of Tensors"
       | _ => RuntimeError "Sizes of tensors must match except in dimension 0"
       end |}.

(** A target with one box, one label and one area, all marked by [k]. *)
Definition sample_target (k : Z) : gmap string tensor :=
  <["boxes" := [[inject_Z k; 0; 0; 0]%Q]]>
    (<["labels" := [[inject_Z k]]]> (<["area" := [[inject_Z k]]]> ∅)).

(** A collate object with mixup probability one half. *)
Definition sample_fn (epochs : list Z) (gradual multi_scale : bool) : collate_fn :=
  fst (init (if multi_scale then Some 100 else None) (9999 # 10000) 640
            (if multi_scale then Some 4 else None) (1 # 2) epochs false
            "./vis_dataset/" gradual).

(** The world after [set_epoch e] on a new object. *)
Definition sample_world (s : collate_fn) (e : Z)
    (d : gmap loc (gmap string tensor)) : world :=
  fst (set_epoch e (new_world s d)).

(** ** The rest of the module *)

(** [batch_image_collate_fn]: the images stacked into a new batch, the
    targets as they come. *)
Definition batch_image_collate_fn (env : environment) (items : list (row * loc))
  : M (loc * list loc) :=
  images <- stack_images env (map fst items) ;;
  ret (images, map snd items).

(** [DataLoader]: the attributes the class sets itself, [_epoch] and
    [_shuffle], absent until they are assigned.  The collate function of the
    loader is the object of the world; the dataset is not part of this
    module, so its [set_epoch] is a computation given from outside. *)
Module DataLoader.

(** What a caller may assign to [shuffle]. *)
Inductive value :=
| Bool (b : bool)
| Int (z : Z)
| Float (x : Q)
| Str (s : string)
| NoneValue.

Inductive error :=
| AssertionError (msg : string)
| AttributeError (name : string).

Record t := { _epoch : option Z; _shuffle : option bool }.

(** [isinstance(v, bool)], with the boolean when it holds: an [int] is not
    a [bool]. *)
Definition isinstance_bool (v : value) : option bool :=
  match v with
  | Bool b => Some b
  | Int _ | Float _ | Str _ | NoneValue => None
  end.

(** [set_epoch]: the loader's epoch is assigned first, then the dataset's
    [set_epoch] runs, then the collate function's. *)
Definition set_epoch (dataset_set_epoch : Z -> M unit) (e : Z) (self : t) : t * M unit :=
  ({| _epoch := Some e; _shuffle := _shuffle self |},
   dataset_set_epoch e ;;; set_epoch e).

(** The [epoch] property. *)
Definition epoch (self : t) : Z := default (-1) (_epoch self).

(** The [shuffle] property. *)
Definition shuffle (self : t) : error + bool :=
  match _shuffle self with
  | Some b => inr b
  | None => inl (AttributeError "_shuffle")
  end.

(** The [shuffle] setter. *)
Definition set_shuffle (v : value) (self : t) : error + t :=
  match isinstance_bool v with
  | Some b => inr {| _epoch := _epoch self; _shuffle := Some b |}
  | None => inl (AssertionError "shuffle must be a boolean")
  end.

End DataLoader.

(** ** Sequences of method calls *)

Inductive method :=
| SetEpoch (e : Z)
| ApplyMixup (images : loc) (targets : list loc)
| Call (items : list (row * loc)).

(** One method call on the object; what it returns is dropped. *)
Definition invoke (env : environment) (m : method) : M unit :=
  match m with
  | SetEpoch e => set_epoch e
  | ApplyMixup images targets => _ <- apply_mixup env images targets ;; ret tt
  | Call items => _ <- call env items ;; ret tt
  end.

(** The world after the calls of [ms], one after the other.  A call that
    raises leaves the world it had reached, and the next call starts
    there. *)
Fixpoint session (env : environment) (ms : list method) (w : world) : world :=
  match ms with
  | [] => w
  | m :: ms' => session env ms' (fst (invoke env m w))
  end.

(** The argument of the last [set_epoch] of [ms], [e0] when there is none. *)
Fixpoint latest_epoch (ms : list method) (e0 : Z) : Z :=
  match ms with
  | [] => e0
  | SetEpoch e :: ms' => latest_epoch ms' e
  | _ :: ms' => latest_epoch ms' e0
  end.

(** What [__init__] fixes for the life of the object. *)
Definition configuration (s : collate_fn) :=
  (base_size s, scales s, stop_epoch s, ema_restart_decay s, mixup_epochs s,
   gradual_mixup s, original_mixup_prob s, data_vis s, vis_save s,
   warm_up_epochs s).

Definition is_closing_notice (ev : event) : bool :=
  match ev with Print (MsgMixupClosed _) => true | _ => false end.

Definition is_save_image (ev : event) : bool :=
  match ev with SaveImage _ _ _ => true | _ => false end.

(** A step of the closing-notice latch: either nothing happens to it, or
    the flag goes from set to cleared and the notice is written once. *)
Definition latch (w w' : world) : Prop :=
  (count_events is_closing_notice (stdout w') =
     count_events is_closing_notice (stdout w) /\
   print_info_flag (self w') = print_info_flag (self w)) \/
  (print_info_flag (self w) = true /\ print_info_flag (self w') = false /\
   count_events is_closing_notice (stdout w') =
     S (count_events is_closing_notice (stdout w))).

(** The effective probability lies between zero and the original one. *)
Definition prob_bounded (s : collate_fn) : Prop :=
  warm_up_epochs s = 3 /\
  (0 <= mixup_prob s)%Q /\ (mixup_prob s <= original_mixup_prob s)%Q.

(** The random source is left where it is. *)
Definition draws_kept (w w' : world) : Prop := draws w' = draws w.

(** The events selected by [p] are left as they are. *)
Definition events_kept (p : event -> bool) (w w' : world) : Prop :=
  count_events p (stdout w') = count_events p (stdout w).

(** The keys [apply_mixup] assigns to. *)
Definition mixup_keys : list string := ["boxes"; "labels"; "area"; "mixup"].

(** Only the entries of [targets] under [keys] are written: everything
    else in the dictionaries reads as before. *)
Definition writes_within (targets : list loc) (keys : list string)
    (w w' : world) : Prop :=
  forall r key, r ∉ targets \/ key ∉ keys -> entry w' r key = entry w r key.

(** The first [n] image batches are left as they are. *)
Definition batches_kept (n : nat) (w w' : world) : Prop :=
  (n <= length (tensors w))%nat ->
  (n <= length (tensors w'))%nat /\ take n (tensors w') = take n (tensors w).

(** The test of [apply_mixup], computed. *)
Definition mixup_appliesb (env : environment) (w : world) : bool :=
  match head (mixup_epochs (self w)), last (mixup_epochs (self w)) with
  | Some start, Some end_ =>
      Qlt_bool (random_floats env (draws w)) (mixup_prob (self w)) &&
      ((start <=? epoch (self w)) && (epoch (self w) <? end_))
  | _, _ => false
  end.

(** What lines 232 to 241 do for the object [s]: the release of memory,
    when the next epoch is the first of the window. *)
Definition release_events (env : environment) (s : collate_fn) : list event :=
  match mixup_epochs s with
  | first :: _ :: _ =>
      if epoch s + 1 =? first
      then GcCollect :: (if cuda_is_available env then [CudaEmptyCache] else [])
      else []
  | _ => []
  end.

(** Run from [w], [m] adds at most [c] saved images to the output, and
    removes none. *)
Definition saves_within (c : nat) {A} (m : M A) (w : world) : Prop :=
  (count_events is_save_image (stdout w) <=
   count_events is_save_image (stdout (fst (m w))) <=
   count_events is_save_image (stdout w) + c)%nat.

(** What the visualisation of one call may save, for a batch of [n]
    targets. *)
Definition saves_bounded (n : nat) {A} (m : M A) (w : world) : Prop :=
  saves_within (if data_vis (self w) then Nat.min 2 n else 0) m w.

(** The output only grows: what has been written stays written. *)
Definition output_kept (w w' : world) : Prop := stdout w `prefix_of` stdout w'.

(** No dictionary loses a key and the annotation sequences only grow at
    their end. *)
Definition grows (w w' : world) : Prop :=
  (forall r key, is_Some (entry w r key) -> is_Some (entry w' r key)) /\
  (forall r key b, key ∈ annotation_keys -> entry w r key = Some b ->
                   exists b', entry w' r key = Some (b ++ b')).

(** ** The merge of the targets, round by round *)

(** The boxes, labels and areas are left as they are. *)
Definition annotations_kept (w w' : world) : Prop :=
  forall r key, key ∈ annotation_keys -> entry w' r key = entry w r key.


(** * Scale generation *)

Lemma Qfloor_scaled (b : Z) (n : Z) (d : positive) (x : Q) :
  (x == (n * b) # d)%Q -> Qfloor x = (n * b) / Zpos d.
Proof. intros H. rewrite (Qfloor_comp _ _ H). reflexivity. Qed.

Lemma three_quarters (b : Z) :
  (inject_Z b * (75 # 100) / (32 # 1) == (3 * b) # 128)%Q.
Proof.
  unfold Qeq, Qdiv, Qmult, Qinv, inject_Z. simpl. lia.
Qed.

Lemma Qfloor_three_quarters (b : Z) :
  Qfloor (inject_Z b * (75 # 100) / (32 # 1)) = (3 * b) / 128.
Proof. apply (Qfloor_scaled b 3 128), three_quarters. Qed.

Lemma Qceiling_three_quarters (b : Z) :
  Qceiling (inject_Z b * (75 # 100) / (32 # 1)) = - ((- (3 * b)) / 128).
Proof.
  unfold Qceiling. f_equal.
  assert (H : (- (inject_Z b * (75 # 100) / (32 # 1)) == (-1 * (3 * b)) # 128)%Q).
  { rewrite three_quarters. unfold Qeq, Qopp. simpl. lia. }
  rewrite (Qfloor_comp _ _ H). unfold Qfloor. simpl Qnum. simpl Qden. f_equal; lia.
Qed.

Lemma Qle_bool_three_quarters (b : Z) :
  Qle_bool 0 (inject_Z b * (75 # 100) / (32 # 1)) = (0 <=? b).
Proof.
  apply eq_true_iff_eq. rewrite Qle_bool_iff, Z.leb_le, three_quarters.
  unfold Qle. simpl. lia.
Qed.

Lemma range_nonpos (n : Z) : n <= 0 -> range n = [].
Proof. intros H. unfold range. replace (Z.to_nat n) with 0%nat by lia. reflexivity. Qed.

Lemma generate_scales_refines (base repeatCount : Z) :
  generate_scales base repeatCount = generate_scales_spec base repeatCount.
Proof.
  unfold generate_scales, generate_scales_spec, int_of_float.
  rewrite Qle_bool_three_quarters.
  destruct (Z.leb_spec 0 base) as [Hb|Hb].
  - assert (H125 : Qle_bool 0 (inject_Z base * (125 # 100) / (32 # 1)) = true).
    { apply Qle_bool_iff. unfold Qle, Qdiv, Qmult, Qinv, inject_Z. simpl. lia. }
    rewrite H125. rewrite <- app_assoc. f_equal; [|f_equal].
    + apply map_ext. intros. lia.
    + apply map_ext. intros. lia.
  - rewrite Qceiling_three_quarters, Qfloor_three_quarters.
    rewrite !range_nonpos; [rewrite <- app_assoc; reflexivity | |].
    + pose proof (Z.mul_div_le (3 * base) 128 ltac:(lia)).
      pose proof (Z.mul_succ_div_gt (3 * base) 128 ltac:(lia)).
      apply Z.lt_succ_r, Z.div_lt_upper_bound; lia.
    + pose proof (Z.mul_div_le (- (3 * base)) 128 ltac:(lia)).
      pose proof (Z.mul_succ_div_gt (- (3 * base)) 128 ltac:(lia)).
      apply Z.lt_succ_r, Z.div_lt_upper_bound; lia.
Qed.

(** C6.  [generate_scales] is a function of its two arguments, and its
    result is the list the specification describes: [step] values rising
    from [low] by 32, then [base] repeated [repeatCount] times, then [step]
    values falling by 32 from [floor(base * 1.25 / 32) * 32], with
    [low = floor(base * 0.75 / 32) * 32] and [step = (base - low) // 32];
    for 640 and 4 it is the list of fourteen scales of the example. *)
Theorem generate_scales_as_specified :
  (forall base repeatCount : Z,
     generate_scales base repeatCount = generate_scales_spec base repeatCount) /\
  generate_scales 640 4 =
  [480; 512; 544; 576; 608; 640; 640; 640; 640; 800; 768; 736; 704; 672].
Proof. split; [apply generate_scales_refines|reflexivity]. Qed.

(** * The epoch scheduler *)

Lemma set_epoch_unfold e w :
  set_epoch e w =
  (with_stdout (stdout w ++ boundary_notice e (self w) ++ prob_notice e (self w))
     (with_self (fun s => with_mixup_prob (next_prob e s) (with_epoch e s)) w),
   inr tt).
Proof.
  destruct w as [s d t o dr op].
  destruct s as [bs sc se er mp me gm om dv vs pf wu ep].
  unfold set_epoch, Base_set_epoch, boundary_notice, prob_notice, next_prob,
    target_prob, window, bind, modify_self, get_self, getitem_first, getitem_last,
    print, emit, ret, raise, with_self, with_stdout.
  cbn [self dicts tensors stdout draws ops mixup_epochs with_epoch gradual_mixup
       mixup_prob warm_up_epochs original_mixup_prob with_mixup_prob].
  destruct me as [|a [|b l]].
  - cbn. destruct (gm && Qlt_bool 0 mp); cbn; rewrite ?app_nil_r; reflexivity.
  - cbn. destruct (gm && Qlt_bool 0 mp); cbn; rewrite ?app_nil_r; reflexivity.
  - assert (Hlast : exists z, last (a :: b :: l) = Some z).
    { rewrite last_cons_cons, last_cons. destruct (last l); eauto. }
    destruct Hlast as [z Hlast].
    change (2 <=? length (a :: b :: l))%nat with true.
    cbn -[last Qeq_bool Z.sub Z.leb Z.ltb Z.eqb].
    rewrite !Hlast.
    destruct (e =? a) eqn:Ea; [|destruct (e =? z) eqn:Ez];
    cbn -[last Qeq_bool Z.sub Z.leb Z.ltb Z.eqb]; rewrite ?Hlast;
    (destruct (gm && Qlt_bool 0 mp); cbn -[last Qeq_bool Z.sub Z.leb Z.ltb Z.eqb];
     rewrite ?app_nil_r; [|reflexivity]);
    (destruct (a <=? e); cbn -[last Qeq_bool Z.sub Z.leb Z.ltb Z.eqb];
     rewrite ?Hlast, ?app_nil_r; [|reflexivity]);
    (destruct (e <? z); cbn -[last Qeq_bool Z.sub Z.leb Z.ltb Z.eqb];
     rewrite ?app_nil_r; [|reflexivity]);
    (destruct (e - a <? wu); cbn -[last Qeq_bool Z.sub Z.leb Z.ltb Z.eqb]);
    match goal with |- context [Qeq_bool ?x ?y] => destruct (Qeq_bool x y) end;
    cbn -[last Z.sub]; rewrite <- ?app_assoc, ?app_nil_r; reflexivity.
Qed.



Lemma Qlt_bool_iff (x y : Q) : Qlt_bool x y = true <-> (x < y)%Q.
Proof.
  unfold Qlt_bool. rewrite negb_true_iff. split.
  - intros H. apply Qnot_le_lt. intros Hle. apply Qle_bool_iff in Hle. congruence.
  - intros H. destruct (Qle_bool y x) eqn:E; [|reflexivity].
    apply Qle_bool_iff in E. exfalso. exact (Qlt_not_le _ _ H E).
Qed.

Lemma next_prob_target (e : Z) (s : collate_fn) (p : Q) :
  target_prob e s = Some p -> (next_prob e s == p)%Q.
Proof.
  intros H. unfold next_prob. rewrite H.
  destruct (Qeq_bool (mixup_prob s) p) eqn:E; [|reflexivity].
  apply Qeq_bool_iff, E.
Qed.

Lemma init_scheduler_ok so er bs bsr p me dv vs gm :
  (0 <= p)%Q -> scheduler_ok (fst (init so er bs bsr p me dv vs gm)).
Proof.
  intros Hp. split; [reflexivity|]. cbn.
  destruct (Qlt_le_dec 0 p) as [H|H]; [left; auto|right].
  assert (p == 0)%Q by (apply Qle_antisym; assumption). auto.
Qed.

Lemma set_epoch_self (e : Z) (w : world) :
  self (fst (set_epoch e w)) = with_mixup_prob (next_prob e (self w)) (with_epoch e (self w)).
Proof. rewrite set_epoch_unfold. reflexivity. Qed.

Lemma target_prob_sign (e : Z) (s : collate_fn) (p : Q) :
  warm_up_epochs s = 3 -> target_prob e s = Some p ->
  (0 < original_mixup_prob s)%Q -> (0 < p)%Q.
Proof.
  unfold target_prob. intros Hw H Ho. rewrite Hw in H.
  destruct (gradual_mixup s && Qlt_bool 0 (mixup_prob s)); [|discriminate].
  destruct (window s) as [[a b]|]; [|discriminate].
  destruct ((a <=? e) && (e <? b)) eqn:Hin; [|discriminate].
  apply andb_true_iff in Hin. destruct Hin as [Ha Hb].
  apply Z.leb_le in Ha.
  destruct (e - a <? 3); inversion H; subst; [|assumption].
  apply Qmult_lt_0_compat; [assumption|].
  apply Qlt_shift_div_l; [reflexivity|]. rewrite Qmult_0_l.
  unfold Qlt, inject_Z. simpl. lia.
Qed.

Lemma set_epoch_scheduler_ok (e : Z) (w : world) :
  scheduler_ok (self w) -> scheduler_ok (self (fst (set_epoch e w))).
Proof.
  intros [Hw H]. rewrite set_epoch_self. split; [exact Hw|]. cbn.
  destruct H as [[Ho Hp]|[Ho Hp]].
  - left. split; [assumption|]. unfold next_prob.
    destruct (target_prob e (self w)) as [p|] eqn:Ht; [|assumption].
    destruct (Qeq_bool (mixup_prob (self w)) p); [assumption|].
    eapply target_prob_sign; eauto.
  - right. split; [assumption|]. unfold next_prob, target_prob.
    assert (Hf : Qlt_bool 0 (mixup_prob (self w)) = false).
    { destruct (Qlt_bool 0 (mixup_prob (self w))) eqn:E; [|reflexivity].
      apply Qlt_bool_iff in E. rewrite Hp in E. discriminate. }
    rewrite Hf, andb_false_r. assumption.
Qed.

(** Inside the window, with the gradual introduction enabled. *)
Lemma set_epoch_ramp (w : world) (e start end_ : Z) :
  gradual_mixup (self w) = true ->
  scheduler_ok (self w) ->
  window (self w) = Some (start, end_) ->
  start <= e < end_ ->
  let s' := self (fst (set_epoch e w)) in
  snd (set_epoch e w) = inr tt /\
  original_mixup_prob s' = original_mixup_prob (self w) /\
  (e < start + 3 ->
   (mixup_prob s' == original_mixup_prob (self w) * inject_Z (e - start + 1) / inject_Z 3)%Q) /\
  (start + 3 <= e -> (mixup_prob s' == original_mixup_prob (self w))%Q).
Proof.
  intros Hg [Hw Hok] Hwin He s'. subst s'. rewrite set_epoch_self.
  split; [rewrite set_epoch_unfold; reflexivity|]. split; [reflexivity|].
  cbn [mixup_prob with_mixup_prob].
  assert (Hin : (start <=? e) && (e <? end_) = true).
  { apply andb_true_iff. split; [apply Z.leb_le|apply Z.ltb_lt]; lia. }
  destruct Hok as [[Ho Hp]|[Ho Hp]].
  - apply Qlt_bool_iff in Hp. split; intros H.
    + rewrite (next_prob_target e (self w)
                 (original_mixup_prob (self w) * (inject_Z (e - start + 1) / inject_Z 3))).
      * unfold Qdiv. apply Qmult_assoc.
      * unfold target_prob. rewrite Hg, Hp, Hwin, Hin, Hw. cbn [andb].
        destruct (Z.ltb_spec (e - start) 3); [reflexivity|lia].
    + apply next_prob_target. unfold target_prob.
      rewrite Hg, Hp, Hwin, Hin, Hw. cbn [andb].
      destruct (Z.ltb_spec (e - start) 3); [lia|reflexivity].
  - assert (Hf : Qlt_bool 0 (mixup_prob (self w)) = false).
    { destruct (Qlt_bool 0 (mixup_prob (self w))) eqn:E; [|reflexivity].
      apply Qlt_bool_iff in E. rewrite Hp in E. discriminate. }
    unfold next_prob, target_prob. rewrite Hf, andb_false_r.
    split; intros _; rewrite Hp, Ho.
    + unfold Qdiv. rewrite !Qmult_0_l. reflexivity.
    + reflexivity.
Qed.

(** Outside the window, and without the gradual introduction. *)
Lemma set_epoch_no_ramp (w : world) (e start end_ : Z) :
  window (self w) = Some (start, end_) ->
  gradual_mixup (self w) = false \/ e < start \/ end_ <= e ->
  mixup_prob (self (fst (set_epoch e w))) = mixup_prob (self w).
Proof.
  intros Hwin H. rewrite set_epoch_self. cbn [mixup_prob with_mixup_prob].
  unfold next_prob, target_prob. rewrite Hwin.
  destruct H as [H|[H|H]].
  - rewrite H. reflexivity.
  - rewrite (proj2 (Z.leb_gt _ _) H).
    destruct (gradual_mixup (self w) && Qlt_bool 0 (mixup_prob (self w))); reflexivity.
  - rewrite (proj2 (Z.ltb_ge _ _) H), andb_false_r.
    destruct (gradual_mixup (self w) && Qlt_bool 0 (mixup_prob (self w))); reflexivity.
Qed.

(** C7 (amended).  For an object as [__init__] and the methods leave it
    (a warm-up of three epochs, a probability that is not negative) and a
    window [start, end): with the gradual introduction enabled,
    [set_epoch e] for an epoch of the window, [start <= e < end], leaves
    the effective probability at [original * (e - start + 1) / 3] when
    [e < start + 3] and at the original probability when [start + 3 <= e];
    with the gradual introduction disabled, and for an epoch outside the
    window (also one with [start <= e < start + 3] that is not below
    [end]), it leaves the effective probability as it was.  The original
    probability itself never changes, and [set_epoch] returns. *)
Theorem set_epoch_warm_up_probability (w : world) (e start end_ : Z) :
  scheduler_ok (self w) ->
  window (self w) = Some (start, end_) ->
  let s' := self (fst (set_epoch e w)) in
  snd (set_epoch e w) = inr tt /\
  original_mixup_prob s' = original_mixup_prob (self w) /\
  (gradual_mixup (self w) = true -> start <= e < end_ ->
   (e < start + 3 ->
    (mixup_prob s' ==
     original_mixup_prob (self w) * inject_Z (e - start + 1) / inject_Z 3)%Q) /\
   (start + 3 <= e -> (mixup_prob s' == original_mixup_prob (self w))%Q)) /\
  (gradual_mixup (self w) = false \/ e < start \/ end_ <= e ->
   mixup_prob s' = mixup_prob (self w)).
Proof.
  intros Hok Hwin s'. subst s'.
  split; [rewrite set_epoch_unfold; reflexivity|].
  split; [rewrite set_epoch_self; reflexivity|]. split.
  - intros Hg He.
    destruct (set_epoch_ramp w e start end_ Hg Hok Hwin He) as (_ & _ & H1 & H2).
    split; assumption.
  - apply set_epoch_no_ramp, Hwin.
Qed.

Lemma count_events_app p (a b : list event) :
  count_events p (a ++ b) = (count_events p a + count_events p b)%nat.
Proof. induction a as [|x a IH]; cbn; [reflexivity|]. rewrite IH. lia. Qed.

Lemma prob_notice_quiet e s :
  count_events is_activating (prob_notice e s) = 0%nat /\
  count_events is_deactivating (prob_notice e s) = 0%nat.
Proof.
  unfold prob_notice. destruct (target_prob e s); [|split; reflexivity].
  destruct (Qeq_bool _ _); [split; reflexivity|].
  destruct (_ <? _); split; reflexivity.
Qed.

Lemma boundary_notice_count e s start end_ :
  window s = Some (start, end_) ->
  count_events is_activating (boundary_notice e s) = (if (e =? start)%Z then 1%nat else 0%nat) /\
  count_events is_deactivating (boundary_notice e s) =
    (if (e =? end_) && negb (e =? start) then 1%nat else 0%nat).
Proof.
  intros Hw. unfold boundary_notice. rewrite Hw.
  destruct (e =? start); [split; [reflexivity|rewrite andb_false_r; reflexivity]|].
  destruct (e =? end_); split; reflexivity.
Qed.

Lemma set_epoch_window e w : window (self (fst (set_epoch e w))) = window (self w).
Proof. rewrite set_epoch_self. reflexivity. Qed.

Lemma set_epochs_cons e es w :
  set_epochs (e :: es) w = set_epochs es (fst (set_epoch e w)).
Proof.
  unfold set_epochs. cbn [for_each]. unfold bind at 1.
  rewrite set_epoch_unfold. reflexivity.
Qed.

Lemma set_epochs_count (n : nat) : forall (e0 : Z) (w : world) (start end_ : Z),
  window (self w) = Some (start, end_) ->
  let out := stdout (fst (set_epochs (consecutive e0 n) w)) in
  count_events is_activating out =
    (count_events is_activating (stdout w) +
     (if ((e0 <=? start) && (start <? e0 + Z.of_nat n))%Z then 1 else 0))%nat /\
  count_events is_deactivating out =
    (count_events is_deactivating (stdout w) +
     (if ((e0 <=? end_) && (end_ <? e0 + Z.of_nat n) && negb (end_ =? start))%Z
      then 1 else 0))%nat.
Proof.
  induction n as [|n IH]; intros e0 w start end_ Hw; cbn zeta.
  - replace (e0 + Z.of_nat 0) with e0 by lia. cbn [consecutive set_epochs for_each ret fst].
    split.
    + destruct (Z.leb_spec e0 start), (Z.ltb_spec start e0); cbn; lia.
    + destruct (Z.leb_spec e0 end_), (Z.ltb_spec end_ e0); cbn; lia.
  - cbn [consecutive]. rewrite set_epochs_cons.
    specialize (IH (e0 + 1) (fst (set_epoch e0 w)) start end_).
    rewrite set_epoch_window in IH. specialize (IH Hw). cbn zeta in IH.
    destruct IH as [IHa IHd]. rewrite IHa, IHd.
    rewrite set_epoch_unfold. cbn [fst stdout with_stdout].
    rewrite !count_events_app.
    destruct (prob_notice_quiet e0 (self w)) as [-> ->].
    destruct (boundary_notice_count e0 (self w) start end_ Hw) as [-> ->].
    replace (e0 + 1 + Z.of_nat n) with (e0 + Z.of_nat (S n)) by lia.
    split.
    + destruct (Z.eqb_spec e0 start), (Z.leb_spec e0 start),
        (Z.leb_spec (e0 + 1) start), (Z.ltb_spec start (e0 + Z.of_nat (S n)));
        cbn; lia.
    + destruct (Z.eqb_spec e0 start), (Z.eqb_spec e0 end_), (Z.eqb_spec end_ start),
        (Z.leb_spec e0 end_), (Z.leb_spec (e0 + 1) end_),
        (Z.ltb_spec end_ (e0 + Z.of_nat (S n))); cbn; lia.
Qed.

Lemma target_prob_settled e s p :
  let s1 := with_mixup_prob (next_prob e s) (with_epoch e s) in
  target_prob e s1 = Some p -> Qeq_bool (mixup_prob s1) p = true.
Proof.
  intros s1 H. subst s1. cbn [mixup_prob with_mixup_prob].
  assert (Hs : target_prob e s = Some p).
  { revert H. unfold target_prob.
    change (window (with_mixup_prob (next_prob e s) (with_epoch e s))) with (window s).
    cbn [gradual_mixup mixup_prob with_mixup_prob with_epoch warm_up_epochs
         original_mixup_prob].
    destruct (gradual_mixup s); [|discriminate]. cbn [andb].
    destruct (Qlt_bool 0 (mixup_prob s)) eqn:Hp; [intros H; destruct (Qlt_bool 0 _) in H; [exact H|discriminate]|].
    unfold next_prob, target_prob. rewrite Hp, andb_false_r, Hp. discriminate. }
  apply Qeq_bool_iff, next_prob_target, Hs.
Qed.

Lemma set_epoch_twice (e : Z) (w : world) :
  set_epoch e (fst (set_epoch e w)) =
  (with_stdout (stdout (fst (set_epoch e w)) ++ boundary_notice e (self w))
     (fst (set_epoch e w)), inr tt).
Proof.
  rewrite (set_epoch_unfold e (fst (set_epoch e w))).
  rewrite (set_epoch_unfold e w). cbn [fst self with_self with_stdout stdout].
  set (s1 := with_mixup_prob (next_prob e (self w)) (with_epoch e (self w))).
  pose proof (target_prob_settled e (self w)) as Hset. cbn zeta in Hset. fold s1 in Hset.
  assert (Hn : next_prob e s1 = next_prob e (self w)).
  { unfold next_prob at 1. destruct (target_prob e s1) as [p|]; [|reflexivity].
    rewrite (Hset p eq_refl). reflexivity. }
  assert (Hp : prob_notice e s1 = []).
  { unfold prob_notice. destruct (target_prob e s1) as [p|]; [|reflexivity].
    rewrite (Hset p eq_refl). reflexivity. }
  unfold with_stdout, with_self. cbn [self dicts tensors stdout draws ops].
  fold s1. rewrite Hn, Hp, app_nil_r. reflexivity.
Qed.

(** C3 (amended).  A second [set_epoch e] leaves the object, the
    dictionaries and the image batches as the first left them, and writes
    nothing about the probability.  When [mixup_epochs] has at least two
    elements it writes the notice of the boundary again: the activation
    notice when [e] is the first element, the deactivation notice when [e]
    is the last element and not the first; that notice is written by every
    call at a boundary epoch.  With fewer than two elements, and for any
    other [e], the second call writes nothing.  When [set_epoch] is called
    once for each of the epochs [e0, e0 + 1, ..., e0 + n - 1], the
    activation notice is written once if [start] is among them, and the
    deactivation notice once if [end] is among them and differs from
    [start]; otherwise they are not written. *)
Theorem set_epoch_repeated_call (w : world) (e : Z) :
  let w1 := fst (set_epoch e w) in
  let w2 := fst (set_epoch e w1) in
  (self w2 = self w1 /\ dicts w2 = dicts w1 /\ tensors w2 = tensors w1 /\
   stdout w2 = stdout w1 ++ boundary_notice e (self w) /\
   ((length (mixup_epochs (self w)) < 2)%nat -> stdout w2 = stdout w1) /\
   (forall start end_,
      (2 <= length (mixup_epochs (self w)))%nat ->
      head (mixup_epochs (self w)) = Some start ->
      last (mixup_epochs (self w)) = Some end_ ->
      stdout w2 =
        stdout w1 ++
        if e =? start then [Print (MsgActivating e)]
        else if e =? end_ then [Print (MsgDeactivating e)] else [])) /\
  forall (e0 : Z) (n : nat) (start end_ : Z),
    window (self w) = Some (start, end_) ->
    let out := stdout (fst (set_epochs (consecutive e0 n) w)) in
    count_events is_activating out =
      (count_events is_activating (stdout w) +
       (if ((e0 <=? start) && (start <? e0 + Z.of_nat n))%Z then 1 else 0))%nat /\
    count_events is_deactivating out =
      (count_events is_deactivating (stdout w) +
       (if ((e0 <=? end_) && (end_ <? e0 + Z.of_nat n) && negb (end_ =? start))%Z
        then 1 else 0))%nat.
Proof.
  cbn zeta. split.
  - rewrite set_epoch_twice. cbn [fst].
    do 4 (split; [reflexivity|]). cbn [stdout with_stdout].
    unfold boundary_notice, window. split.
    + intros Hlen.
      destruct (Nat.leb_spec 2 (length (mixup_epochs (self w)))); [lia|].
      apply app_nil_r.
    + intros start end_ Hlen Hh Hl.
      destruct (Nat.leb_spec 2 (length (mixup_epochs (self w)))); [|lia].
      rewrite Hh, Hl. reflexivity.
  - intros. apply set_epochs_count. assumption.
Qed.

(** * Rules for computations *)

Lemma bind_inr {A B} (m : M A) (k : A -> M B) w w' a :
  m w = (w', inr a) -> bind m k w = k a w'.
Proof. intros H. unfold bind. rewrite H. reflexivity. Qed.

Lemma bind_inl {A B} (m : M A) (k : A -> M B) w w' e :
  m w = (w', inl e) -> bind m k w = (w', inl e).
Proof. intros H. unfold bind. rewrite H. reflexivity. Qed.


Section Follows.
Context (R : world -> world -> Prop) `{!PreOrder R}.

Lemma follows_ret {A} (a : A) : follows R (ret a).
Proof. intros w. cbn. reflexivity. Qed.

Lemma follows_raise {A} (e : exn) : follows R (@raise A e).
Proof. intros w. cbn. reflexivity. Qed.

Lemma follows_bind {A B} (m : M A) (k : A -> M B) :
  follows R m -> (forall a, follows R (k a)) -> follows R (bind m k).
Proof.
  intros Hm Hk w. specialize (Hm w). unfold bind.
  destruct (m w) as [w' [e|a]]; cbn in *; [assumption|].
  etransitivity; [exact Hm|apply Hk].
Qed.

Lemma follows_for_each {A} (l : list A) (body : A -> M unit) :
  (forall x, follows R (body x)) -> follows R (for_each l body).
Proof.
  intros Hb. induction l as [|x l IH]; cbn [for_each].
  - apply follows_ret.
  - apply follows_bind; [apply Hb|intros _; exact IH].
Qed.
End Follows.

Lemma wp_ret {A} (a : A) (Q : A -> world -> Prop) w : Q a w -> wp (ret a) Q w.
Proof. intros H. exists a. split; [reflexivity|exact H]. Qed.

Lemma wp_bind {A B} (m : M A) (k : A -> M B) (Q : B -> world -> Prop) w :
  wp m (fun a w' => wp (k a) Q w') w -> wp (bind m k) Q w.
Proof.
  intros (a & Ha & b & Hb & HQ). exists b. unfold bind.
  destruct (m w) as [w' [e|a']]; cbn in *; [discriminate|].
  inversion Ha; subst. split; assumption.
Qed.

Lemma wp_weaken {A} (m : M A) (Q Q' : A -> world -> Prop) w :
  wp m Q w -> (forall a w', Q a w' -> Q' a w') -> wp m Q' w.
Proof. intros (a & Ha & HQ) H. exists a. split; [exact Ha|apply H, HQ]. Qed.

Lemma wp_follows {A} (R : world -> world -> Prop) (m : M A) (Q : A -> world -> Prop) w :
  follows R m -> wp m Q w -> wp m (fun a w' => Q a w' /\ R w w') w.
Proof. intros HR (a & Ha & HQ). exists a. repeat split; [exact Ha|exact HQ|apply HR]. Qed.


(** A loop whose body keeps an invariant returns and keeps it. *)
Lemma wp_for_each {A} (I : world -> Prop) (l : list A) (body : A -> M unit) :
  (forall x w, x ∈ l -> I w -> wp (body x) (fun _ => I) w) ->
  forall w, I w -> wp (for_each l body) (fun _ => I) w.
Proof.
  induction l as [|x l IH]; intros Hb w Hw; cbn [for_each].
  - apply wp_ret, Hw.
  - apply wp_bind. eapply wp_weaken; [apply Hb; [left|exact Hw]|].
    cbn beta. intros _ w' Hw'. apply IH; [|exact Hw'].
    intros y w'' Hy. apply Hb. right. exact Hy.
Qed.

Lemma partial_ret {A} (P : world -> Prop) (a : A) (Q : A -> world -> Prop) :
  (forall w, P w -> Q a w) -> partial P (ret a) Q.
Proof. intros H w a' Hw Ha. cbn in *. inversion Ha; subst. apply H, Hw. Qed.

Lemma partial_raise {A} (P : world -> Prop) (e : exn) (Q : A -> world -> Prop) :
  partial P (raise e) Q.
Proof. intros w a _ Ha. discriminate Ha. Qed.

Lemma partial_bind {A B} (P : world -> Prop) (m : M A) (R : A -> world -> Prop)
    (k : A -> M B) (Q : B -> world -> Prop) :
  partial P m R -> (forall a, partial (R a) (k a) Q) -> partial P (bind m k) Q.
Proof.
  intros Hm Hk w b Hw. specialize (Hm w). unfold bind.
  destruct (m w) as [w' [e|a]]; cbn in *; [discriminate|].
  intros Hb. eapply Hk; [apply Hm; [exact Hw|reflexivity]|exact Hb].
Qed.

Lemma partial_weaken {A} (P P' : world -> Prop) (m : M A) (Q Q' : A -> world -> Prop) :
  partial P m Q -> (forall w, P' w -> P w) -> (forall a w, Q a w -> Q' a w) ->
  partial P' m Q'.
Proof. intros H HP HQ w a Hw Ha. apply HQ, H; auto. Qed.

(** What [follows] gives, as a postcondition. *)
Lemma partial_follows {A} (R : world -> world -> Prop) `{!PreOrder R} (m : M A) w0 :
  follows R m -> partial (R w0) m (fun _ w' => R w0 w').
Proof. intros H w a Hw _. etransitivity; [exact Hw|apply H]. Qed.

Lemma partial_and {A} (P : world -> Prop) (m : M A) (Q Q' : A -> world -> Prop) :
  partial P m Q -> partial P m Q' -> partial P m (fun a w => Q a w /\ Q' a w).
Proof. intros H H' w a Hw Ha. split; [apply H|apply H']; assumption. Qed.

Lemma fails_raise {A} (P : world -> Prop) (e : exn) : fails P (@raise A e).
Proof. intros w _. exists e. reflexivity. Qed.

Lemma fails_bind {A B} (P : world -> Prop) (m : M A) (R : A -> world -> Prop)
    (k : A -> M B) :
  partial P m R -> (forall a, fails (R a) (k a)) -> fails P (bind m k).
Proof.
  intros Hm Hk w Hw. specialize (Hm w). unfold bind.
  destruct (m w) as [w' [e|a]]; cbn in *; [eauto|].
  apply Hk, Hm; [exact Hw|reflexivity].
Qed.

Lemma fails_bind_l {A B} (P : world -> Prop) (m : M A) (k : A -> M B) :
  fails P m -> fails P (bind m k).
Proof.
  intros Hm w Hw. destruct (Hm w Hw) as [e He]. exists e. unfold bind.
  destruct (m w) as [w' [e'|a]]; cbn in *; [congruence|discriminate].
Qed.

(** [evolves] and the two frames are preorders. *)
#[export] Instance evolves_preorder : PreOrder evolves.
Proof.
  split.
  - intros w. split; eauto. intros r key b _ H. exists []. rewrite app_nil_r. exact H.
  - intros w1 w2 w3 H12 H23. split.
    + intros r key H. eapply keys_kept; [exact H23|]. eapply keys_kept; eauto.
    + intros r key b Hk H.
      destruct (annotations_grow _ _ H12 r key b Hk H) as [b1 H1].
      destruct (annotations_grow _ _ H23 r key _ Hk H1) as [b2 H2].
      exists (b1 ++ b2). rewrite app_assoc. exact H2.
    + rewrite (config_kept _ _ H23). apply (config_kept _ _ H12).
    + rewrite (oom_notices_kept _ _ H23). apply (oom_notices_kept _ _ H12).
Qed.

#[export] Instance tensors_kept_preorder : PreOrder tensors_kept.
Proof.
  split; [intros w; reflexivity|].
  intros w1 w2 w3 H12 H23. unfold tensors_kept in *. congruence.
Qed.

#[export] Instance data_kept_preorder : PreOrder data_kept.
Proof.
  split; [intros w; split; reflexivity|].
  intros w1 w2 w3 [? ?] [? ?]. unfold data_kept. split; congruence.
Qed.

(** A step that leaves the object, the dictionaries and the output alone. *)
Lemma evolves_frame (w w' : world) :
  self w' = self w -> dicts w' = dicts w -> stdout w' = stdout w -> evolves w w'.
Proof.
  intros Hs Hd Ho. split; unfold entry; rewrite ?Hs, ?Hd, ?Ho; eauto.
  intros r key b _ H. exists []. rewrite app_nil_r. exact H.
Qed.

Lemma evolves_emit (w : world) (ev : event) :
  is_oom_notice ev = false -> evolves w (with_stdout (stdout w ++ [ev]) w).
Proof.
  intros H. split; cbn; eauto.
  - intros r key b _ Hb. exists []. rewrite app_nil_r. exact Hb.
  - rewrite count_events_app. cbn. rewrite H. lia.
Qed.

(** * What the parts of a call leave alone *)

Lemma entry_setitem (w : world) (r r' : loc) (key key' : string) (v : tensor) :
  entry (with_dicts (<[r := <[key := v]> (default ∅ (dicts w !! r))]> (dicts w)) w) r' key' =
  if decide (r' = r /\ key' = key) then Some v else entry w r' key'.
Proof.
  unfold entry. cbn [dicts with_dicts].
  destruct (decide (r' = r)) as [->|Hr].
  - rewrite lookup_insert_eq. cbn.
    destruct (decide (key' = key)) as [->|Hk].
    + rewrite lookup_insert_eq. rewrite decide_True by auto. reflexivity.
    + rewrite lookup_insert_ne by congruence.
      rewrite decide_False by (intros [_ ?]; congruence).
      destruct (dicts w !! r); reflexivity.
  - rewrite lookup_insert_ne by congruence.
    rewrite decide_False by (intros [? _]; congruence). reflexivity.
Qed.


Lemma evolves_setitem (w : world) (r : loc) (key : string) (v : tensor) :
  key ∉ annotation_keys ->
  evolves w (with_dicts (<[r := <[key := v]> (default ∅ (dicts w !! r))]> (dicts w)) w).
Proof.
  intros Hk. split; try reflexivity.
  - intros r' key' H. rewrite entry_setitem. case_decide; eauto.
  - intros r' key' b Hin H. exists []. rewrite app_nil_r, entry_setitem.
    case_decide as Hd; [|exact H]. destruct Hd as [_ ->]. contradiction.
Qed.

Lemma evolves_extend (w : world) (r : loc) (key : string) (a b : tensor) :
  entry w r key = Some a ->
  evolves w (with_dicts (<[r := <[key := a ++ b]> (default ∅ (dicts w !! r))]> (dicts w)) w).
Proof.
  intros Ha. split; try reflexivity.
  - intros r' key' H. rewrite entry_setitem. case_decide; eauto.
  - intros r' key' c Hin H. rewrite entry_setitem. case_decide as Hd.
    + destruct Hd as [-> ->]. exists b. rewrite Ha in H. inversion H. reflexivity.
    + exists []. rewrite app_nil_r. exact H.
Qed.

Lemma evolves_flag (w : world) (b : bool) :
  evolves w (with_self (with_print_info_flag b) w).
Proof.
  split; try reflexivity; eauto.
  intros r key c _ H. exists []. rewrite app_nil_r. exact H.
Qed.

Lemma evolves_ops (w : world) (n : nat) : evolves w (with_ops n w).
Proof. apply evolves_frame; reflexivity. Qed.

Section Frames.
Variable env : environment.

Lemma extend_entry_evolves ti si key : follows evolves (extend_entry env ti si key).
Proof.
  intros w. unfold extend_entry, bind, dict_getitem, torch_cat, tensor_op,
    dict_setitem, ret.
  destruct (dicts w !! ti ≫= _) as [a|] eqn:Ha; cbn; [|reflexivity].
  destruct (dicts w !! si ≫= _) as [b|] eqn:Hb; cbn; [|reflexivity].
  destruct (faults env (ops w)); cbn; [apply evolves_ops|].
  etransitivity; [apply (evolves_ops w (S (ops w)))|].
  rewrite app_nil_r. apply (evolves_extend (with_ops (S (ops w)) w)). exact Ha.
Qed.
End Frames.

(** The leaves of a computation: one state-passing step each. *)
Ltac leaf_step :=
  let w := fresh "w" in
  intros w;
  unfold get_self, modify_self, print, gc_collect, cuda_empty_cache, emit,
    dict_getitem, dict_contains, dict_setitem, tensor_op, random_random,
    tensor_load, tensor_store, tensor_new, getitem_nth, ret, raise;
  repeat match goal with
         | |- context [match ?x with _ => _ end] => destruct x
         end;
  cbn [fst snd].

Ltac evolves_leaf :=
  leaf_step;
  first [ reflexivity
        | apply evolves_frame; reflexivity
        | apply evolves_emit; reflexivity
        | apply evolves_flag
        | apply evolves_setitem, (proj1 (bool_decide_eq_false _)); reflexivity ].

Ltac kept_leaf :=
  leaf_step; first [ reflexivity | split; reflexivity ].

(** Walks through a computation along its binds, loops and branches. *)
Ltac follows_from known leaf :=
  repeat first
    [ known
    | apply follows_ret; typeclasses eauto
    | apply follows_raise; typeclasses eauto
    | apply follows_bind; [typeclasses eauto| |intros ?]
    | apply follows_for_each; [typeclasses eauto|intros ?]
    | match goal with
      | |- follows _ (if ?b then _ else _) => destruct b
      | |- follows _ (match ?x with _ => _ end) => destruct x
      end
    | progress cbn zeta
    | leaf ].

Ltac follows_with leaf := follows_from ltac:(apply extend_entry_evolves) leaf.

Section Frames2.
Variable env : environment.

Lemma merge_targets_evolves beta targets :
  follows evolves (merge_targets env beta targets).
Proof.
  unfold merge_targets, merge_target, torch_tensor, getitem_nth.
  follows_with evolves_leaf.
Qed.

Lemma merge_targets_tensors beta targets :
  follows tensors_kept (merge_targets env beta targets).
Proof.
  unfold merge_targets, merge_target, extend_entry, torch_tensor, torch_cat.
  follows_with kept_leaf.
Qed.

Lemma visualise_evolves images targets i :
  follows evolves (visualise env images targets i).
Proof. unfold visualise. follows_with evolves_leaf. Qed.

Lemma visualise_data images targets i :
  follows data_kept (visualise env images targets i).
Proof. unfold visualise. follows_with kept_leaf. Qed.

Lemma blend_images_evolves images beta :
  follows evolves (blend_images env images beta).
Proof.
  unfold blend_images, tensor_roll, tensor_mul_, tensor_add_.
  follows_with evolves_leaf.
Qed.

Lemma closing_notice_evolves : follows evolves closing_notice.
Proof.
  unfold closing_notice, getitem_last. follows_with evolves_leaf.
Qed.


Lemma mixup_condition_evolves : follows evolves (mixup_condition env).
Proof.
  unfold mixup_condition, getitem_first, getitem_last. follows_with evolves_leaf.
Qed.


Lemma apply_mixup_evolves images targets :
  follows evolves (apply_mixup env images targets).
Proof.
  unfold apply_mixup, random_uniform.
  follows_from ltac:(first [ apply closing_notice_evolves
                           | apply mixup_condition_evolves
                           | apply blend_images_evolves
                           | apply merge_targets_evolves
                           | apply visualise_evolves ]) evolves_leaf.
Qed.

Lemma release_before_transition_evolves :
  follows evolves (release_before_transition env).
Proof.
  unfold release_before_transition, getitem_first. follows_with evolves_leaf.
Qed.

Lemma stack_images_evolves imgs : follows evolves (stack_images env imgs).
Proof. unfold stack_images. follows_with evolves_leaf. Qed.

Lemma multi_scale_resize_evolves images targets :
  follows evolves (multi_scale_resize env images targets).
Proof.
  unfold multi_scale_resize, resize_masks, F_interpolate, random_choice,
    getitem_first.
  follows_with evolves_leaf.
Qed.

Lemma call_body_evolves items : follows evolves (call_body env items).
Proof.
  unfold call_body.
  follows_from ltac:(first [ apply release_before_transition_evolves
                           | apply stack_images_evolves
                           | apply apply_mixup_evolves
                           | apply multi_scale_resize_evolves ]) evolves_leaf.
Qed.
End Frames2.

(** * Rolling a list, rounding a ratio *)

Lemma length_roll1 {A} (l : list A) : length (roll1 l) = length l.
Proof.
  unfold roll1. rewrite length_app, length_drop, length_take. lia.
Qed.

Lemma roll1_lookup {A} (l : list A) (i : nat) :
  (i < length l)%nat ->
  roll1 l !! i = l !! ((i + length l - 1) mod length l)%nat.
Proof.
  intros Hi. unfold roll1. destruct i as [|i].
  - rewrite lookup_app_l by (rewrite length_drop; lia).
    rewrite lookup_drop. f_equal.
    rewrite Nat.mod_small by lia. lia.
  - rewrite lookup_app_r by (rewrite length_drop; lia).
    rewrite length_drop, lookup_take_lt by lia.
    f_equal.
    replace (S i + length l - 1)%nat with (i + 1 * length l)%nat by lia.
    rewrite Nat.Div0.mod_add, Nat.mod_small by lia. lia.
Qed.

Lemma roll1_elem {A} (l : list A) (x : A) : x ∈ roll1 l -> x ∈ l.
Proof.
  unfold roll1. intros H. apply elem_of_app in H. destruct H as [H|H].
  - rewrite <- (take_drop (length l - 1) l). apply elem_of_app. right. exact H.
  - rewrite <- (take_drop (length l - 1) l). apply elem_of_app. left. exact H.
Qed.


Lemma round_half_even_between (y : Q) (a b : Z) :
  (inject_Z a <= y)%Q -> (y <= inject_Z b)%Q ->
  a <= round_half_even y <= b.
Proof.
  intros Ha Hb. unfold round_half_even.
  assert (Hfa : a <= Qfloor y).
  { rewrite <- (Qfloor_Z a). apply Qfloor_resp_le, Ha. }
  assert (Hfb : Qfloor y <= b).
  { rewrite <- (Qfloor_Z b). apply Qfloor_resp_le, Hb. }
  assert (Hup : (inject_Z (Qfloor y) < y)%Q -> Qfloor y + 1 <= b).
  { intros Hlt. assert (H : (inject_Z (Qfloor y) < inject_Z b)%Q)
      by (eapply Qlt_le_trans; eauto).
    rewrite <- Zlt_Qlt in H. lia. }
  destruct (Qcompare (y - inject_Z (Qfloor y)) (1 # 2)) eqn:Hc.
  - apply Qeq_alt in Hc. destruct (Z.even (Qfloor y)); [lia|].
    split; [lia|]. apply Hup. lra.
  - lia.
  - apply Qgt_alt in Hc. split; [lia|]. apply Hup. lra.
Qed.

(** [round_half_even] is within one half of its argument. *)
Lemma round_half_even_near (y : Q) :
  (Qabs (inject_Z (round_half_even y) - y) <= 1 # 2)%Q.
Proof.
  unfold round_half_even.
  pose proof (Qfloor_le y) as Hlo. pose proof (Qlt_floor y) as Hhi.
  set (f := Qfloor y) in *.
  rewrite inject_Z_plus in Hhi. change (inject_Z 1) with 1%Q in Hhi.
  apply Qabs_Qle_condition.
  destruct (Qcompare (y - inject_Z f) (1 # 2)) eqn:Hc.
  - apply Qeq_alt in Hc.
    destruct (Z.even f); [|rewrite inject_Z_plus; change (inject_Z 1) with 1%Q];
      split; lra.
  - apply Qlt_alt in Hc. split; lra.
  - apply Qgt_alt in Hc. rewrite inject_Z_plus. change (inject_Z 1) with 1%Q.
    split; lra.
Qed.

(** * [apply_mixup] *)

Ltac plain_types := unfold loc, tensor, row in *.

Lemma annotated_evolves (targets : list loc) (w w' : world) :
  annotated targets w -> evolves w w' -> annotated targets w'.
Proof.
  intros Ha He r key Hr Hk. eapply keys_kept; [exact He|]. apply Ha; assumption.
Qed.

Lemma annotation_key_boxes : "boxes" ∈ annotation_keys.
Proof. unfold annotation_keys. set_solver. Qed.
Lemma annotation_key_labels : "labels" ∈ annotation_keys.
Proof. unfold annotation_keys. set_solver. Qed.
Lemma annotation_key_area : "area" ∈ annotation_keys.
Proof. unfold annotation_keys. set_solver. Qed.

Section Mixup.
Variable env : environment.

Lemma closing_notice_run (w : world) (end_ : Z) :
  last (mixup_epochs (self w)) = Some end_ ->
  exists b out,
    closing_notice w =
    (with_self (with_print_info_flag b) (with_stdout (stdout w ++ out) w), inr tt) /\
    (b = false \/ b = print_info_flag (self w)).
Proof.
  intros Hl. unfold closing_notice, bind, get_self, getitem_last. rewrite Hl.
  cbn [ret]. destruct ((epoch (self w) =? end_) && print_info_flag (self w)).
  - exists false, [Print (MsgMixupClosed (epoch (self w)))]. split; [reflexivity|auto].
  - exists (print_info_flag (self w)), []. split; [|auto].
    unfold ret. f_equal. destruct w as [s d t o dr op]. destruct s.
    cbn. rewrite app_nil_r. reflexivity.
Qed.

Lemma mixup_condition_run (w : world) (start end_ : Z) :
  head (mixup_epochs (self w)) = Some start ->
  last (mixup_epochs (self w)) = Some end_ ->
  mixup_condition env w =
  (with_draws (S (draws w)) w,
   inr (Qlt_bool (random_floats env (draws w)) (mixup_prob (self w)) &&
        ((start <=? epoch (self w)) && (epoch (self w) <? end_)))).
Proof.
  intros Hh Hl. unfold mixup_condition, bind, random_random, get_self,
    getitem_first, getitem_last. cbn [self with_draws]. rewrite Hh, Hl.
  destruct (Qlt_bool _ _); cbn; [|reflexivity].
  destruct (start <=? epoch (self w)); reflexivity.
Qed.

(** When the test fails, [apply_mixup] hands back what it was given. *)
Lemma apply_mixup_skipped (w : world) (images : loc) (targets : list loc)
    (start end_ : Z) :
  head (mixup_epochs (self w)) = Some start ->
  last (mixup_epochs (self w)) = Some end_ ->
  epoch (self w) < start \/ end_ <= epoch (self w) \/
    Qlt_bool (random_floats env (draws w)) (mixup_prob (self w)) = false ->
  exists b out,
    apply_mixup env images targets w =
    (with_draws (S (draws w))
       (with_self (with_print_info_flag b) (with_stdout (stdout w ++ out) w)),
     inr (images, targets)).
Proof.
  intros Hh Hl Hc.
  destruct (closing_notice_run w end_ Hl) as (b & out & Hrun & _).
  exists b, out. unfold apply_mixup.
  rewrite (bind_inr _ _ _ _ _ Hrun).
  set (w1 := with_self _ _).
  rewrite (bind_inr _ _ _ _ _ (mixup_condition_run w1 start end_ Hh Hl)).
  change (mixup_prob (self w1)) with (mixup_prob (self w)).
  change (epoch (self w1)) with (epoch (self w)).
  change (draws w1) with (draws w).
  assert (Hf : Qlt_bool (random_floats env (draws w)) (mixup_prob (self w)) &&
               ((start <=? epoch (self w)) && (epoch (self w) <? end_)) = false).
  { destruct Hc as [H|[H|H]].
    - rewrite (proj2 (Z.leb_gt _ _)) by lia. apply andb_false_r.
    - rewrite (proj2 (Z.ltb_ge _ _)) by lia. rewrite !andb_false_r. reflexivity.
    - rewrite H. reflexivity. }
  rewrite Hf. reflexivity.
Qed.

Lemma release_before_transition_run (w : world) :
  exists out, release_before_transition env w =
              (with_stdout (stdout w ++ out) w, inr tt).
Proof.
  assert (Hid : w = with_stdout (stdout w ++ []) w).
  { destruct w. unfold with_stdout. cbn. rewrite app_nil_r. reflexivity. }
  unfold release_before_transition, bind, get_self, getitem_first, gc_collect,
    cuda_empty_cache, emit, ret.
  destruct (mixup_epochs (self w)) as [|a [|b l]]; cbn -[Z.eqb Z.add].
  - exists []. f_equal. exact Hid.
  - exists []. f_equal. exact Hid.
  - destruct (epoch (self w) + 1 =? a); [|exists []; f_equal; exact Hid].
    destruct (cuda_is_available env).
    + exists [GcCollect; CudaEmptyCache]. cbn. rewrite <- app_assoc. reflexivity.
    + exists [GcCollect]. reflexivity.
Qed.

Lemma stack_images_run (imgs : list row) (w : world) :
  stackable imgs = true ->
  faults env (ops w) = None ->
  stack_images env imgs w =
  (with_tensors (tensors w ++ [imgs]) (with_ops (S (ops w)) w),
   inr (length (tensors w))).
Proof.
  intros Hst Hf. unfold stack_images. destruct imgs as [|x rest]; [discriminate|].
  cbn [stackable] in Hst. rewrite Hst.
  unfold bind, tensor_op, tensor_new. rewrite Hf. reflexivity.
Qed.

(** The steps a computation is made of. *)
Lemma wp_get_self (Q : collate_fn -> world -> Prop) w :
  Q (self w) w -> wp get_self Q w.
Proof. intros H. exists (self w). auto. Qed.

Lemma wp_emit ev (Q : unit -> world -> Prop) w :
  Q tt (with_stdout (stdout w ++ [ev]) w) -> wp (emit ev) Q w.
Proof. intros H. exists tt. auto. Qed.

Lemma wp_tensor_op (Q : unit -> world -> Prop) w :
  faults env (ops w) = None -> Q tt (with_ops (S (ops w)) w) ->
  wp (tensor_op env) Q w.
Proof. intros Hf H. exists tt. unfold tensor_op. cbn. rewrite Hf. auto. Qed.

Lemma wp_dict_getitem r key v (Q : tensor -> world -> Prop) w :
  entry w r key = Some v -> Q v w -> wp (dict_getitem r key) Q w.
Proof.
  intros He H. exists v. unfold dict_getitem. fold (entry w r key).
  rewrite He. auto.
Qed.

Lemma wp_dict_setitem r key v (Q : unit -> world -> Prop) w :
  Q tt (with_dicts (<[r := <[key := v]> (default ∅ (dicts w !! r))]> (dicts w)) w) ->
  wp (dict_setitem r key v) Q w.
Proof. intros H. exists tt. auto. Qed.

Lemma wp_getitem_nth {A} (l : list A) i x (Q : A -> world -> Prop) w :
  l !! i = Some x -> Q x w -> wp (getitem_nth l i) Q w.
Proof. intros Hl H. exists x. unfold getitem_nth. rewrite Hl. auto. Qed.

Lemma wp_tensor_load l (Q : tensor -> world -> Prop) w :
  Q (default [] (tensors w !! l)) w -> wp (tensor_load l) Q w.
Proof. intros H. eexists. split; [reflexivity|exact H]. Qed.

Lemma wp_get_tensor l (Q : list (list Q) -> world -> Prop) w :
  Q (default [] (tensors w !! l)) w ->
  wp (fun w => (w, inr (default [] (tensors w !! l)))) Q w.
Proof. intros H. eexists. split; [reflexivity|exact H]. Qed.

Lemma wp_tensor_store l t (Q : unit -> world -> Prop) w :
  Q tt (with_tensors (<[l := t]> (tensors w)) w) -> wp (tensor_store l t) Q w.
Proof. intros H. exists tt. auto. Qed.

Lemma wp_tensor_new t (Q : loc -> world -> Prop) w :
  Q (length (tensors w)) (with_tensors (tensors w ++ [t]) w) ->
  wp (tensor_new t) Q w.
Proof. intros H. eexists. split; [reflexivity|exact H]. Qed.

Hypothesis Hnf : no_faults env.

(** The blend: the batch at [images] becomes [blend beta t], in place;
    the rolled copy is a new tensor; nothing else moves. *)
Lemma blend_images_wp (images : loc) (beta : Q) (t : tensor) (w : world) :
  tensors w !! images = Some t ->
  wp (blend_images env images beta)
     (fun _ w' =>
        self w' = self w /\ dicts w' = dicts w /\ draws w' = draws w /\
        tensors w' !! images = Some (blend beta t) /\
        length (tensors w') = S (length (tensors w)) /\
        forall l, l <> images -> (l < length (tensors w))%nat ->
                  tensors w' !! l = tensors w !! l) w.
Proof.
  intros Ht.
  assert (Hlt : (images < length (tensors w))%nat) by (eapply lookup_lt_Some; eauto).
  plain_types.
  unfold blend_images, tensor_roll, tensor_mul_, tensor_add_, tensor_load.
  apply wp_bind, wp_bind, wp_tensor_op; [apply Hnf|].
  apply wp_bind; eapply wp_get_tensor; apply wp_tensor_new.
  cbn [tensors with_ops with_tensors]; plain_types.
  rewrite Ht. cbn [default].
  apply wp_bind, wp_bind, wp_tensor_op; [apply Hnf|].
  apply wp_bind; eapply wp_get_tensor; apply wp_bind, wp_tensor_store, wp_ret.
  cbn [tensors with_ops with_tensors]; plain_types.
  rewrite lookup_app_l, Ht by exact Hlt. cbn [default].
  apply wp_bind, wp_bind, wp_tensor_op; [apply Hnf|].
  apply wp_bind; eapply wp_get_tensor; apply wp_bind, wp_tensor_store, wp_ret.
  cbn [tensors with_ops with_tensors]; plain_types.
  rewrite list_lookup_insert_ne by lia.
  rewrite lookup_app_r, Nat.sub_diag by lia. cbn [lookup list_lookup default].
  apply wp_bind, wp_bind, wp_tensor_op; [apply Hnf|].
  apply wp_bind; eapply wp_get_tensor; apply wp_bind; eapply wp_get_tensor.
  apply wp_bind, wp_tensor_store, wp_ret.
  cbn [tensors with_ops with_tensors]; plain_types.
  rewrite list_lookup_insert_ne by lia.
  rewrite list_lookup_insert_eq by (rewrite length_app; cbn; lia).
  rewrite list_lookup_insert_eq by (rewrite length_insert, length_app; cbn; lia).
  cbn [default].
  apply wp_emit. cbn [self dicts draws tensors with_stdout with_tensors with_ops].
  repeat split.
  - rewrite list_lookup_insert_eq; [reflexivity|].
    rewrite !length_insert, length_app. cbn. lia.
  - rewrite !length_insert, length_app. cbn. lia.
  - intros l Hl Hl'.
    rewrite list_lookup_insert_ne by congruence.
    rewrite list_lookup_insert_ne by lia.
    rewrite list_lookup_insert_ne by congruence.
    apply lookup_app_l. exact Hl'.
Qed.

Lemma extend_entry_wp ti si key (w : world) :
  is_Some (entry w ti key) -> is_Some (entry w si key) ->
  wp (extend_entry env ti si key) (fun _ w' => evolves w w') w.
Proof.
  intros [a Ha] [b Hb].
  eapply wp_weaken.
  - apply (wp_follows evolves _ (fun _ _ => True)); [apply extend_entry_evolves|].
    unfold extend_entry, torch_cat.
    apply wp_bind. eapply wp_dict_getitem; [exact Ha|].
    apply wp_bind. eapply wp_dict_getitem; [exact Hb|].
    apply wp_bind, wp_bind, wp_tensor_op; [apply Hnf|].
    apply wp_ret, wp_dict_setitem. exact I.
  - cbn beta. intros _ w' [_ H]. exact H.
Qed.

Lemma merge_target_wp beta (targets : list loc) (i : nat) (ti : loc) (w : world) :
  targets !! i = Some ti ->
  annotated targets w ->
  wp (merge_target env beta targets (roll1 targets) i)
     (fun _ w' => evolves w w' /\ is_Some (entry w' ti "mixup")) w.
Proof.
  intros Hti Han.
  assert (Hi : (i < length targets)%nat) by (eapply lookup_lt_Some; eauto).
  destruct (lookup_lt_is_Some_2 (roll1 targets) i) as [si Hsi];
    [rewrite length_roll1; exact Hi|].
  assert (Hti_in : ti ∈ targets) by (eapply list_elem_of_lookup_2; eauto).
  assert (Hsi_in : si ∈ targets)
    by (apply roll1_elem; eapply list_elem_of_lookup_2; eauto).
  unfold merge_target, torch_tensor.
  apply wp_bind. eapply wp_getitem_nth; [exact Hti|].
  apply wp_bind. eapply wp_getitem_nth; [exact Hsi|].
  apply wp_bind. eapply wp_weaken;
    [apply extend_entry_wp; apply Han; auto using annotation_key_boxes|].
  cbn beta. intros _ w1 H1. pose proof (annotated_evolves _ _ _ Han H1) as Han1.
  apply wp_bind. eapply wp_weaken;
    [apply extend_entry_wp; apply Han1; auto using annotation_key_labels|].
  cbn beta. intros _ w2 H2. pose proof (annotated_evolves _ _ _ Han1 H2) as Han2.
  apply wp_bind. eapply wp_weaken;
    [apply extend_entry_wp; apply Han2; auto using annotation_key_area|].
  cbn beta. intros _ w3 H3. pose proof (annotated_evolves _ _ _ Han2 H3) as Han3.
  destruct (Han3 ti "boxes" Hti_in annotation_key_boxes) as [a Ha].
  destruct (Han3 si "boxes" Hsi_in annotation_key_boxes) as [b Hb].
  apply wp_bind. eapply wp_dict_getitem; [exact Ha|].
  apply wp_bind. eapply wp_dict_getitem; [exact Hb|].
  apply wp_bind, wp_bind, wp_tensor_op; [apply Hnf|].
  apply wp_ret, wp_dict_setitem. split.
  - etransitivity; [exact H1|]. etransitivity; [exact H2|].
    etransitivity; [exact H3|]. etransitivity; [apply evolves_ops|].
    apply (evolves_setitem (with_ops (S (ops w3)) w3)).
    apply (proj1 (bool_decide_eq_false _)). reflexivity.
  - rewrite entry_setitem, decide_True by auto. eauto.
Qed.

Lemma merge_loop_wp beta (targets : list loc) (idx : list nat) :
  forall w : world,
  (forall i, i ∈ idx -> (i < length targets)%nat) ->
  annotated targets w ->
  wp (for_each idx (merge_target env beta targets (roll1 targets)))
     (fun _ w' =>
        evolves w w' /\
        forall i r, i ∈ idx -> targets !! i = Some r -> is_Some (entry w' r "mixup")) w.
Proof.
  induction idx as [|i idx IH]; intros w Hidx Han; cbn [for_each].
  - apply wp_ret. split; [reflexivity|]. intros i r Hi. inversion Hi.
  - destruct (lookup_lt_is_Some_2 targets i) as [ti Hti]; [apply Hidx; left|].
    apply wp_bind. eapply wp_weaken; [apply (merge_target_wp _ _ _ ti); eauto|].
    cbn beta. intros _ w1 [H1 Hm].
    eapply wp_weaken.
    + apply IH; [intros j Hj; apply Hidx; right; exact Hj|].
      eapply annotated_evolves; eauto.
    + cbn beta. intros _ w2 [H2 Hrest]. split; [etransitivity; eauto|].
      intros j r Hj Hr. apply elem_of_cons in Hj. destruct Hj as [->|Hj].
      * rewrite Hti in Hr. inversion Hr; subst.
        eapply keys_kept; [exact H2|exact Hm].
      * eapply Hrest; eauto.
Qed.

(** The merging loop returns; afterwards every target has a mixup entry,
    and every annotation sequence has grown at its end. *)
Lemma merge_targets_wp beta (targets : list loc) (w : world) :
  annotated targets w ->
  wp (merge_targets env beta targets)
     (fun _ w' =>
        evolves w w' /\ tensors w' = tensors w /\
        forall r, r ∈ targets -> is_Some (entry w' r "mixup")) w.
Proof.
  intros Han.
  eapply wp_weaken.
  - apply (wp_follows tensors_kept _
             (fun _ w' => evolves w w' /\
                forall r, r ∈ targets -> is_Some (entry w' r "mixup")));
      [apply merge_targets_tensors|].
    unfold merge_targets. cbn zeta.
    apply wp_bind. eapply wp_weaken.
    + apply merge_loop_wp; [|exact Han].
      intros i Hi. apply elem_of_seq in Hi. lia.
    + cbn beta. intros _ w1 [He Hm]. apply wp_emit. split.
      * etransitivity; [exact He|]. apply evolves_emit. reflexivity.
      * intros r Hr. apply list_elem_of_lookup_1 in Hr. destruct Hr as [i Hi].
        apply (Hm i r); [|exact Hi].
        apply elem_of_seq. apply lookup_lt_Some in Hi. lia.
  - cbn beta. intros _ w' [[He Hm] Ht]. auto.
Qed.

Lemma wp_of_run {A} (m : M A) (Q : A -> world -> Prop) w w' a :
  m w = (w', inr a) -> Q a w' -> wp m Q w.
Proof. intros Hm HQ. exists a. rewrite Hm. auto. Qed.

Lemma length_blend beta (t : tensor) : length (blend beta t) = length t.
Proof.
  unfold blend, scaled. rewrite length_zip_with, !length_map, length_roll1.
  apply Nat.min_id.
Qed.

Lemma visualise_wp images (targets : list loc) (i : nat) (w : world) :
  is_Some (tensors w !! images ≫= (fun t => t !! i)) ->
  is_Some (targets !! i ≫= (fun ti => entry w ti "boxes")) ->
  wp (visualise env images targets i) (fun _ w' => data_kept w w' /\ evolves w w') w.
Proof.
  intros [x Hx] [b Hb].
  destruct (tensors w !! images) as [t|] eqn:Ht; [|discriminate]. cbn in Hx.
  destruct (targets !! i) as [ti|] eqn:Hti; [|discriminate]. cbn in Hb.
  eapply wp_weaken.
  - apply (wp_follows evolves _ (fun _ w' => data_kept w w'));
      [apply visualise_evolves|].
    eapply wp_weaken.
    + apply (wp_follows data_kept _ (fun _ _ => True)); [apply visualise_data|].
      unfold visualise.
      apply wp_bind, wp_tensor_load. plain_types. rewrite Ht. cbn [default].
      apply wp_bind. eapply wp_getitem_nth; [exact Hx|].
      apply wp_bind, wp_tensor_op; [apply Hnf|].
      apply wp_bind. eapply wp_getitem_nth; [exact Hti|].
      apply wp_bind. eapply wp_dict_getitem; [exact Hb|].
      apply wp_bind, wp_emit, wp_bind, wp_get_self.
      apply wp_bind, wp_tensor_op; [apply Hnf|].
      apply wp_bind, wp_emit, wp_emit. exact I.
    + cbn beta. intros _ w' [_ H]. exact H.
  - cbn beta. auto.
Qed.

Lemma visualise_loop_wp images (targets : list loc) (idx : list nat) (t : tensor)
    (w : world) :
  tensors w !! images = Some t ->
  annotated targets w ->
  (forall i, i ∈ idx -> (i < length t)%nat /\ (i < length targets)%nat) ->
  wp (for_each idx (visualise env images targets))
     (fun _ w' => data_kept w w' /\ evolves w w') w.
Proof.
  intros Ht Han Hidx.
  apply (wp_for_each (fun w' => data_kept w w' /\ evolves w w')).
  - intros i w1 Hi [[Hd Htn] He]. destruct (Hidx i Hi) as [Hit Hin].
    eapply wp_weaken.
    + apply visualise_wp.
      * plain_types. rewrite Htn, Ht. cbn. apply lookup_lt_is_Some_2. exact Hit.
      * destruct (lookup_lt_is_Some_2 targets i Hin) as [ti Hti].
        rewrite Hti. cbn. eapply keys_kept; [exact He|].
        apply Han; [eapply list_elem_of_lookup_2; eauto|apply annotation_key_boxes].
    + cbn beta. intros _ w2 [Hd2 He2]. split; etransitivity; eauto.
      split; assumption.
  - split; reflexivity.
Qed.

(** When the test succeeds and the targets carry their annotations,
    [apply_mixup] returns what it was given: the batch at [images] has
    been blended in place, every target has a mixup entry, and the
    annotation sequences have grown at their end. *)
Lemma apply_mixup_applied (images : loc) (targets : list loc) (t : tensor)
    (w : world) :
  mixup_applies env w ->
  annotated targets w ->
  tensors w !! images = Some t ->
  (Nat.min 2 (length targets) <= length t)%nat ->
  wp (apply_mixup env images targets)
     (fun r w' =>
        r = (images, targets) /\ evolves w w' /\
        (forall x, x ∈ targets -> is_Some (entry w' x "mixup")) /\
        tensors w' !! images = Some (blend (drawn_beta env w) t) /\
        length (tensors w') = S (length (tensors w)) /\
        (forall l, l <> images -> (l < length (tensors w))%nat ->
                   tensors w' !! l = tensors w !! l) /\
        exists w3, dicts w3 = dicts w /\
          dicts w' = dicts (fst (merge_targets env (drawn_beta env w) targets w3))) w.
Proof.
  intros (start & end_ & Hh & Hl & Hdraw & Hwin) Han Ht Hvis.
  eapply wp_weaken.
  - apply (wp_follows evolves _
      (fun r w' =>
        r = (images, targets) /\
        (forall x, x ∈ targets -> is_Some (entry w' x "mixup")) /\
        tensors w' !! images = Some (blend (drawn_beta env w) t) /\
        length (tensors w') = S (length (tensors w)) /\
        (forall l, l <> images -> (l < length (tensors w))%nat ->
                   tensors w' !! l = tensors w !! l) /\
        exists w3, dicts w3 = dicts w /\
          dicts w' = dicts (fst (merge_targets env (drawn_beta env w) targets w3))));
      [apply apply_mixup_evolves|].
    unfold apply_mixup.
    destruct (closing_notice_run w end_ Hl) as (b & out & Hrun & _).
    apply wp_bind. eapply wp_of_run; [exact Hrun|].
    set (w1 := with_self _ _).
    apply wp_bind. eapply wp_of_run;
      [apply (mixup_condition_run w1 start end_); assumption|].
    change (mixup_prob (self w1)) with (mixup_prob (self w)).
    change (epoch (self w1)) with (epoch (self w)).
    change (draws w1) with (draws w).
    rewrite Hdraw, (proj2 (Z.leb_le _ _)), (proj2 (Z.ltb_lt _ _)) by lia.
    cbn [andb].
    unfold random_uniform.
    apply wp_bind, wp_bind.
    eapply wp_of_run; [reflexivity|]. apply wp_ret.
    cbn [draws with_draws].
    change (round6 _) with (drawn_beta env w).
    set (w2 := with_draws _ _).
    apply wp_bind. eapply wp_weaken; [apply (blend_images_wp images _ t w2); exact Ht|].
    cbn beta. intros _ w3 (Hs3 & Hd3 & Hdr3 & Hb3 & Hlen3 & Hoth3).
    assert (Han3 : annotated targets w3).
    { intros r key Hr Hk. unfold entry. rewrite Hd3. apply (Han r key Hr Hk). }
    destruct (merge_targets_wp (drawn_beta env w) targets w3 Han3)
      as (u4 & Hu4 & He4 & Ht4 & Hm4).
    apply wp_bind. exists u4. split; [exact Hu4|].
    set (w4 := fst (merge_targets env (drawn_beta env w) targets w3)) in *.
    apply wp_bind, wp_get_self, wp_bind.
    assert (Hfin : forall w5, data_kept w4 w5 /\ evolves w4 w5 ->
      wp (ret (images, targets))
        (fun r w' =>
           r = (images, targets) /\
           (forall x, x ∈ targets -> is_Some (entry w' x "mixup")) /\
           tensors w' !! images = Some (blend (drawn_beta env w) t) /\
           length (tensors w') = S (length (tensors w)) /\
           (forall l, l <> images -> (l < length (tensors w))%nat ->
                      tensors w' !! l = tensors w !! l) /\
           exists w3, dicts w3 = dicts w /\
             dicts w' = dicts (fst (merge_targets env (drawn_beta env w) targets w3))) w5).
    { intros w5 [[Hd5 Ht5] He5]. apply wp_ret. split; [reflexivity|].
      split; [intros x Hx; eapply keys_kept; [exact He5|apply Hm4, Hx]|].
      plain_types. rewrite Ht5, Ht4.
      split; [assumption|]. split; [assumption|]. split; [assumption|].
      exists w3. split; [exact Hd3|exact Hd5]. }
    destruct (data_vis (self w4)).
    + eapply wp_weaken; [|intros u w5 H5; apply Hfin, H5].
      apply (visualise_loop_wp images targets _ (blend (drawn_beta env w) t)).
      * plain_types. rewrite Ht4. exact Hb3.
      * eapply annotated_evolves; eauto.
      * intros i Hi. apply elem_of_seq in Hi. rewrite length_blend. lia.
    + apply wp_ret, Hfin. split; [split|]; reflexivity.
  - cbn beta. intros r w' [(Hr & Hm & Hb & Hlen & Hoth & Hmerge) He]. auto 10.
Qed.

(** What one [extend_entry] writes, exactly. *)
Lemma extend_entry_exact ti si key (a b : tensor) (w : world) :
  entry w ti key = Some a -> entry w si key = Some b ->
  wp (extend_entry env ti si key)
     (fun _ w' => forall r' key',
        entry w' r' key' =
        if decide (r' = ti /\ key' = key) then Some (a ++ b) else entry w r' key') w.
Proof.
  intros Ha Hb. unfold extend_entry, torch_cat.
  apply wp_bind. eapply wp_dict_getitem; [exact Ha|].
  apply wp_bind. eapply wp_dict_getitem; [exact Hb|].
  apply wp_bind, wp_bind, wp_tensor_op; [apply Hnf|].
  apply wp_ret, wp_dict_setitem.
  intros r' key'. rewrite entry_setitem. cbn [concat]. rewrite app_nil_r.
  reflexivity.
Qed.

(** The merge of a batch of one: the target is paired with itself. *)
Lemma merge_targets_single beta (r : loc) (b l a : tensor) (w : world) :
  entry w r "boxes" = Some b ->
  entry w r "labels" = Some l ->
  entry w r "area" = Some a ->
  let w' := fst (merge_targets env beta [r] w) in
  entry w' r "boxes" = Some (b ++ b) /\
  entry w' r "labels" = Some (l ++ l) /\
  entry w' r "area" = Some (a ++ a) /\
  entry w' r "mixup" =
    Some (tensor_of_list (repeat beta (length (b ++ b)) ++
                          repeat (1 - beta)%Q (length (b ++ b)))).
Proof.
  intros Hb Hl Ha.
  assert (Hwp : wp (merge_targets env beta [r])
    (fun _ w' =>
       entry w' r "boxes" = Some (b ++ b) /\
       entry w' r "labels" = Some (l ++ l) /\
       entry w' r "area" = Some (a ++ a) /\
       entry w' r "mixup" =
         Some (tensor_of_list (repeat beta (length (b ++ b)) ++
                               repeat (1 - beta)%Q (length (b ++ b))))) w).
  { unfold merge_targets. cbn [length seq for_each roll1 drop take app Nat.sub].
    apply wp_bind, wp_bind. unfold merge_target.
    apply wp_bind. eapply wp_getitem_nth; [reflexivity|].
    apply wp_bind. eapply wp_getitem_nth; [reflexivity|].
    apply wp_bind. eapply wp_weaken; [apply (extend_entry_exact r r "boxes" b b); assumption|].
    cbn beta. intros _ w1 H1.
    apply wp_bind. eapply wp_weaken;
      [apply (extend_entry_exact r r "labels" l l); rewrite H1, decide_False
         by (intros [_ ?]; discriminate); assumption|].
    cbn beta. intros _ w2 H2.
    apply wp_bind. eapply wp_weaken;
      [apply (extend_entry_exact r r "area" a a); rewrite H2, decide_False
         by (intros [_ ?]; discriminate); rewrite H1, decide_False
         by (intros [_ ?]; discriminate); assumption|].
    cbn beta. intros _ w3 H3.
    assert (Hb3 : entry w3 r "boxes" = Some (b ++ b)).
    { rewrite H3, decide_False by (intros [_ ?]; discriminate).
      rewrite H2, decide_False by (intros [_ ?]; discriminate).
      rewrite H1, decide_True by auto. reflexivity. }
    assert (Hl3 : entry w3 r "labels" = Some (l ++ l)).
    { rewrite H3, decide_False by (intros [_ ?]; discriminate).
      rewrite H2, decide_True by auto. reflexivity. }
    assert (Ha3 : entry w3 r "area" = Some (a ++ a)).
    { rewrite H3, decide_True by auto. reflexivity. }
    apply wp_bind. eapply wp_dict_getitem; [exact Hb3|].
    apply wp_bind. eapply wp_dict_getitem; [exact Hb3|].
    unfold torch_tensor.
    apply wp_bind, wp_bind, wp_tensor_op; [apply Hnf|].
    apply wp_ret, wp_dict_setitem, wp_ret, wp_emit.
    change (entry (with_stdout ?o ?x)) with (entry x).
    rewrite !entry_setitem.
    rewrite !decide_False by (intros [_ ?]; discriminate).
    rewrite decide_True by auto. auto. }
  destruct Hwp as (u & _ & H). exact H.
Qed.
End Mixup.

(** * The claims about the inactive scheduler *)

(** C8.  When the epoch is outside the window [start, end), or when the
    draw is not below the effective probability, [apply_mixup] returns the
    images and the targets it was given and leaves every dictionary and
    every image batch as it was (no pixel changes, no annotation changes,
    no mixup entry appears); and once the epoch has reached [end], this
    holds after every later [set_epoch] with an epoch that is not
    smaller. *)
Theorem apply_mixup_inactive_unchanged (env : environment) (w : world)
    (images : loc) (targets : list loc) (start end_ : Z) :
  head (mixup_epochs (self w)) = Some start ->
  last (mixup_epochs (self w)) = Some end_ ->
  (epoch (self w) < start \/ end_ <= epoch (self w) \/
     Qlt_bool (random_floats env (draws w)) (mixup_prob (self w)) = false ->
   let r := apply_mixup env images targets w in
   snd r = inr (images, targets) /\
   dicts (fst r) = dicts w /\ tensors (fst r) = tensors w) /\
  (end_ <= epoch (self w) ->
   forall e', epoch (self w) <= e' ->
   let w1 := fst (set_epoch e' w) in
   let r := apply_mixup env images targets w1 in
   snd r = inr (images, targets) /\
   dicts (fst r) = dicts w /\ tensors (fst r) = tensors w).
Proof.
  intros Hh Hl. split.
  - intros Hc. cbn zeta.
    destruct (apply_mixup_skipped env w images targets start end_ Hh Hl Hc)
      as (b & out & ->).
    repeat split.
  - intros He e' He'. cbn zeta.
    assert (Hw1 : self (fst (set_epoch e' w)) =
                  with_mixup_prob (next_prob e' (self w)) (with_epoch e' (self w)))
      by apply set_epoch_self.
    assert (Hd : dicts (fst (set_epoch e' w)) = dicts w /\
                 tensors (fst (set_epoch e' w)) = tensors w)
      by (rewrite set_epoch_unfold; split; reflexivity).
    destruct Hd as [Hd Ht].
    destruct (apply_mixup_skipped env (fst (set_epoch e' w)) images targets start end_)
      as (b & out & ->).
    + rewrite Hw1. exact Hh.
    + rewrite Hw1. exact Hl.
    + right. left. rewrite Hw1. cbn. lia.
    + cbn. auto.
Qed.

(** What holds of C5: with fewer than two elements in [mixup_epochs],
    [set_epoch] writes nothing and leaves the probability alone, and with
    exactly one element [apply_mixup] hands the batch back untouched. *)
Lemma set_epoch_short_window (e : Z) (w : world) :
  (length (mixup_epochs (self w)) < 2)%nat ->
  set_epoch e w = (with_self (with_epoch e) w, inr tt).
Proof.
  intros Hlen. rewrite set_epoch_unfold.
  assert (Hw : window (self w) = None).
  { unfold window. destruct (Nat.leb_spec 2 (length (mixup_epochs (self w))));
      [lia|reflexivity]. }
  unfold with_self, with_stdout. cbn [self dicts tensors stdout draws ops].
  unfold boundary_notice, prob_notice, next_prob, target_prob. rewrite Hw.
  clear Hlen Hw.
  destruct (gradual_mixup (self w) && Qlt_bool 0 (mixup_prob (self w)));
    destruct w as [s d t o dr op]; destruct s;
    cbn; rewrite app_nil_r; reflexivity.
Qed.

Lemma apply_mixup_single_boundary (env : environment) (w : world)
    (images : loc) (targets : list loc) (a : Z) :
  mixup_epochs (self w) = [a] ->
  let r := apply_mixup env images targets w in
  snd r = inr (images, targets) /\
  dicts (fst r) = dicts w /\ tensors (fst r) = tensors w.
Proof.
  intros Ha. cbn zeta.
  destruct (apply_mixup_skipped env w images targets a a) as (b & out & ->).
  - rewrite Ha. reflexivity.
  - rewrite Ha. reflexivity.
  - destruct (Z_lt_le_dec (epoch (self w)) a); auto.
  - repeat split.
Qed.

(** C5, on the code.  With an empty [mixup_epochs], [apply_mixup] raises
    [IndexError] at its first line, and so does collating a batch of one
    sample. *)
Theorem apply_mixup_empty_window (env : environment) (w : world)
    (images : loc) (targets : list loc) :
  mixup_epochs (self w) = [] ->
  snd (apply_mixup env images targets w) = inl (IndexError "list index out of range") /\
  forall (img : row) (r : loc),
    faults env (ops w) = None ->
    snd (call env [(img, r)] w) = inl (IndexError "list index out of range").
Proof.
  intros He.
  assert (Hc : forall w', mixup_epochs (self w') = [] ->
      closing_notice w' = (w', inl (IndexError "list index out of range"))).
  { intros w' H. unfold closing_notice, bind, get_self, getitem_last.
    rewrite H. reflexivity. }
  split.
  - unfold apply_mixup. rewrite (bind_inl _ _ _ _ _ (Hc w He)). reflexivity.
  - intros img r Hf. unfold call, call_body.
    destruct (release_before_transition_run env w) as [out Hrel].
    rewrite (bind_inr _ _ _ _ _ Hrel).
    rewrite (bind_inr _ _ _ _ _
               (stack_images_run env [img] (with_stdout (stdout w ++ out) w)
                  eq_refl Hf)).
    cbn zeta. unfold apply_mixup. unfold bind at 1.
    erewrite (bind_inl closing_notice); [|apply Hc; exact He]. reflexivity.
Qed.

(** * The claims about an applied mixup *)

Lemma lookup_map {A B} (f : A -> B) (l : list A) (i : nat) :
  map f l !! i = f <$> (l !! i).
Proof.
  revert i. induction l as [|x l IH]; intros [|i]; cbn; try reflexivity. apply IH.
Qed.

(** A pixel of the blend, from the pixels of the sample and of its
    predecessor before the blend. *)
Lemma blend_pixel (beta : Q) (t : tensor) (i j : nat) (p q : Q) :
  (i < length t)%nat ->
  t !! i ≫= (fun r => r !! j) = Some p ->
  t !! ((i + length t - 1) mod length t)%nat ≫= (fun r => r !! j) = Some q ->
  blend beta t !! i ≫= (fun r => r !! j) = Some (p * beta + q * (1 - beta))%Q.
Proof.
  intros Hi Hp Hq. plain_types. rewrite <- roll1_lookup in Hq by exact Hi.
  unfold blend, scaled. plain_types.
  rewrite lookup_zip_with, !lookup_map.
  destruct (t !! i) as [r|]; [|discriminate]. cbn in Hp.
  destruct (roll1 t !! i) as [r'|]; [|discriminate]. cbn in Hq.
  cbn [mbind option_bind fmap option_fmap option_map].
  rewrite lookup_zip_with, !lookup_map, Hp, Hq. reflexivity.
Qed.

(** C9.  When mixup is applied (the draw is below the probability and the
    epoch is in the window) to a batch whose targets carry their
    annotations, one ratio [beta] is used for the whole batch: it is
    [0.45 + 0.10 * u] rounded to the nearest multiple of [10^-6], for
    the value [u] the random source gives, so it lies in [0.45, 0.55]
    when [u] is in [0, 1]; sample [i] is paired with sample [(i - 1) mod N];
    and every pixel of the batch, which is updated in place, equals
    [beta * p + (1 - beta) * q] for the pixels [p] of the sample and [q] of
    its predecessor before the blend. *)
Theorem apply_mixup_blends_with_predecessor (env : environment) (w : world)
    (images : loc) (targets : list loc) (t : tensor) :
  no_faults env ->
  mixup_applies env w ->
  annotated targets w ->
  tensors w !! images = Some t ->
  (Nat.min 2 (length targets) <= length t)%nat ->
  let N := length t in
  let u := random_floats env (S (draws w)) in
  let x := ((45 # 100) + ((55 # 100) - (45 # 100)) * u)%Q in
  let beta := drawn_beta env w in
  let w' := fst (apply_mixup env images targets w) in
  (exists n : Z, beta = n # 1000000 /\
     (Qabs (inject_Z n - x * (1000000 # 1)) <= 1 # 2)%Q) /\
  ((0 <= u)%Q -> (u <= 1)%Q -> (45 # 100 <= beta)%Q /\ (beta <= 55 # 100)%Q) /\
  exists t', tensors w' !! images = Some t' /\ length t' = N /\
    forall (i j : nat) (p q : Q),
      (i < N)%nat ->
      t !! i ≫= (fun r => r !! j) = Some p ->
      t !! ((i + N - 1) mod N)%nat ≫= (fun r => r !! j) = Some q ->
      exists v, t' !! i ≫= (fun r => r !! j) = Some v /\
                (v == beta * p + (1 - beta) * q)%Q.
Proof.
  intros Hnf Happ Han Ht Hvis N u x beta w'. split; [|split].
  - exists (round_half_even (x * (1000000 # 1))). split; [reflexivity|].
    apply round_half_even_near.
  - intros Hu0 Hu1.
    destruct (round_half_even_between (x * (1000000 # 1)) 450000 550000) as [Hlo Hhi].
    + subst x. unfold inject_Z. lra.
    + subst x. unfold inject_Z. lra.
    + subst beta x u. unfold drawn_beta, round6.
      set (n := round_half_even _) in *. unfold Qle. cbn. split; lia.
  - destruct (apply_mixup_applied env Hnf images targets t w Happ Han Ht Hvis)
      as (r & _ & _ & _ & _ & Hb & _).
    exists (blend beta t). split; [exact Hb|]. split; [apply length_blend|].
    intros i j p q Hi Hp Hq. eexists. split.
    + apply blend_pixel; eassumption.
    + ring.
Qed.

Lemma partial_bind_any {A B} (m : M A) (k : A -> M B) (Q : B -> world -> Prop) :
  (forall a, partial (fun _ => True) (k a) Q) -> partial (fun _ => True) (bind m k) Q.
Proof.
  intros Hk. apply (partial_bind _ m (fun _ _ => True)); [|exact Hk].
  intros w a _ _. exact I.
Qed.


(** Walks to the [ret]s of a computation, for a fact about its value. *)
Ltac partial_value :=
  repeat first
    [ apply partial_ret; intros; reflexivity
    | apply partial_raise
    | apply partial_bind_any; intros ?
    | match goal with
      | |- partial _ (if ?b then _ else _) _ => destruct b
      | |- partial _ (match ?x with _ => _ end) _ => destruct x
      end
    | progress cbn zeta ].

Lemma apply_mixup_value (env : environment) (images : loc) (targets : list loc) :
  partial (fun _ => True) (apply_mixup env images targets)
          (fun r _ => r = (images, targets)).
Proof. unfold apply_mixup. partial_value. Qed.



Lemma call_returns (env : environment) (items : list (row * loc)) (w : world) r :
  snd (call env items w) = inr r ->
  call env items w = call_body env items w.
Proof.
  unfold call. destruct (call_body env items w) as [w' [e|r']]; [|reflexivity].
  unfold bind. destruct (handler e w') as [w'' [e'|[]]]; discriminate.
Qed.


(** * [__call__] *)

Lemma handler_run (e : exn) (w : world) :
  handler e w = (with_stdout (stdout w ++ handler_events e (self w)) w, inr tt).
Proof.
  assert (Hid : forall w : world, w = with_stdout (stdout w ++ []) w).
  { intros [s d t o dr op]. unfold with_stdout. cbn. rewrite app_nil_r. reflexivity. }
  unfold handler, handler_events, is_cuda_oom.
  destruct (is_RuntimeError e); cbn [andb]; [|unfold ret; f_equal; apply Hid].
  destruct (str_contains _ _); [|unfold ret; f_equal; apply Hid].
  unfold mixup_active, window, bind, get_self, print, gc_collect, cuda_empty_cache,
    emit, getitem_first, getitem_last, ret.
  cbn [self stdout with_stdout].
  destruct (mixup_epochs (self w)) as [|a [|b l]]; cbn -[last Z.leb Z.ltb].
  - rewrite <- !app_assoc. reflexivity.
  - rewrite <- !app_assoc. reflexivity.
  - assert (Hlast : exists z, last (a :: b :: l) = Some z).
    { rewrite last_cons_cons, last_cons. destruct (last l); eauto. }
    destruct Hlast as [z Hlast]. rewrite !Hlast.
    destruct (a <=? epoch (self w)); cbn -[last Z.leb Z.ltb]; rewrite ?Hlast;
      cbn -[last Z.leb Z.ltb]; rewrite <- !app_assoc; reflexivity.
Qed.

Lemma call_raises (env : environment) (items : list (row * loc)) (w : world) (e : exn) :
  snd (call_body env items w) = inl e ->
  call env items w =
  (with_stdout (stdout (fst (call_body env items w)) ++
                handler_events e (self (fst (call_body env items w))))
     (fst (call_body env items w)), inl e).
Proof.
  intros H. unfold call. destruct (call_body env items w) as [w' [e'|r]];
    cbn in H; [|discriminate].
  inversion H; subst. unfold bind. rewrite handler_run. reflexivity.
Qed.

Lemma partial_get_self (P : world -> Prop) :
  partial P get_self (fun s w => s = self w /\ P w).
Proof. intros w s Hw Hs. cbn in *. inversion Hs. auto. Qed.

Lemma partial_getitem_first {A} (P : world -> Prop) (l : list A) :
  partial P (getitem_first l) (fun x w => head l = Some x /\ P w).
Proof.
  intros w x Hw Hx. unfold getitem_first in *.
  destruct (head l); cbn in *; inversion Hx; auto.
Qed.

Lemma partial_dict_contains (P : world -> Prop) r key :
  partial P (dict_contains r key)
          (fun b w => b = bool_decide (is_Some (entry w r key)) /\ P w).
Proof. intros w b Hw Hb. cbn in *. inversion Hb. auto. Qed.

Lemma evolves_config (w w' : world) :
  evolves w w' ->
  scales (self w') = scales (self w) /\ stop_epoch (self w') = stop_epoch (self w) /\
  epoch (self w') = epoch (self w) /\ mixup_epochs (self w') = mixup_epochs (self w) /\
  mixup_prob (self w') = mixup_prob (self w) /\ data_vis (self w') = data_vis (self w).
Proof.
  intros H. pose proof (config_kept _ _ H) as Hc.
  repeat split.
  - apply (f_equal scales) in Hc. exact Hc.
  - apply (f_equal stop_epoch) in Hc. exact Hc.
  - apply (f_equal epoch) in Hc. exact Hc.
  - apply (f_equal mixup_epochs) in Hc. exact Hc.
  - apply (f_equal mixup_prob) in Hc. exact Hc.
  - apply (f_equal data_vis) in Hc. exact Hc.
Qed.

(** The invariant of the scheduler survives every call: nothing in the
    [try] block touches the probabilities. *)
Lemma evolves_scheduler_ok (w w' : world) :
  evolves w w' -> scheduler_ok (self w) -> scheduler_ok (self w').
Proof.
  intros He Hok. pose proof (config_kept _ _ He) as Hc.
  unfold scheduler_ok in *.
  rewrite <- (f_equal warm_up_epochs Hc : warm_up_epochs (self w') = warm_up_epochs (self w)) in Hok.
  rewrite <- (f_equal original_mixup_prob Hc
              : original_mixup_prob (self w') = original_mixup_prob (self w)) in Hok.
  rewrite <- (f_equal mixup_prob Hc : mixup_prob (self w') = mixup_prob (self w)) in Hok.
  exact Hok.
Qed.

Lemma call_scheduler_ok (env : environment) (items : list (row * loc)) (w : world) :
  scheduler_ok (self w) -> scheduler_ok (self (fst (call env items w))).
Proof.
  intros Hok.
  assert (Hb : scheduler_ok (self (fst (call_body env items w))))
    by (eapply evolves_scheduler_ok; [apply call_body_evolves|exact Hok]).
  unfold call. destruct (call_body env items w) as [w' [e|r]]; [|exact Hb].
  unfold bind. rewrite handler_run. exact Hb.
Qed.

Section CollateFails.
Variable env : environment.

(** A step of the [try] block, as a step that keeps [evolves]. *)
Ltac evolving :=
  apply partial_follows; [typeclasses eauto|];
  unfold random_choice, F_interpolate, getitem_first;
  follows_from ltac:(first [ apply release_before_transition_evolves
                           | apply stack_images_evolves
                           | apply apply_mixup_evolves ]) evolves_leaf.

Lemma multi_scale_resize_fails_masks (w0 : world) (images : loc)
    (targets : list loc) (l : list Z) (t0 : loc) :
  scales (self w0) = Some l ->
  epoch (self w0) < stop_epoch (self w0) ->
  head targets = Some t0 ->
  is_Some (entry w0 t0 "masks") ->
  fails (evolves w0) (multi_scale_resize env images targets).
Proof.
  intros Hsc Hep Ht0 Hmask. unfold multi_scale_resize.
  eapply fails_bind; [apply partial_get_self|]. intros s'.
  intros w (Hs' & He). subst s'.
  destruct (evolves_config _ _ He) as (-> & Hstop & Hepoch & _).
  rewrite Hsc, Hepoch, Hstop, (proj2 (Z.ltb_lt _ _) Hep).
  refine ((_ : fails (evolves w0) _) w He).
  eapply fails_bind; [evolving|]. intros sz.
  eapply fails_bind; [evolving|]. intros t.
  eapply fails_bind; [evolving|]. intros t'.
  eapply fails_bind; [evolving|]. intros images'.
  eapply fails_bind; [apply partial_getitem_first|]. intros t0'.
  eapply fails_bind; [apply partial_dict_contains|]. intros has_masks.
  intros w1 (Hhas & Hhead & He1).
  rewrite Ht0 in Hhead. inversion Hhead; subst t0'.
  rewrite bool_decide_eq_true_2 in Hhas
    by (eapply keys_kept; [exact He1|exact Hmask]).
  subst has_masks.
  refine ((_ : fails (fun _ => True) _) w1 I).
  apply fails_bind_l.
  eapply (fails_bind _ _ (fun _ _ => True)); [intros ? ? _ _; exact I|].
  intros u. apply fails_raise.
Qed.

Lemma call_body_never_returns_masks (items : list (row * loc)) (w0 : world)
    (l : list Z) (t0 : loc) :
  scales (self w0) = Some l ->
  epoch (self w0) < stop_epoch (self w0) ->
  head (map snd items) = Some t0 ->
  is_Some (entry w0 t0 "masks") ->
  fails (evolves w0) (call_body env items).
Proof.
  intros Hsc Hep Ht0 Hmask. unfold call_body.
  eapply fails_bind; [evolving|]. intros u. cbn beta.
  eapply fails_bind; [evolving|]. intros images. cbn beta zeta.
  eapply fails_bind.
  { apply (partial_and _ _ (fun _ w' => evolves w0 w')
              (fun r _ => r = (images, map snd items))).
    { apply (partial_follows evolves), apply_mixup_evolves. }
    apply (partial_weaken (fun _ => True) _ _
             (fun r _ => r = (images, map snd items)));
      [apply apply_mixup_value|intros; exact I|intros a w H; exact H]. }
  intros it w [He ->]. cbn [fst snd].
  apply (multi_scale_resize_fails_masks w0 images (map snd items) l t0 Hsc Hep Ht0 Hmask).
  exact He.
Qed.
End CollateFails.

Lemma raises_bind {A B} (m : M A) (k : A -> M B) (e : exn) (w : world) :
  wp m (fun a w' => snd (k a w') = inl e) w -> snd (bind m k w) = inl e.
Proof.
  intros (a & Ha & He). unfold bind.
  destruct (m w) as [w' [e'|a']]; cbn in *; [discriminate|].
  inversion Ha; subst. exact He.
Qed.

Lemma raises_bind_l {A B} (m : M A) (k : A -> M B) (e : exn) (w : world) :
  snd (m w) = inl e -> snd (bind m k w) = inl e.
Proof.
  intros He. unfold bind. destruct (m w) as [w' [e'|a']]; cbn in *;
    [congruence|discriminate].
Qed.

Section CollateRaises.
Variable env : environment.
Hypothesis Hnf : no_faults env.

(** With well-formed inputs [apply_mixup] returns, applied or not. *)
Lemma apply_mixup_returns (images : loc) (targets : list loc) (t : tensor)
    (w : world) :
  is_Some (head (mixup_epochs (self w))) ->
  annotated targets w ->
  tensors w !! images = Some t ->
  (Nat.min 2 (length targets) <= length t)%nat ->
  wp (apply_mixup env images targets)
     (fun r w' => r = (images, targets) /\ evolves w w') w.
Proof.
  intros [start Hh] Han Ht Hvis.
  assert (Hl : exists end_, last (mixup_epochs (self w)) = Some end_).
  { destruct (mixup_epochs (self w)) as [|a l]; [discriminate|].
    rewrite last_cons. destruct (last l); eauto. }
  destruct Hl as [end_ Hl].
  apply (wp_follows evolves _ (fun r _ => r = (images, targets)));
    [apply apply_mixup_evolves|].
  destruct (Qlt_bool (random_floats env (draws w)) (mixup_prob (self w))) eqn:Hd.
  - destruct (Z_lt_le_dec (epoch (self w)) start) as [Hlo|Hlo].
    + destruct (apply_mixup_skipped env w images targets start end_ Hh Hl)
        as (b & out & Hrun); [auto|].
      eapply wp_of_run; [exact Hrun|reflexivity].
    + destruct (Z_lt_le_dec (epoch (self w)) end_) as [Hhi|Hhi].
      * eapply wp_weaken.
        -- apply (apply_mixup_applied env Hnf images targets t w); try assumption.
           exists start, end_. repeat split; try assumption.
        -- cbn beta. intros r w' [H _]. exact H.
      * destruct (apply_mixup_skipped env w images targets start end_ Hh Hl)
          as (b & out & Hrun); [auto|].
        eapply wp_of_run; [exact Hrun|reflexivity].
  - destruct (apply_mixup_skipped env w images targets start end_ Hh Hl)
      as (b & out & Hrun); [auto|].
    eapply wp_of_run; [exact Hrun|reflexivity].
Qed.

Lemma wp_random_choice {A} (l : list A) (Q : A -> world -> Prop) (w : world) :
  l <> [] ->
  (forall x, x ∈ l -> Q x (with_draws (S (draws w)) w)) ->
  wp (random_choice env l) Q w.
Proof.
  intros Hl HQ. unfold random_choice. destruct l as [|y l]; [contradiction|].
  set (i := (random_index env (draws w) mod length (y :: l))%nat).
  destruct (lookup_lt_is_Some_2 (y :: l) i) as [x Hx].
  { apply Nat.mod_upper_bound. discriminate. }
  exists x. unfold getitem_nth. fold i. rewrite Hx. split; [reflexivity|].
  apply HQ. eapply list_elem_of_lookup_2; eauto.
Qed.

Lemma resize_masks_loop_wp (sz : Z) (targets : list loc) (w : world) :
  (forall r, r ∈ targets -> is_Some (entry w r "masks")) ->
  wp (for_each targets (resize_masks env sz)) (fun _ _ => True) w.
Proof.
  intros Hm.
  eapply wp_weaken.
  - apply (wp_for_each (fun w' => forall r, r ∈ targets -> is_Some (entry w' r "masks")));
      [|exact Hm].
    intros r w' Hr Hw'. unfold resize_masks, F_interpolate.
    destruct (Hw' r Hr) as [m Hmr].
    apply wp_bind. eapply wp_dict_getitem; [exact Hmr|].
    apply wp_bind, wp_bind, wp_tensor_op; [apply Hnf|].
    apply wp_ret, wp_dict_setitem.
    intros r' Hr'. rewrite entry_setitem. case_decide; [eauto|].
    apply (Hw' r' Hr').
  - auto.
Qed.

(** With a scale set to choose from and a mask on every target, the
    resize ends at its [raise]. *)
Lemma multi_scale_resize_raises_masks (images : loc) (targets : list loc)
    (w : world) (l : list Z) :
  scales (self w) = Some l -> l <> [] ->
  epoch (self w) < stop_epoch (self w) ->
  targets <> [] ->
  (forall r, r ∈ targets -> is_Some (entry w r "masks")) ->
  snd (multi_scale_resize env images targets w) = inl (NotImplementedError "").
Proof.
  intros Hsc Hl Hep Hne Hmask. unfold multi_scale_resize.
  apply raises_bind, wp_get_self. rewrite Hsc, (proj2 (Z.ltb_lt _ _) Hep).
  apply raises_bind, wp_random_choice; [exact Hl|]. intros sz _.
  apply raises_bind, wp_tensor_load.
  unfold F_interpolate.
  apply raises_bind, wp_bind, wp_tensor_op; [apply Hnf|]. apply wp_ret.
  apply raises_bind, wp_tensor_new.
  set (w5 := with_tensors _ _).
  assert (Hmask5 : forall r, r ∈ targets -> is_Some (entry w5 r "masks")).
  { intros r Hr. apply (Hmask r Hr). }
  destruct targets as [|t0 tl]; [contradiction|].
  apply raises_bind. unfold getitem_first. cbn [head]. apply wp_ret.
  apply raises_bind. unfold dict_contains. eexists. split; [reflexivity|].
  cbn [fst snd]. fold (entry w5 t0 "masks").
  rewrite bool_decide_eq_true_2 by (apply Hmask5; left).
  apply raises_bind_l, raises_bind.
  eapply wp_weaken; [apply resize_masks_loop_wp; exact Hmask5|].
  reflexivity.
Qed.

(** Without a scale set, or from [stop_epoch] on, the resize does nothing. *)
Lemma multi_scale_resize_off (images : loc) (targets : list loc) (w : world) :
  scales (self w) = None \/ stop_epoch (self w) <= epoch (self w) ->
  multi_scale_resize env images targets w = (w, inr (images, targets)).
Proof.
  intros H. unfold multi_scale_resize, bind, get_self. cbn [fst snd].
  destruct (scales (self w)) as [l|]; [|reflexivity].
  destruct H as [H|H]; [discriminate|].
  rewrite (proj2 (Z.ltb_ge _ _) H). reflexivity.
Qed.

(** The [try] block up to the augmentation: the images are stacked into a
    new batch and the targets are the items' dictionaries. *)
Lemma call_body_start (items : list (row * loc)) (w : world) :
  stackable (map fst items) = true ->
  exists out,
    let w3 := with_tensors (tensors w ++ [map fst items])
                (with_ops (S (ops w)) (with_stdout (stdout w ++ out) w)) in
    call_body env items w =
    (it <- apply_mixup env (length (tensors w)) (map snd items) ;;
     multi_scale_resize env (fst it) (snd it)) w3.
Proof.
  intros Hst. destruct (release_before_transition_run env w) as [out Hrel].
  exists out. cbn zeta. unfold call_body.
  rewrite (bind_inr _ _ _ _ _ Hrel).
  rewrite (bind_inr _ _ _ _ _
             (stack_images_run env (map fst items) _ Hst (Hnf _))).
  reflexivity.
Qed.

(** With well-formed inputs, a scale set to choose from and a mask on
    every target, the [try] block ends at its [raise]. *)
Lemma call_body_raises_masks (items : list (row * loc)) (w : world) (l : list Z) :
  stackable (map fst items) = true ->
  is_Some (head (mixup_epochs (self w))) ->
  annotated (map snd items) w ->
  scales (self w) = Some l -> l <> [] ->
  epoch (self w) < stop_epoch (self w) ->
  (forall r, r ∈ map snd items -> is_Some (entry w r "masks")) ->
  snd (call_body env items w) = inl (NotImplementedError "").
Proof.
  intros Hst Hh Han Hsc Hl Hep Hmask.
  destruct (call_body_start items w Hst) as [out Hstart]. cbn zeta in Hstart.
  rewrite Hstart. set (w3 := with_tensors _ _).
  assert (Hne : map snd items <> []).
  { intros Hnil. apply (f_equal length) in Hnil. rewrite length_map in Hnil.
    destruct items; [discriminate Hst|discriminate Hnil]. }
  apply raises_bind. eapply wp_weaken.
  { apply (apply_mixup_returns (length (tensors w)) (map snd items) (map fst items) w3).
    - exact Hh.
    - exact Han.
    - subst w3. cbn [tensors with_tensors with_ops with_stdout]. plain_types.
      rewrite lookup_app_r, Nat.sub_diag by lia. reflexivity.
    - rewrite !length_map. lia. }
  cbn beta. intros it w4 [-> He4]. cbn [fst snd].
  destruct (evolves_config _ _ He4) as (Hs & Hstop & Hepoch & _).
  apply (multi_scale_resize_raises_masks _ _ w4 l); try assumption.
  - rewrite Hs. exact Hsc.
  - rewrite Hstop, Hepoch. exact Hep.
  - intros r Hr. eapply keys_kept; [exact He4|]. apply (Hmask r Hr).
Qed.


End CollateRaises.

(** * What the merging loop leaves in the dictionaries *)

#[export] Instance annotations_kept_preorder : PreOrder annotations_kept.
Proof.
  split; [intros w r key _; reflexivity|].
  intros w1 w2 w3 H12 H23 r key H. rewrite (H23 r key H). apply H12, H.
Qed.






Section MergeExact.
Variable env : environment.
Hypothesis Hnf : no_faults env.





End MergeExact.

(** * The claims about [__call__] *)


(** C2 (amended).  With multi-scale resize configured and the epoch below
    [stop_epoch], a batch whose first target carries a mask is never
    returned: [__call__] raises.  When moreover no tensor operation fails,
    the images stack, the mixup window is configured, the targets carry
    their annotations, the scale set is not empty and every target
    carries a mask, what it raises is the unsupported-mask-resize error
    [NotImplementedError('')]. *)
Theorem collate_masks_unsupported (env : environment) (items : list (row * loc))
    (w : world) (l : list Z) (t0 : loc) :
  scales (self w) = Some l ->
  epoch (self w) < stop_epoch (self w) ->
  head (map snd items) = Some t0 ->
  is_Some (entry w t0 "masks") ->
  (exists e, snd (call env items w) = inl e) /\
  (no_faults env ->
   stackable (map fst items) = true ->
   is_Some (head (mixup_epochs (self w))) ->
   annotated (map snd items) w ->
   l <> [] ->
   (forall r, r ∈ map snd items -> is_Some (entry w r "masks")) ->
   snd (call env items w) = inl (NotImplementedError "")).
Proof.
  intros Hsc Hep Ht0 Hmask. split.
  - destruct (call_body_never_returns_masks env items w l t0 Hsc Hep Ht0 Hmask w)
      as [e He]; [reflexivity|].
    exists e. rewrite (call_raises env items w e He). reflexivity.
  - intros Hnf Hst Hh Han Hl Hall.
    rewrite (call_raises env items w (NotImplementedError ""));
      [reflexivity|].
    apply (call_body_raises_masks env Hnf items w l); assumption.
Qed.

(** C4 (amended).  When the [try] block raises [e], [__call__] raises the
    same [e] and returns no batch, and the handler leaves the object, the
    dictionaries and the image batches as the block left them.  When [e] is
    a device-memory-exhausted failure the handler writes, after what the
    block wrote, its two notices and performs the reclaim once
    ([gc.collect()], then [torch.cuda.empty_cache()]); the whole call has
    written exactly one out-of-memory notice.  For any other [e] the
    handler writes nothing.  When the block returns, so does the call, with
    the same batch. *)
Theorem collate_failure_handling (env : environment) (items : list (row * loc))
    (w : world) :
  let body := call_body env items w in
  let r := call env items w in
  (forall e, snd body = inl e ->
     snd r = inl e /\
     self (fst r) = self (fst body) /\
     dicts (fst r) = dicts (fst body) /\
     tensors (fst r) = tensors (fst body) /\
     (is_cuda_oom e = true ->
        stdout (fst r) =
          stdout (fst body) ++
          [Print (MsgCudaOom (epoch (self (fst body))));
           Print (MsgMemoryIntensive (mixup_active (self (fst body))));
           GcCollect; CudaEmptyCache] /\
        count_events is_oom_notice (stdout (fst r)) =
          S (count_events is_oom_notice (stdout w))) /\
     (is_cuda_oom e = false -> stdout (fst r) = stdout (fst body))) /\
  (forall v, snd body = inr v -> r = body) /\
  (forall v, snd r = inr v -> snd body = inr v).
Proof.
  cbn zeta. split; [|split].
  - intros e He. rewrite (call_raises env items w e He). cbn [fst snd].
    do 4 (split; [reflexivity|]). split.
    + intros Hoom. cbn [stdout with_stdout]. unfold handler_events. rewrite Hoom.
      split; [reflexivity|].
      rewrite count_events_app.
      rewrite (oom_notices_kept _ _ (call_body_evolves env items w)).
      cbn. lia.
    + intros Hoom. cbn [stdout with_stdout]. unfold handler_events. rewrite Hoom.
      apply app_nil_r.
  - intros v Hv. unfold call. destruct (call_body env items w) as [w' [e|v']];
      [discriminate|reflexivity].
  - intros v Hv. rewrite (call_returns env items w v Hv) in Hv. exact Hv.
Qed.

(** * The claims on concrete inputs *)

Lemma annotatedb_spec (targets : list loc) (w : world) :
  annotatedb targets w = true -> annotated targets w.
Proof.
  unfold annotatedb, annotated. intros H r key Hr Hk.
  rewrite forallb_forall in H. specialize (H r (proj1 (list_elem_of_In _ _) Hr)).
  rewrite forallb_forall in H. specialize (H key (proj1 (list_elem_of_In _ _) Hk)).
  apply bool_decide_eq_true_1 in H. exact H.
Qed.

Lemma sample_env_no_faults (u : Q) : no_faults (sample_env u None).
Proof. intros k. reflexivity. Qed.

(** C1, on the code.  For a batch of one sample to which mixup is
    applied, with boxes [b], labels [l] and area [a]: the merged sequences
    are [b ++ b], [l ++ l] and [a ++ a], and the mixup weights are [beta]
    repeated [2 * length b] times followed by [1 - beta] repeated
    [2 * length b] times, twice as many weights as boxes.  For a batch of
    two samples with one box each, marked 7 and 8: the first target gets
    its box then the second's, with three weights for two boxes; the
    second target gets its box, then the first target's boxes as already
    merged (7 then 8), with five weights for three boxes. *)
Theorem apply_mixup_merge_reads_merged_targets :
  (forall (env : environment) (w : world) (images r : loc) (t b l a : tensor),
     no_faults env ->
     mixup_applies env w ->
     tensors w !! images = Some t ->
     (1 <= length t)%nat ->
     entry w r "boxes" = Some b ->
     entry w r "labels" = Some l ->
     entry w r "area" = Some a ->
     let beta := drawn_beta env w in
     let res := apply_mixup env images [r] w in
     snd res = inr (images, [r]) /\
     entry (fst res) r "boxes" = Some (b ++ b) /\
     entry (fst res) r "labels" = Some (l ++ l) /\
     entry (fst res) r "area" = Some (a ++ a) /\
     entry (fst res) r "mixup" =
       Some (tensor_of_list (repeat beta (2 * length b) ++
                             repeat (1 - beta)%Q (2 * length b)))) /\
  (let env := sample_env 0 None in
   let w := with_tensors [[[1; 2]%Q; [3; 4]%Q]]
              (sample_world (sample_fn [10; 20] true false) 12
                 (<[0%nat := sample_target 7]> (<[1%nat := sample_target 8]> ∅))) in
   let beta := drawn_beta env w in
   let res := apply_mixup env 0%nat [0%nat; 1%nat] w in
   snd res = inr (0%nat, [0%nat; 1%nat]) /\
   entry (fst res) 0%nat "boxes" = Some [[7; 0; 0; 0]%Q; [8; 0; 0; 0]%Q] /\
   entry (fst res) 0%nat "mixup" =
     Some (tensor_of_list (repeat beta 2 ++ repeat (1 - beta)%Q 1)) /\
   entry (fst res) 1%nat "boxes" =
     Some [[8; 0; 0; 0]%Q; [7; 0; 0; 0]%Q; [8; 0; 0; 0]%Q] /\
   entry (fst res) 1%nat "mixup" =
     Some (tensor_of_list (repeat beta 3 ++ repeat (1 - beta)%Q 2))).
Proof.
  split; [|vm_compute; repeat split].
  intros env w images r t b l a Hnf Happ Ht Hlen Hb Hl Ha beta res.
  assert (Han : annotated [r] w).
  { intros x key Hx Hk. apply list_elem_of_singleton in Hx. subst x.
    unfold annotation_keys in Hk.
    repeat (apply elem_of_cons in Hk; destruct Hk as [->|Hk]; [eauto|]).
    inversion Hk. }
  destruct (apply_mixup_applied env Hnf images [r] t w Happ Han Ht)
    as (v & Hv & -> & _ & _ & _ & _ & _ & w3 & Hd3 & Hdw); [cbn; lia|].
  fold res in Hv, Hdw. split; [exact Hv|].
  assert (He : forall key, entry (fst res) r key =
                 entry (fst (merge_targets env beta [r] w3)) r key).
  { intros key. unfold entry. rewrite Hdw. reflexivity. }
  destruct (merge_targets_single env Hnf beta r b l a w3) as (H1 & H2 & H3 & H4);
    try (unfold entry; rewrite Hd3; assumption).
  rewrite !He, H1, H2, H3, H4.
  replace (length (b ++ b)) with (2 * length b)%nat by (rewrite length_app; lia).
  repeat split.
Qed.

Lemma apply_mixup_merge_reads_merged_targets_witness :
  let env := sample_env 0 None in
  let w := with_tensors [[[1; 2]%Q]]
             (sample_world (sample_fn [10; 20] true false) 12
                (<[0%nat := sample_target 7]> ∅)) in
  let beta := drawn_beta env w in
  let res := apply_mixup env 0%nat [0%nat] w in
  entry (fst res) 0%nat "boxes" = Some [[7; 0; 0; 0]%Q; [7; 0; 0; 0]%Q] /\
  entry (fst res) 0%nat "mixup" =
    Some (tensor_of_list [beta; beta; (1 - beta)%Q; (1 - beta)%Q]).
Proof.
  intros env w beta res.
  destruct (proj1 apply_mixup_merge_reads_merged_targets env w 0%nat 0%nat
              [[1; 2]%Q] [[7; 0; 0; 0]%Q] [[7%Q]] [[7%Q]])
    as (_ & Hb & _ & _ & Hm).
  - apply sample_env_no_faults.
  - exists 10, 20. split; [reflexivity|]. split; [reflexivity|].
    split; [reflexivity|].
    split; [intros H; vm_compute in H; discriminate H|vm_compute; reflexivity].
  - reflexivity.
  - cbn. lia.
  - reflexivity.
  - reflexivity.
  - reflexivity.
  - split; [exact Hb|exact Hm].
Defined.

(** C2, as stated, fails: multi-scale resize is configured, the epoch is
    below [stop_epoch], the second target carries a mask, the first does
    not, and [__call__] returns the batch. *)
Lemma collate_masks_counterexample :
  let env := sample_env 1 None in
  let d := <[0%nat := sample_target 7]>
             (<[1%nat := <["masks" := [[1%Q]]]> (sample_target 8)]> ∅) in
  let w := sample_world (sample_fn [10; 20] true true) 12 d in
  is_Some (entry w 1%nat "masks") /\
  is_Some (scales (self w)) /\
  epoch (self w) < stop_epoch (self w) /\
  snd (call env [([1; 2]%Q, 0%nat); ([3; 4]%Q, 1%nat)] w) =
    inr (1%nat, [0%nat; 1%nat]).
Proof. vm_compute. repeat split; eauto. Qed.

(** With a mask on the first target only, the mask loop reaches a target
    without one and the call raises [KeyError('masks')]. *)
Example collate_masks_key_error :
  let env := sample_env 1 None in
  let d := <[0%nat := <["masks" := [[1%Q]]]> (sample_target 7)]>
             (<[1%nat := sample_target 8]> ∅) in
  let w := sample_world (sample_fn [10; 20] true true) 12 d in
  snd (call env [([1; 2]%Q, 0%nat); ([3; 4]%Q, 1%nat)] w) = inl (KeyError "masks").
Proof. vm_compute. reflexivity. Qed.

(** C3, as stated, fails: the second [set_epoch 10] writes the activation
    notice a second time. *)
Lemma set_epoch_counterexample :
  let w0 := new_world (sample_fn [10; 20] true false) ∅ in
  let w1 := fst (set_epoch 10 w0) in
  let w2 := fst (set_epoch 10 w1) in
  stdout w1 = [Print (MsgActivating 10); Print (MsgAdjusting 10 (1 # 6))] /\
  stdout w2 = [Print (MsgActivating 10); Print (MsgAdjusting 10 (1 # 6));
               Print (MsgActivating 10)] /\
  count_events is_activating (stdout w2) = 2%nat.
Proof. vm_compute. repeat split. Qed.

(** C4, as stated, fails: the tenth tensor operation, the first of the
    second target's merge, runs out of device memory; [__call__] raises,
    and the caller's first target is left merged (two boxes, a mixup
    entry) while the second is as it was. *)
Lemma collate_oom_counterexample :
  let env := sample_env 0 (Some 9%nat) in
  let d := <[0%nat := sample_target 7]> (<[1%nat := sample_target 8]> ∅) in
  let w := sample_world (sample_fn [10; 20] true false) 12 d in
  let r := call env [([1; 2]%Q, 0%nat); ([3; 4]%Q, 1%nat)] w in
  snd r = inl cuda_oom /\
  entry w 0%nat "boxes" = Some [[7; 0; 0; 0]%Q] /\
  entry w 0%nat "mixup" = None /\
  entry (fst r) 0%nat "boxes" = Some [[7; 0; 0; 0]%Q; [8; 0; 0; 0]%Q] /\
  is_Some (entry (fst r) 0%nat "mixup") /\
  entry (fst r) 1%nat "boxes" = Some [[8; 0; 0; 0]%Q] /\
  entry (fst r) 1%nat "mixup" = None.
Proof. vm_compute. repeat split; eauto. Qed.

(** The schedule of the example: window [10, 20], original probability
    one half, [set_epoch] called for the epochs 0, 1, 2, ... in turn. *)
Example warm_up_schedule :
  let w := new_world (sample_fn [10; 20] true false) ∅ in
  let prob_at e :=
    mixup_prob (self (fst (set_epochs (consecutive 0 (S e)) w))) in
  Qeq_bool (prob_at 10%nat) (1 # 6) = true /\
  Qeq_bool (prob_at 11%nat) (1 # 3) = true /\
  forallb (fun e => Qeq_bool (prob_at e) (1 # 2))
          [12; 13; 14; 15; 16; 17; 18; 19]%nat = true.
Proof. vm_compute. repeat split. Qed.

(** Without the gradual introduction [set_epoch] leaves the probability
    alone. *)
Example no_warm_up_without_gradual_mixup :
  let w := new_world (sample_fn [10; 20] false false) ∅ in
  mixup_prob (self (fst (set_epoch 10 w))) = 1 # 2.
Proof. reflexivity. Qed.

(** C7, as stated, fails.  With the window [10, 11], epoch 11 satisfies
    [start <= epoch < start + 3] but is not below [end]: [set_epoch 11]
    leaves the probability at the 1/6 that [set_epoch 10] gave it, where
    the claim expects 1/3.  With the gradual introduction disabled and the
    window [10, 20], [set_epoch 10] leaves the probability at the original
    1/2, where the claim expects 1/6. *)
Lemma set_epoch_warm_up_counterexample :
  let w := fst (set_epoch 10 (new_world (sample_fn [10; 11] true false) ∅)) in
  let w' := new_world (sample_fn [10; 20] false false) ∅ in
  (window (self w) = Some (10, 11) /\ 10 <= 11 < 10 + 3 /\
   Qeq_bool (mixup_prob (self (fst (set_epoch 11 w)))) (1 # 6) = true /\
   Qeq_bool (mixup_prob (self (fst (set_epoch 11 w))))
            ((1 # 2) * inject_Z (11 - 10 + 1) / inject_Z 3) = false) /\
  (window (self w') = Some (10, 20) /\ 10 <= 10 < 10 + 3 /\
   mixup_prob (self (fst (set_epoch 10 w'))) = 1 # 2 /\
   Qeq_bool (mixup_prob (self (fst (set_epoch 10 w'))))
            ((1 # 2) * inject_Z (10 - 10 + 1) / inject_Z 3) = false).
Proof.
  cbn zeta. split.
  - split; [reflexivity|]. split; [lia|]. split; vm_compute; reflexivity.
  - split; [reflexivity|]. split; [lia|]. split; vm_compute; reflexivity.
Qed.

Lemma set_epoch_warm_up_probability_witness :
  let w := new_world (sample_fn [10; 20] true false) ∅ in
  let w' := new_world (sample_fn [10; 20] false false) ∅ in
  (mixup_prob (self (fst (set_epoch 10 w))) ==
   (1 # 2) * inject_Z (10 - 10 + 1) / inject_Z 3)%Q /\
  (mixup_prob (self (fst (set_epoch 15 w))) == 1 # 2)%Q /\
  mixup_prob (self (fst (set_epoch 25 w))) = mixup_prob (self w) /\
  mixup_prob (self (fst (set_epoch 10 w'))) = mixup_prob (self w').
Proof.
  intros w w'.
  assert (Hok : scheduler_ok (self w))
    by (split; [reflexivity|left; split; reflexivity]).
  assert (Hok' : scheduler_ok (self w'))
    by (split; [reflexivity|left; split; reflexivity]).
  split; [|split; [|split]].
  - refine (proj1 (proj1 (proj2 (proj2
              (set_epoch_warm_up_probability w 10 10 20 Hok eq_refl))) eq_refl _) _);
      lia.
  - refine (proj2 (proj1 (proj2 (proj2
              (set_epoch_warm_up_probability w 15 10 20 Hok eq_refl))) eq_refl _) _);
      lia.
  - apply (proj2 (proj2 (proj2
             (set_epoch_warm_up_probability w 25 10 20 Hok eq_refl)))).
    right. right. lia.
  - apply (proj2 (proj2 (proj2
             (set_epoch_warm_up_probability w' 10 10 20 Hok' eq_refl)))).
    left. reflexivity.
Defined.

Lemma set_epoch_repeated_call_witness :
  let w := new_world (sample_fn [10; 20] true false) ∅ in
  let out := stdout (fst (set_epochs (consecutive 0 30) w)) in
  let short := new_world (sample_fn [5] true false) ∅ in
  (count_events is_activating out = 1%nat /\
   count_events is_deactivating out = 1%nat) /\
  stdout (fst (set_epoch 10 (fst (set_epoch 10 w)))) =
    stdout (fst (set_epoch 10 w)) ++ [Print (MsgActivating 10)] /\
  stdout (fst (set_epoch 5 (fst (set_epoch 5 short)))) =
    stdout (fst (set_epoch 5 short)).
Proof.
  intros w out short. split; [|split].
  - exact (proj2 (set_epoch_repeated_call w 0) 0 30%nat 10 20 eq_refl).
  - destruct (proj1 (set_epoch_repeated_call w 10)) as (_ & _ & _ & _ & _ & H).
    apply (H 10 20); [cbn; lia|reflexivity|reflexivity].
  - destruct (proj1 (set_epoch_repeated_call short 5)) as (_ & _ & _ & _ & H & _).
    apply H. cbn. lia.
Defined.

Lemma apply_mixup_inactive_unchanged_witness :
  let env := sample_env 0 None in
  let w := sample_world (sample_fn [10; 20] true false) 25
             (<[0%nat := sample_target 7]> ∅) in
  let r := apply_mixup env 0%nat [0%nat] w in
  snd r = inr (0%nat, [0%nat]) /\ dicts (fst r) = dicts w /\ tensors (fst r) = tensors w.
Proof.
  intros env w.
  refine (proj1 (apply_mixup_inactive_unchanged env w 0%nat [0%nat] 10 20 _ _) _).
  - reflexivity.
  - reflexivity.
  - right. left. intros H. vm_compute in H. discriminate H.
Defined.

Lemma apply_mixup_empty_window_witness :
  let env := sample_env 0 None in
  let w := sample_world (sample_fn [] true false) 12
             (<[0%nat := sample_target 7]> ∅) in
  snd (call env [([1; 2]%Q, 0%nat)] w) = inl (IndexError "list index out of range").
Proof.
  intros env w.
  refine (proj2 (apply_mixup_empty_window env w 0%nat [] _) [1; 2]%Q 0%nat _);
    reflexivity.
Defined.

Lemma apply_mixup_blends_with_predecessor_witness :
  let env := sample_env 0 None in
  let w := with_tensors [[[1; 2]%Q; [3; 4]%Q]]
             (sample_world (sample_fn [10; 20] true false) 12
                (<[0%nat := sample_target 7]> (<[1%nat := sample_target 8]> ∅))) in
  exists t', tensors (fst (apply_mixup env 0%nat [0%nat; 1%nat] w)) !! 0%nat = Some t' /\
             length t' = 2%nat.
Proof.
  intros env w.
  destruct (apply_mixup_blends_with_predecessor env w 0%nat [0%nat; 1%nat]
              [[1; 2]%Q; [3; 4]%Q]) as (_ & _ & t' & Ht & Hlen & _).
  - apply sample_env_no_faults.
  - exists 10, 20. split; [reflexivity|]. split; [reflexivity|].
    split; [reflexivity|].
    split; [intros H; vm_compute in H; discriminate H|vm_compute; reflexivity].
  - apply annotatedb_spec. reflexivity.
  - reflexivity.
  - cbn. lia.
  - exists t'. split; assumption.
Defined.


Lemma collate_masks_unsupported_witness :
  let env := sample_env 1 None in
  let d := <[0%nat := <["masks" := [[1%Q]]]> (sample_target 7)]>
             (<[1%nat := <["masks" := [[1%Q]]]> (sample_target 8)]> ∅) in
  let w := sample_world (sample_fn [10; 20] true true) 12 d in
  snd (call env [([1; 2]%Q, 0%nat); ([3; 4]%Q, 1%nat)] w) =
    inl (NotImplementedError "").
Proof.
  intros env d w.
  refine (proj2 (collate_masks_unsupported env
                   [([1; 2]%Q, 0%nat); ([3; 4]%Q, 1%nat)] w
                   (generate_scales 640 4) 0%nat _ _ _ _) _ _ _ _ _ _).
  - reflexivity.
  - reflexivity.
  - reflexivity.
  - vm_compute. eauto.
  - apply sample_env_no_faults.
  - reflexivity.
  - vm_compute. eauto.
  - apply annotatedb_spec. reflexivity.
  - discriminate.
  - apply Forall_forall. repeat constructor; vm_compute; eauto.
Defined.

Lemma collate_failure_handling_witness :
  let env := sample_env 0 (Some 9%nat) in
  let d := <[0%nat := sample_target 7]> (<[1%nat := sample_target 8]> ∅) in
  let w := sample_world (sample_fn [10; 20] true false) 12 d in
  let r := call env [([1; 2]%Q, 0%nat); ([3; 4]%Q, 1%nat)] w in
  snd r = inl cuda_oom /\
  count_events is_oom_notice (stdout (fst r)) = 1%nat.
Proof.
  intros env d w r.
  destruct (proj1 (collate_failure_handling env
                     [([1; 2]%Q, 0%nat); ([3; 4]%Q, 1%nat)] w) cuda_oom)
    as (H1 & _ & _ & _ & H5 & _).
  - vm_compute. reflexivity.
  - split; [exact H1|exact (proj2 (H5 eq_refl))].
Defined.

(** * More on the scale set *)

Lemma five_quarters (b : Z) :
  (inject_Z b * (125 # 100) / (32 # 1) == (5 * b) # 128)%Q.
Proof.
  unfold Qeq, Qdiv, Qmult, Qinv, inject_Z. simpl. lia.
Qed.

Lemma elem_of_range (n i : Z) : i ∈ range n <-> 0 <= i < n.
Proof.
  unfold range. rewrite list_elem_of_In, in_map_iff. split.
  - intros (k & <- & Hk). apply in_seq in Hk. lia.
  - intros H. exists (Z.to_nat i). split; [lia|]. apply in_seq. lia.
Qed.

(** The scale set in integer arithmetic: [low] and [high] are the
    multiples of 32 below three quarters and five quarters of the base. *)
Lemma generate_scales_integer (base r : Z) :
  generate_scales base r =
  map (fun i => 3 * base / 128 * 32 + 32 * i)
      (range ((base - 3 * base / 128 * 32) / 32)) ++
  list_repeat base r ++
  map (fun i => 5 * base / 128 * 32 - 32 * i)
      (range ((base - 3 * base / 128 * 32) / 32)).
Proof.
  rewrite generate_scales_refines. unfold generate_scales_spec.
  rewrite Qfloor_three_quarters.
  rewrite (Qfloor_scaled base 5 128 _ (five_quarters base)). reflexivity.
Qed.

(** What a scale is: a rising one, the base, or a falling one. *)
Lemma elem_of_generate_scales (base r s : Z) :
  s ∈ generate_scales base r ->
  let low := 3 * base / 128 * 32 in
  let step := (base - low) / 32 in
  (exists i, 0 <= i < step /\ s = low + 32 * i) \/
  (s = base /\ 0 < r) \/
  (exists i, 0 <= i < step /\ s = 5 * base / 128 * 32 - 32 * i).
Proof.
  rewrite generate_scales_integer. cbn zeta. intros H.
  apply elem_of_app in H. destruct H as [H|H]; [left|].
  { apply list_elem_of_In, in_map_iff in H. destruct H as (i & <- & Hi).
    exists i. split; [|reflexivity]. apply elem_of_range, list_elem_of_In, Hi. }
  apply elem_of_app in H. destruct H as [H|H]; right; [left|right].
  { unfold list_repeat in H. split.
    - apply list_elem_of_In, repeat_spec in H. exact H.
    - destruct (Z.to_nat r) eqn:E; [inversion H|lia]. }
  apply list_elem_of_In, in_map_iff in H. destruct H as (i & <- & Hi).
  exists i. split; [|reflexivity]. apply elem_of_range, list_elem_of_In, Hi.
Qed.

Lemma generate_scales_within (base r s : Z) :
  0 <= base -> s ∈ generate_scales base r ->
  3 * base - 128 < 4 * s <= 5 * base /\ (s = base \/ (32 | s)).
Proof.
  intros Hb Hs. apply elem_of_generate_scales in Hs. cbn zeta in Hs.
  pose proof (Z.mul_div_le (3 * base) 128 ltac:(lia)) as Hq1.
  pose proof (Z.mul_succ_div_gt (3 * base) 128 ltac:(lia)) as Hq2.
  pose proof (Z.mul_div_le (5 * base) 128 ltac:(lia)) as Hh1.
  pose proof (Z.mul_succ_div_gt (5 * base) 128 ltac:(lia)) as Hh2.
  set (q := 3 * base / 128) in *. set (h := 5 * base / 128) in *.
  pose proof (Z.mul_div_le (base - q * 32) 32 ltac:(lia)) as Hs1.
  pose proof (Z.mul_succ_div_gt (base - q * 32) 32 ltac:(lia)) as Hs2.
  set (step := (base - q * 32) / 32) in *.
  destruct Hs as [(i & Hi & ->)|[[-> _]|(i & Hi & ->)]].
  - split; [lia|]. right. exists (q + i). lia.
  - split; [lia|]. left. reflexivity.
  - split; [lia|]. right. exists (h - i). lia.
Qed.

(** X1.  For a base size that is not negative, every scale of
    [generate_scales] lies between three quarters of the base less 32
    (exclusive) and five quarters of the base (inclusive). *)
Theorem generate_scales_bounds (base base_size_repeat : Z) :
  0 <= base ->
  Forall (fun s => 3 * base - 128 < 4 * s <= 5 * base)
         (generate_scales base base_size_repeat).
Proof.
  intros Hb. apply Forall_forall. intros s Hs.
  apply (generate_scales_within base base_size_repeat s Hb Hs).
Qed.

Lemma generate_scales_bounds_witness :
  Forall (fun s => 3 * 640 - 128 < 4 * s <= 5 * 640) (generate_scales 640 4).
Proof. apply (generate_scales_bounds 640 4). lia. Defined.

(** X2.  Every scale of [generate_scales] other than the base size itself
    is a multiple of 32, whatever the arguments; so the whole scale set
    consists of multiples of 32 exactly when the base size is one or is
    not repeated. *)
Theorem generate_scales_multiples_of_32 (base base_size_repeat : Z) :
  Forall (fun s => s = base \/ (32 | s)) (generate_scales base base_size_repeat) /\
  (Forall (fun s => (32 | s)) (generate_scales base base_size_repeat) <->
   (32 | base) \/ base_size_repeat <= 0).
Proof.
  assert (Hall : Forall (fun s => s = base \/ (32 | s))
                        (generate_scales base base_size_repeat)).
  { apply Forall_forall. intros s Hs.
    apply elem_of_generate_scales in Hs. cbn zeta in Hs.
    destruct Hs as [(i & Hi & ->)|[[-> _]|(i & Hi & ->)]].
    - right. exists (3 * base / 128 + i). lia.
    - left. reflexivity.
    - right. exists (5 * base / 128 - i). lia. }
  split; [exact Hall|]. split.
  - intros H. destruct (Z_le_gt_dec base_size_repeat 0) as [Hr|Hr]; [right; exact Hr|].
    left. rewrite Forall_forall in H. apply H.
    rewrite generate_scales_integer.
    apply elem_of_app. right. apply elem_of_app. left.
    unfold list_repeat. replace (Z.to_nat base_size_repeat)
      with (S (Z.to_nat (base_size_repeat - 1))) by lia.
    left.
  - intros [Hd|Hr].
    + eapply Forall_impl; [exact Hall|]. intros s [->|Hs]; assumption.
    + apply Forall_forall. intros s Hs.
      apply elem_of_generate_scales in Hs. cbn zeta in Hs.
      destruct Hs as [(i & Hi & ->)|[[_ Hpos]|(i & Hi & ->)]]; [|lia|].
      * exists (3 * base / 128 + i). lia.
      * exists (5 * base / 128 - i). lia.
Qed.

(** X3.  For a base size that is a multiple of 128 (such as the default
    640) the scale set has the closed form: [base / 128] scales rising by 32
    from three quarters of the base, the base repeated, and [base / 128]
    scales falling by 32 from five quarters of the base; its length is
    [2 * (base / 128)] plus the number of repetitions. *)
Theorem generate_scales_multiple_of_128 (k base_size_repeat : Z) :
  0 <= k ->
  generate_scales (128 * k) base_size_repeat =
    map (fun i => 96 * k + 32 * i) (range k) ++
    list_repeat (128 * k) base_size_repeat ++
    map (fun i => 160 * k - 32 * i) (range k) /\
  length (generate_scales (128 * k) base_size_repeat) =
    (2 * Z.to_nat k + Z.to_nat base_size_repeat)%nat.
Proof.
  intros Hk.
  assert (H : generate_scales (128 * k) base_size_repeat =
              map (fun i => 96 * k + 32 * i) (range k) ++
              list_repeat (128 * k) base_size_repeat ++
              map (fun i => 160 * k - 32 * i) (range k)).
  { rewrite generate_scales_integer.
    replace (3 * (128 * k) / 128) with (3 * k)
      by (apply Z.div_unique_exact; lia).
    replace (5 * (128 * k) / 128) with (5 * k)
      by (apply Z.div_unique_exact; lia).
    replace ((128 * k - 3 * k * 32) / 32) with k
      by (apply Z.div_unique_exact; lia).
    f_equal; [|f_equal]; apply map_ext; intros i; lia. }
  split; [exact H|]. rewrite H.
  unfold range, list_repeat.
  rewrite !length_app, !length_map, !length_seq, repeat_length. lia.
Qed.

Lemma generate_scales_multiple_of_128_witness :
  generate_scales (128 * 5) 4 =
    map (fun i => 96 * 5 + 32 * i) (range 5) ++ list_repeat (128 * 5) 4 ++
    map (fun i => 160 * 5 - 32 * i) (range 5) /\
  length (generate_scales (128 * 5) 4) = (2 * Z.to_nat 5 + Z.to_nat 4)%nat.
Proof. apply (generate_scales_multiple_of_128 5 4). lia. Defined.

(** X4.  Scales that are not sizes: for a base size from 32 to 42 the
    first scale is 0, and for a base size below 32 there is no rising or
    falling scale at all, so that without repetitions the scale set is
    empty; from 43 on every scale is positive. *)
Theorem generate_scales_degenerate (base base_size_repeat : Z) :
  (32 <= base <= 42 -> head (generate_scales base base_size_repeat) = Some 0) /\
  (0 <= base < 32 ->
   generate_scales base base_size_repeat = list_repeat base base_size_repeat) /\
  (43 <= base -> Forall (fun s => 0 < s) (generate_scales base base_size_repeat)).
Proof.
  split; [|split].
  - intros Hb. rewrite generate_scales_integer.
    replace (3 * base / 128) with 0 by (symmetry; apply Z.div_small; lia).
    replace ((base - 0 * 32) / 32) with 1
      by (apply (Z.div_unique _ _ _ (base - 32)); lia).
    reflexivity.
  - intros Hb. rewrite generate_scales_integer.
    replace (3 * base / 128) with 0 by (symmetry; apply Z.div_small; lia).
    replace ((base - 0 * 32) / 32) with 0 by (symmetry; apply Z.div_small; lia).
    cbn [range Z.to_nat seq map app]. apply app_nil_r.
  - intros Hb. apply Forall_forall. intros s Hs.
    destruct (generate_scales_within base base_size_repeat s ltac:(lia) Hs) as [H _].
    lia.
Qed.

Lemma generate_scales_degenerate_witness :
  head (generate_scales 32 4) = Some 0 /\
  generate_scales 16 0 = [] /\
  Forall (fun s => 0 < s) (generate_scales 640 4).
Proof.
  split; [|split].
  - apply (proj1 (generate_scales_degenerate 32 4)). lia.
  - apply (proj1 (proj2 (generate_scales_degenerate 16 0))). lia.
  - apply (proj2 (proj2 (generate_scales_degenerate 640 4))). lia.
Defined.

(** * What holds over any sequence of method calls *)

#[export] Instance latch_preorder : PreOrder latch.
Proof.
  split.
  - intros w. left. split; reflexivity.
  - intros w1 w2 w3 [[Hc Hf]|(Hf & Hf' & Hc)] [[Hc' Hg]|(Hg & Hg' & Hc')].
    + left. split; congruence.
    + right. repeat split; congruence.
    + right. repeat split; congruence.
    + congruence.
Qed.

#[export] Instance events_kept_preorder p : PreOrder (events_kept p).
Proof.
  split; [intros w; reflexivity|].
  intros w1 w2 w3 H12 H23. unfold events_kept in *. congruence.
Qed.

#[export] Instance draws_kept_preorder : PreOrder draws_kept.
Proof.
  split; [intros w; reflexivity|].
  intros w1 w2 w3 H12 H23. unfold draws_kept in *. congruence.
Qed.

(** A handler that keeps [R] after a block that keeps [R]. *)
Lemma follows_call (R : world -> world -> Prop) `{!PreOrder R}
    (env : environment) (items : list (row * loc)) :
  follows R (call_body env items) -> (forall e, follows R (handler e)) ->
  follows R (call env items).
Proof.
  intros Hb Hh w. unfold call. specialize (Hb w).
  destruct (call_body env items w) as [w' [e|r]]; cbn [fst] in *; [|exact Hb].
  etransitivity; [exact Hb|]. unfold bind. specialize (Hh e w').
  destruct (handler e w') as [w'' [e'|u]]; exact Hh.
Qed.

Ltac latch_leaf :=
  leaf_step; left;
  cbn [stdout self with_stdout with_self with_dicts with_tensors with_draws
       with_ops print_info_flag with_epoch with_mixup_prob];
  (split; [rewrite ?count_events_app; cbn; lia|reflexivity]).

Lemma closing_notice_latch : follows latch closing_notice.
Proof.
  intros w. unfold closing_notice, bind, get_self, getitem_last, print, emit,
    modify_self, ret, raise.
  destruct (last (mixup_epochs (self w))) as [end_|]; cbn [fst];
    [|reflexivity].
  destruct (epoch (self w) =? end_); cbn [andb fst]; [|reflexivity].
  destruct (print_info_flag (self w)) eqn:Hf; cbn [fst]; [|reflexivity].
  right. cbn. rewrite Hf, count_events_app. cbn. repeat split. lia.
Qed.

Section Latch.
Variable env : environment.

Lemma apply_mixup_latch images targets : follows latch (apply_mixup env images targets).
Proof.
  unfold apply_mixup, mixup_condition, random_uniform, blend_images, merge_targets,
    merge_target, extend_entry, visualise, tensor_roll, tensor_mul_, tensor_add_,
    torch_tensor, torch_cat, getitem_first, getitem_last.
  follows_from ltac:(apply closing_notice_latch) latch_leaf.
Qed.

Lemma call_latch items : follows latch (call env items).
Proof.
  apply follows_call; [typeclasses eauto| |].
  - unfold call_body, release_before_transition, stack_images, multi_scale_resize,
      resize_masks, F_interpolate, random_choice, getitem_first.
    follows_from ltac:(apply apply_mixup_latch) latch_leaf.
  - intros e. unfold handler, getitem_first, getitem_last.
    follows_from ltac:(fail) latch_leaf.
Qed.

Lemma set_epoch_latch e : follows latch (set_epoch e).
Proof.
  intros w. rewrite set_epoch_unfold. left. cbn. split; [|reflexivity].
  rewrite !count_events_app.
  assert (H1 : count_events is_closing_notice (boundary_notice e (self w)) = 0%nat).
  { unfold boundary_notice. destruct (window (self w)) as [[a b]|]; [|reflexivity].
    destruct (e =? a); [reflexivity|]. destruct (e =? b); reflexivity. }
  assert (H2 : count_events is_closing_notice (prob_notice e (self w)) = 0%nat).
  { unfold prob_notice. destruct (target_prob e (self w)); [|reflexivity].
    destruct (Qeq_bool _ _); [reflexivity|]. destruct (_ <? _); reflexivity. }
  rewrite H1, H2. lia.
Qed.

Lemma invoke_latch m : follows latch (invoke env m).
Proof.
  destruct m as [e|images targets|items]; cbn [invoke].
  - apply set_epoch_latch.
  - apply follows_bind; [typeclasses eauto|apply apply_mixup_latch|].
    intros r. apply follows_ret. typeclasses eauto.
  - apply follows_bind; [typeclasses eauto|apply call_latch|].
    intros r. apply follows_ret. typeclasses eauto.
Qed.

Lemma session_latch ms : forall w, latch w (session env ms w).
Proof.
  induction ms as [|m ms IH]; intros w; cbn [session]; [reflexivity|].
  etransitivity; [apply invoke_latch|apply IH].
Qed.

End Latch.

(** X5.  The notice that mixup is closed is written at most once in the
    life of the object: over any sequence of [set_epoch], [apply_mixup] and
    [__call__], whatever they return or raise, at most one such notice is
    added to the output, none is added once [print_info_flag] is cleared,
    and the flag is never set again. *)
Theorem closing_notice_at_most_once (env : environment) (ms : list method)
    (w : world) :
  let n := count_events is_closing_notice (stdout w) in
  let w' := session env ms w in
  let n' := count_events is_closing_notice (stdout w') in
  (n <= n' <= n + 1)%nat /\
  (print_info_flag (self w) = false ->
   n' = n /\ print_info_flag (self w') = false) /\
  (n' = S n -> print_info_flag (self w') = false).
Proof.
  cbn zeta. destruct (session_latch env ms w) as [[Hc Hf]|(Hf & Hf' & Hc)].
  - rewrite Hc, Hf. split; [lia|]. split; [intros H; split; [reflexivity|exact H]|].
    intros H. lia.
  - rewrite Hc, Hf, Hf'. split; [lia|]. split; [discriminate|reflexivity].
Qed.

Lemma closing_notice_at_most_once_witness :
  let env := sample_env 0 None in
  let w := new_world (sample_fn [10; 20] true false) ∅ in
  let ms := [SetEpoch 20; ApplyMixup 0%nat []; ApplyMixup 0%nat []; SetEpoch 20;
             ApplyMixup 0%nat []] in
  count_events is_closing_notice (stdout (session env ms w)) = 1%nat /\
  print_info_flag (self (session env ms w)) = false.
Proof.
  intros env w ms. split; [vm_compute; reflexivity|].
  apply (proj2 (proj2 (closing_notice_at_most_once env ms w))).
  vm_compute. reflexivity.
Defined.

Lemma fst_bind_ret_any {A B} (m : M A) (b : B) (w : world) :
  fst ((_ <- m ;; ret b) w) = fst (m w).
Proof. unfold bind. destruct (m w) as [w' [e|a]]; reflexivity. Qed.

(** What a method other than [set_epoch] leaves of the object: all but
    [print_info_flag]. *)
Lemma call_self (env : environment) (items : list (row * loc)) (w : world) :
  with_print_info_flag true (self (fst (call env items w))) =
  with_print_info_flag true (self w).
Proof.
  pose proof (config_kept _ _ (call_body_evolves env items w)) as Hb.
  unfold call. destruct (call_body env items w) as [w' [e|r]]; [|exact Hb].
  unfold bind. rewrite handler_run. exact Hb.
Qed.

Lemma invoke_self (env : environment) (m : method) (w : world) :
  self (fst (invoke env m w)) =
  match m with
  | SetEpoch e => with_mixup_prob (next_prob e (self w)) (with_epoch e (self w))
  | _ => self (fst (invoke env m w))
  end /\
  match m with
  | SetEpoch _ => True
  | _ => with_print_info_flag true (self (fst (invoke env m w))) =
         with_print_info_flag true (self w)
  end.
Proof.
  destruct m as [e|images targets|items]; cbn [invoke].
  - split; [apply set_epoch_self|exact I].
  - split; [reflexivity|]. rewrite fst_bind_ret_any.
    apply (config_kept _ _ (apply_mixup_evolves env images targets w)).
  - split; [reflexivity|]. rewrite fst_bind_ret_any. apply call_self.
Qed.

Lemma flag_apart (s s' : collate_fn) :
  with_print_info_flag true s' = with_print_info_flag true s ->
  configuration s' = configuration s /\ epoch s' = epoch s /\
  mixup_prob s' = mixup_prob s.
Proof.
  intros H. split; [|split].
  - apply (f_equal configuration) in H. exact H.
  - apply (f_equal epoch) in H. exact H.
  - apply (f_equal mixup_prob) in H. exact H.
Qed.

Lemma invoke_configuration (env : environment) (m : method) (w : world) :
  configuration (self (fst (invoke env m w))) = configuration (self w) /\
  epoch (self (fst (invoke env m w))) =
    match m with SetEpoch e => e | _ => epoch (self w) end.
Proof.
  destruct (invoke_self env m w) as [H1 H2].
  destruct m as [e|images targets|items].
  - rewrite H1. split; reflexivity.
  - destruct (flag_apart _ _ H2) as (Hc & He & _). split; assumption.
  - destruct (flag_apart _ _ H2) as (Hc & He & _). split; assumption.
Qed.

Lemma session_configuration (env : environment) (ms : list method) :
  forall w : world,
  configuration (self (session env ms w)) = configuration (self w) /\
  epoch (self (session env ms w)) = latest_epoch ms (epoch (self w)).
Proof.
  induction ms as [|m ms IH]; intros w; cbn [session latest_epoch].
  - split; reflexivity.
  - destruct (IH (fst (invoke env m w))) as [IH1 IH2].
    destruct (invoke_configuration env m w) as [H1 H2].
    rewrite IH1, IH2, H1, H2. split; [reflexivity|].
    destruct m; reflexivity.
Qed.

(** X6.  Nothing but [__init__] configures the object: over any sequence
    of [set_epoch], [apply_mixup] and [__call__], whatever they return or
    raise, the base size, the scale set, the stop epoch, the window, the
    original probability and the other settings stay as they were, and the
    [epoch] property is the argument of the last [set_epoch] (the epoch
    before the sequence when there was none). *)
Theorem session_keeps_configuration (env : environment) (ms : list method)
    (w : world) :
  configuration (self (session env ms w)) = configuration (self w) /\
  epoch (self (session env ms w)) = latest_epoch ms (epoch (self w)).
Proof. apply session_configuration. Qed.

Lemma target_prob_bounded (e : Z) (s : collate_fn) (p : Q) :
  warm_up_epochs s = 3 -> (0 <= original_mixup_prob s)%Q ->
  target_prob e s = Some p ->
  (0 <= p)%Q /\ (p <= original_mixup_prob s)%Q.
Proof.
  unfold target_prob. intros Hw Ho H. rewrite Hw in H.
  destruct (gradual_mixup s && Qlt_bool 0 (mixup_prob s)); [|discriminate].
  destruct (window s) as [[a b]|]; [|discriminate].
  destruct ((a <=? e) && (e <? b)) eqn:Hin; [|discriminate].
  apply andb_true_iff in Hin. destruct Hin as [Ha Hb].
  apply Z.leb_le in Ha.
  destruct (Z.ltb_spec (e - a) 3) as [Hlt|Hge]; inversion H; subst;
    [|split; [exact Ho|apply Qle_refl]].
  set (f := (inject_Z (e - a + 1) / inject_Z 3)%Q).
  assert (Hf0 : (0 <= f)%Q).
  { subst f. unfold Qle, Qdiv, Qmult, inject_Z. simpl. lia. }
  assert (Hf1 : (f <= 1)%Q).
  { subst f. unfold Qle, Qdiv, Qmult, inject_Z. simpl. lia. }
  split; nra.
Qed.

Lemma set_epoch_prob_bounded (e : Z) (w : world) :
  prob_bounded (self w) -> prob_bounded (self (fst (set_epoch e w))).
Proof.
  intros (Hw & H0 & H1). rewrite set_epoch_self.
  split; [exact Hw|]. cbn [mixup_prob original_mixup_prob with_mixup_prob with_epoch].
  unfold next_prob.
  destruct (target_prob e (self w)) as [p|] eqn:Ht; [|split; assumption].
  destruct (Qeq_bool (mixup_prob (self w)) p); [split; assumption|].
  apply (target_prob_bounded e (self w) p Hw); [|exact Ht].
  eapply Qle_trans; eassumption.
Qed.

Lemma invoke_prob_bounded (env : environment) (m : method) (w : world) :
  prob_bounded (self w) -> prob_bounded (self (fst (invoke env m w))).
Proof.
  intros Hb. destruct (invoke_self env m w) as [_ H2].
  destruct m as [e|images targets|items]; [apply set_epoch_prob_bounded, Hb| |];
    destruct (flag_apart _ _ H2) as (Hc & _ & Hp); unfold prob_bounded in *;
    rewrite Hp;
    rewrite (f_equal (fun c => snd c) Hc
             : warm_up_epochs _ = warm_up_epochs (self w));
    rewrite (f_equal (fun c => snd (fst (fst (fst c)))) Hc
             : original_mixup_prob _ = original_mixup_prob (self w));
    exact Hb.
Qed.

Lemma session_prob_bounded (env : environment) (ms : list method) :
  forall w, prob_bounded (self w) -> prob_bounded (self (session env ms w)).
Proof.
  induction ms as [|m ms IH]; intros w Hb; cbn [session]; [exact Hb|].
  apply IH, invoke_prob_bounded, Hb.
Qed.

(** X7.  The effective mixup probability never leaves the interval from
    zero to the probability the object was constructed with: for an object
    built by [__init__] with a probability [p] that is not negative, after
    any sequence of [set_epoch], [apply_mixup] and [__call__], whatever
    they return or raise, [0 <= mixup_prob <= p], and the original
    probability is still [p]. *)
Theorem mixup_prob_within_original (env : environment) (ms : list method)
    (stop_epoch_arg : option Z) (ema_restart_decay_arg : Q) (base_size_arg : Z)
    (base_size_repeat_arg : option Z) (p : Q) (mixup_epochs_arg : list Z)
    (data_vis_arg : bool) (vis_save_arg : string) (gradual_mixup_arg : bool)
    (d : gmap loc (gmap string tensor)) :
  (0 <= p)%Q ->
  let s0 := fst (init stop_epoch_arg ema_restart_decay_arg base_size_arg
                      base_size_repeat_arg p mixup_epochs_arg data_vis_arg
                      vis_save_arg gradual_mixup_arg) in
  let s := self (session env ms (new_world s0 d)) in
  (0 <= mixup_prob s)%Q /\ (mixup_prob s <= p)%Q /\ original_mixup_prob s = p.
Proof.
  intros Hp s0 s.
  assert (Hb : prob_bounded (self (new_world s0 d))).
  { split; [reflexivity|]. split; [exact Hp|apply Qle_refl]. }
  destruct (session_prob_bounded env ms _ Hb) as (_ & H0 & H1).
  destruct (session_configuration env ms (new_world s0 d)) as [Hc _].
  assert (Ho : original_mixup_prob s = p).
  { apply (f_equal (fun c => snd (fst (fst (fst c))))) in Hc. exact Hc. }
  fold s in H0, H1. rewrite Ho in H1. auto.
Qed.

Lemma mixup_prob_within_original_witness :
  let env := sample_env 0 None in
  let d := <[0%nat := sample_target 7]> (<[1%nat := sample_target 8]> ∅) in
  let ms := [SetEpoch 10; Call [([1; 2]%Q, 0%nat); ([3; 4]%Q, 1%nat)]; SetEpoch 11] in
  let s := self (session env ms (new_world (sample_fn [10; 20] true false) d)) in
  (0 <= mixup_prob s)%Q /\ (mixup_prob s <= 1 # 2)%Q /\ original_mixup_prob s = 1 # 2.
Proof.
  intros env d ms.
  apply (mixup_prob_within_original env ms None (9999 # 10000) 640 None (1 # 2)
           [10; 20] false "./vis_dataset/" true d).
  unfold Qle. simpl. lia.
Defined.

(** * More on [__call__] and [batch_image_collate_fn] *)

Lemma with_stdout_nil (w : world) : with_stdout (stdout w ++ []) w = w.
Proof. destruct w. unfold with_stdout. cbn. rewrite app_nil_r. reflexivity. Qed.

Lemma release_before_transition_exact (env : environment) (w : world) :
  release_before_transition env w =
  (with_stdout (stdout w ++ release_events env (self w)) w, inr tt).
Proof.
  unfold release_before_transition, release_events, bind, get_self, getitem_first,
    gc_collect, cuda_empty_cache, emit, ret.
  destruct (mixup_epochs (self w)) as [|a [|b l]]; cbn -[Z.eqb Z.add].
  - rewrite with_stdout_nil. reflexivity.
  - rewrite with_stdout_nil. reflexivity.
  - destruct (epoch (self w) + 1 =? a); [|rewrite with_stdout_nil; reflexivity].
    destruct (cuda_is_available env); cbn; rewrite <- ?app_assoc; reflexivity.
Qed.

(** What [torch.cat] does with the images, in every case. *)
Lemma stack_images_cases (env : environment) (imgs : list row) (w : world) :
  (stackable imgs = true /\ faults env (ops w) = None /\
   stack_images env imgs w =
     (with_tensors (tensors w ++ [imgs]) (with_ops (S (ops w)) w),
      inr (length (tensors w)))) \/
  (stackable imgs = true /\ exists e, faults env (ops w) = Some e /\
   stack_images env imgs w = (with_ops (S (ops w)) w, inl e)) \/
  (stackable imgs = false /\
   stack_images env imgs w = (w, inl (cat_error env imgs))).
Proof.
  unfold stack_images, stackable. destruct imgs as [|x rest].
  - right. right. split; reflexivity.
  - destruct (forallb (fun y => length y =? length x)%nat rest).
    + unfold bind, tensor_op, tensor_new.
      destruct (faults env (ops w)) as [e|] eqn:Hf.
      * right. left. split; [reflexivity|]. exists e. split; reflexivity.
      * left. repeat split.
    + right. right. split; reflexivity.
Qed.

(** X8.  [batch_image_collate_fn] returns a new image batch whose rows
    are the items' images in order, together with the items' own target
    dictionaries in order, when there is at least one image and all have
    the same number of elements; for an empty batch and for images of
    different sizes it raises what [torch.cat] raises for them, whatever
    its class, and leaves the world as it was.  It never touches a
    dictionary, an existing batch, the collate object, the output or the
    random source. *)
Theorem batch_image_collate_fn_stacks (env : environment)
    (items : list (row * loc)) (w : world) :
  let r := batch_image_collate_fn env items w in
  (stackable (map fst items) = true -> faults env (ops w) = None ->
   snd r = inr (length (tensors w), map snd items) /\
   tensors (fst r) = tensors w ++ [map fst items]) /\
  (stackable (map fst items) = false ->
   r = (w, inl (cat_error env (map fst items)))) /\
  dicts (fst r) = dicts w /\ self (fst r) = self w /\
  stdout (fst r) = stdout w /\ draws (fst r) = draws w /\
  (forall l, (l < length (tensors w))%nat -> tensors (fst r) !! l = tensors w !! l).
Proof.
  cbn zeta. unfold batch_image_collate_fn, bind.
  destruct (stack_images_cases env (map fst items) w)
    as [(Hs & Hf & ->)|[(Hs & e & Hf & ->)|(Hs & ->)]]; cbn [fst snd].
  - split; [intros _ _; split; reflexivity|]. split; [congruence|].
    repeat split. intros l Hl. cbn. plain_types. apply lookup_app_l. exact Hl.
  - split; [congruence|]. split; [congruence|]. repeat split.
  - split; [congruence|]. split; [intros _; reflexivity|]. repeat split.
Qed.

Lemma batch_image_collate_fn_stacks_witness :
  let env := sample_env 0 None in
  let w := new_world (sample_fn [10; 20] true false) ∅ in
  let r := batch_image_collate_fn env [([1; 2]%Q, 0%nat); ([3; 4]%Q, 1%nat)] w in
  (snd r = inr (0%nat, [0%nat; 1%nat]) /\
   tensors (fst r) = [[[1; 2]%Q; [3; 4]%Q]]) /\
  batch_image_collate_fn env [] w =
    (w, inl (ValueError "torch.cat(): expected a non-empty list of Tensors")) /\
  batch_image_collate_fn env [([1; 2]%Q, 0%nat); ([3]%Q, 1%nat)] w =
    (w, inl (RuntimeError "Sizes of tensors must match except in dimension 0")).
Proof.
  intros env w. split; [|split].
  - apply (proj1 (batch_image_collate_fn_stacks env
                    [([1; 2]%Q, 0%nat); ([3; 4]%Q, 1%nat)] w)); reflexivity.
  - apply (proj1 (proj2 (batch_image_collate_fn_stacks env [] w))). reflexivity.
  - apply (proj1 (proj2 (batch_image_collate_fn_stacks env
                           [([1; 2]%Q, 0%nat); ([3]%Q, 1%nat)] w))).
    reflexivity.
Defined.

(** X9.  When the images cannot be stacked (the batch is empty, or two
    images differ in size), [__call__] raises what [torch.cat] raises for
    them, whatever its class, before anything else happens: no dictionary,
    image batch or attribute of the object is touched, no random number is
    drawn and no tensor operation is counted.  What has been written is the
    proactive release of memory, when it is due, followed by what the
    [except] clause writes for that exception: nothing, unless it is a
    [RuntimeError] whose text reports that CUDA is out of memory. *)
Theorem call_unstackable (env : environment) (items : list (row * loc))
    (w : world) :
  stackable (map fst items) = false ->
  let e := cat_error env (map fst items) in
  call env items w =
    (with_stdout (stdout w ++ release_events env (self w) ++
                  handler_events e (self w)) w, inl e) /\
  (is_cuda_oom e = false ->
   call env items w =
     (with_stdout (stdout w ++ release_events env (self w)) w, inl e)).
Proof.
  intros Hs e.
  assert (Hcall : call env items w =
            (with_stdout (stdout w ++ release_events env (self w) ++
                          handler_events e (self w)) w, inl e)).
  { unfold call, call_body.
    rewrite (bind_inr _ _ _ _ _ (release_before_transition_exact env w)).
    set (w1 := with_stdout _ w).
    destruct (stack_images_cases env (map fst items) w1)
      as [(Hs' & _)|[(Hs' & _)|(_ & Hrun)]]; [congruence|congruence|].
    rewrite (bind_inl _ _ _ _ _ Hrun). unfold bind. rewrite handler_run.
    cbn [fst snd]. subst w1. unfold with_stdout.
    cbn [self dicts tensors stdout draws ops]. rewrite <- app_assoc. reflexivity. }
  split; [exact Hcall|]. intros Hoom. rewrite Hcall.
  unfold handler_events. rewrite Hoom, app_nil_r. reflexivity.
Qed.

Lemma call_unstackable_witness :
  let env := sample_env 0 None in
  let w := sample_world (sample_fn [10; 20] true false) 12 ∅ in
  call env [] w =
    (with_stdout (stdout w ++ release_events env (self w)) w,
     inl (ValueError "torch.cat(): expected a non-empty list of Tensors")).
Proof.
  intros env w. apply (proj2 (call_unstackable env [] w eq_refl)). reflexivity.
Defined.

(** X10.  Without augmentation [__call__] is [batch_image_collate_fn]:
    when mixup is not applied (the epoch is outside the window, or the draw
    is not below the probability) and no resize is due (no scale set, or
    the epoch has reached [stop_epoch]), both return the same batch or
    raise the same exception, and leave the same dictionaries, the same
    image batches and the same count of tensor operations. *)
Theorem call_without_augmentation (env : environment) (items : list (row * loc))
    (w : world) (start end_ : Z) :
  head (mixup_epochs (self w)) = Some start ->
  last (mixup_epochs (self w)) = Some end_ ->
  epoch (self w) < start \/ end_ <= epoch (self w) \/
    Qlt_bool (random_floats env (draws w)) (mixup_prob (self w)) = false ->
  scales (self w) = None \/ stop_epoch (self w) <= epoch (self w) ->
  let r := call env items w in
  let r0 := batch_image_collate_fn env items w in
  snd r = snd r0 /\ dicts (fst r) = dicts (fst r0) /\
  tensors (fst r) = tensors (fst r0) /\ ops (fst r) = ops (fst r0).
Proof.
  intros Hh Hl Hskip Hoff. cbn zeta.
  unfold call, call_body, batch_image_collate_fn.
  rewrite (bind_inr _ _ _ _ _ (release_before_transition_exact env w)).
  set (w1 := with_stdout _ w).
  destruct (stack_images_cases env (map fst items) w)
    as [(Hs & Hf & Hrun0)|[(Hs & e & Hf & Hrun0)|(Hs & Hrun0)]];
  destruct (stack_images_cases env (map fst items) w1)
    as [(Hs1 & Hf1 & Hrun1)|[(Hs1 & e1 & Hf1 & Hrun1)|(Hs1 & Hrun1)]];
  try congruence; change (ops w1) with (ops w) in *; try congruence.
  - rewrite (bind_inr _ _ _ _ _ Hrun0), (bind_inr _ _ _ _ _ Hrun1). cbn zeta.
    set (w2 := with_tensors _ _).
    destruct (apply_mixup_skipped env w2 (length (tensors w1)) (map snd items)
                start end_ Hh Hl Hskip) as (b & out & Hrun2).
    rewrite (bind_inr _ _ _ _ _ Hrun2). cbn [fst snd].
    rewrite multi_scale_resize_off by exact Hoff.
    repeat split.
  - rewrite (bind_inl _ _ _ _ _ Hrun0), (bind_inl _ _ _ _ _ Hrun1).
    unfold bind. rewrite handler_run. cbn [fst snd].
    assert (e1 = e) by congruence. subst e1. repeat split.
  - rewrite (bind_inl _ _ _ _ _ Hrun0), (bind_inl _ _ _ _ _ Hrun1).
    unfold bind. rewrite handler_run. cbn [fst snd].
    repeat split.
Qed.

Lemma call_without_augmentation_witness :
  let env := sample_env 0 None in
  let d := <[0%nat := sample_target 7]> (<[1%nat := sample_target 8]> ∅) in
  let w := sample_world (sample_fn [10; 20] true false) 25 d in
  let items := [([1; 2]%Q, 0%nat); ([3; 4]%Q, 1%nat)] in
  let r := call env items w in
  let r0 := batch_image_collate_fn env items w in
  snd r = snd r0 /\ dicts (fst r) = dicts (fst r0) /\
  tensors (fst r) = tensors (fst r0) /\ ops (fst r) = ops (fst r0).
Proof.
  intros env d w items.
  apply (call_without_augmentation env items w 10 20).
  - reflexivity.
  - reflexivity.
  - right. left. intros H. vm_compute in H. discriminate H.
  - left. reflexivity.
Defined.

(** When the test succeeds, [apply_mixup] is the blend, the merge and the
    visualisation, run after the two draws. *)
Lemma apply_mixup_start (env : environment) (images : loc) (targets : list loc)
    (w : world) :
  mixup_applies env w ->
  exists b out,
    (b = false \/ b = print_info_flag (self w)) /\
    count_events is_save_image out = 0%nat /\
    apply_mixup env images targets w =
    (blend_images env images (drawn_beta env w) ;;;
     merge_targets env (drawn_beta env w) targets ;;;
     s <- get_self ;;
     (if data_vis s then
        for_each (seq 0 (Nat.min 2 (length targets))) (visualise env images targets)
      else ret tt) ;;;
     ret (images, targets))
    (with_draws (S (S (draws w)))
       (with_self (with_print_info_flag b) (with_stdout (stdout w ++ out) w))).
Proof.
  intros (start & end_ & Hh & Hl & Hdraw & Hwin).
  assert (Hrun : exists b out,
    (b = false \/ b = print_info_flag (self w)) /\
    count_events is_save_image out = 0%nat /\
    closing_notice w =
    (with_self (with_print_info_flag b) (with_stdout (stdout w ++ out) w), inr tt)).
  { unfold closing_notice, bind, get_self, getitem_last. rewrite Hl.
    cbn [ret]. destruct ((epoch (self w) =? end_) && print_info_flag (self w)).
    - exists false, [Print (MsgMixupClosed (epoch (self w)))]. auto.
    - exists (print_info_flag (self w)), []. split; [auto|]. split; [reflexivity|].
      unfold ret. f_equal. destruct w as [s d t o dr op]. destruct s.
      cbn. rewrite app_nil_r. reflexivity. }
  destruct Hrun as (b & out & Hb & Hout & Hrun).
  exists b, out. split; [exact Hb|]. split; [exact Hout|].
  unfold apply_mixup. rewrite (bind_inr _ _ _ _ _ Hrun).
  set (w1 := with_self _ _).
  rewrite (bind_inr _ _ _ _ _ (mixup_condition_run env w1 start end_ Hh Hl)).
  change (mixup_prob (self w1)) with (mixup_prob (self w)).
  change (epoch (self w1)) with (epoch (self w)).
  change (draws w1) with (draws w).
  rewrite Hdraw, (proj2 (Z.leb_le _ _)), (proj2 (Z.ltb_lt _ _)) by lia.
  cbn [andb]. reflexivity.
Qed.

(** X11.  A target without its boxes stops an applied mixup half way:
    when the test of [apply_mixup] succeeds and the first target has no
    ['boxes'] entry, [apply_mixup] raises [KeyError('boxes')]; no dictionary
    has been changed, but the image batch has already been blended in
    place. *)
Theorem apply_mixup_missing_boxes (env : environment) (images : loc)
    (r0 : loc) (rest : list loc) (t : tensor) (w : world) :
  no_faults env ->
  mixup_applies env w ->
  tensors w !! images = Some t ->
  entry w r0 "boxes" = None ->
  let r := apply_mixup env images (r0 :: rest) w in
  snd r = inl (KeyError "boxes") /\
  dicts (fst r) = dicts w /\
  tensors (fst r) !! images = Some (blend (drawn_beta env w) t).
Proof.
  intros Hnf Happ Ht Hbox. cbn zeta.
  destruct (apply_mixup_start env images (r0 :: rest) w Happ)
    as (b & out & _ & _ & ->).
  set (w2 := with_draws _ _).
  destruct (blend_images_wp env Hnf images (drawn_beta env w) t w2 Ht)
    as (u & Hu & Hs3 & Hd3 & Hdr3 & Hb3 & _).
  destruct (blend_images env images (drawn_beta env w) w2) as [w3 [e|u']] eqn:Hrun;
    cbn [fst snd] in *; [discriminate Hu|].
  assert (Hmerge : merge_targets env (drawn_beta env w) (r0 :: rest) w3 =
                   (w3, inl (KeyError "boxes"))).
  { unfold merge_targets. cbn zeta.
    destruct (lookup_lt_is_Some_2 (roll1 (r0 :: rest)) 0) as [si Hsi];
      [rewrite length_roll1; cbn; lia|].
    cbn [length seq for_each]. unfold merge_target at 1.
    unfold bind, getitem_nth. cbn [lookup list_lookup]. rewrite Hsi.
    cbn [ret]. unfold extend_entry, bind, dict_getitem.
    change (dicts w3 !! r0 ≫= (fun d => d !! "boxes")) with (entry w3 r0 "boxes").
    unfold entry. rewrite Hd3. fold (entry w2 r0 "boxes").
    change (entry w2 r0 "boxes") with (entry w r0 "boxes"). rewrite Hbox.
    reflexivity. }
  rewrite (bind_inr _ _ _ _ _ Hrun), (bind_inl _ _ _ _ _ Hmerge). cbn [fst snd].
  split; [reflexivity|]. split; [exact Hd3|exact Hb3].
Qed.

Lemma apply_mixup_missing_boxes_witness :
  let env := sample_env 0 None in
  let w := with_tensors [[[1; 2]%Q; [3; 4]%Q]]
             (sample_world (sample_fn [10; 20] true false) 12
                (<[1%nat := sample_target 8]> ∅)) in
  let r := apply_mixup env 0%nat [0%nat; 1%nat] w in
  snd r = inl (KeyError "boxes") /\
  dicts (fst r) = dicts w /\
  tensors (fst r) !! 0%nat = Some (blend (drawn_beta env w) [[1; 2]%Q; [3; 4]%Q]).
Proof.
  intros env w.
  apply (apply_mixup_missing_boxes env 0%nat 0%nat [1%nat] [[1; 2]%Q; [3; 4]%Q] w).
  - apply sample_env_no_faults.
  - exists 10, 20. split; [reflexivity|]. split; [reflexivity|].
    split; [reflexivity|].
    split; [intros H; vm_compute in H; discriminate H|vm_compute; reflexivity].
  - reflexivity.
  - reflexivity.
Defined.

(** * What [__call__] writes, and where *)

#[export] Instance writes_within_preorder targets keys :
  PreOrder (writes_within targets keys).
Proof.
  split; [intros w r key _; reflexivity|].
  intros w1 w2 w3 H12 H23 r key H. rewrite (H23 r key H). apply H12, H.
Qed.

#[export] Instance batches_kept_preorder n : PreOrder (batches_kept n).
Proof.
  split; [intros w H; split; [exact H|reflexivity]|].
  intros w1 w2 w3 H12 H23 H1. destruct (H12 H1) as [H2 E12].
  destruct (H23 H2) as [H3 E23]. split; [exact H3|congruence].
Qed.

Lemma writes_within_frame targets keys (w w' : world) :
  dicts w' = dicts w -> writes_within targets keys w w'.
Proof. intros H r key _. unfold entry. rewrite H. reflexivity. Qed.

Lemma writes_within_setitem targets keys (w : world) r key v :
  r ∈ targets -> key ∈ keys ->
  writes_within targets keys w
    (with_dicts (<[r := <[key := v]> (default ∅ (dicts w !! r))]> (dicts w)) w).
Proof.
  intros Hr Hk r' key' H. rewrite entry_setitem.
  case_decide as Hd; [|reflexivity]. destruct Hd as [-> ->].
  destruct H; contradiction.
Qed.

Lemma batches_kept_frame n (w w' : world) :
  tensors w' = tensors w -> batches_kept n w w'.
Proof. intros H Hn. rewrite H. split; [exact Hn|reflexivity]. Qed.

Lemma batches_kept_new n (w : world) (t : tensor) :
  batches_kept n w (with_tensors (tensors w ++ [t]) w).
Proof.
  intros Hn. cbn [tensors with_tensors]. rewrite length_app. split; [lia|].
  apply take_app_le, Hn.
Qed.

Lemma batches_kept_store n (w : world) (l : loc) (t : tensor) :
  (n <= l)%nat -> batches_kept n w (with_tensors (<[l := t]> (tensors w)) w).
Proof.
  intros Hl Hn. cbn [tensors with_tensors]. rewrite length_insert.
  split; [exact Hn|]. apply take_insert_ge, Hl.
Qed.

Lemma follows_bind_ret {A B} (R : world -> world -> Prop) (a : A) (k : A -> M B) :
  follows R (k a) -> follows R (bind (ret a) k).
Proof. intros H w. apply H. Qed.

Lemma follows_bind_raise {A B} (R : world -> world -> Prop) `{!PreOrder R}
    (e : exn) (k : A -> M B) :
  follows R (bind (raise e) k).
Proof. intros w. cbn. reflexivity. Qed.

Lemma follows_for_each_elem {A} (R : world -> world -> Prop) `{!PreOrder R}
    (l : list A) (body : A -> M unit) :
  (forall x, x ∈ l -> follows R (body x)) -> follows R (for_each l body).
Proof.
  induction l as [|x l IH]; intros Hb; cbn [for_each].
  - apply follows_ret. typeclasses eauto.
  - apply follows_bind; [typeclasses eauto|apply Hb; left|].
    intros _. apply IH. intros y Hy. apply Hb. right. exact Hy.
Qed.

(** A bind whose first part returns only values satisfying [V]. *)
Lemma follows_bind_value {A B} (R : world -> world -> Prop) `{!PreOrder R}
    (m : M A) (k : A -> M B) (V : A -> Prop) :
  partial (fun _ => True) m (fun a _ => V a) ->
  follows R m -> (forall a, V a -> follows R (k a)) -> follows R (bind m k).
Proof.
  intros HV Hm Hk w. specialize (Hm w). specialize (HV w). unfold bind.
  destruct (m w) as [w' [e|a]]; cbn [fst snd] in *; [exact Hm|].
  etransitivity; [exact Hm|]. apply Hk, HV; [exact I|reflexivity].
Qed.

Lemma follows_weaken {A} (R R' : world -> world -> Prop) (m : M A) :
  (forall w w', R w w' -> R' w w') -> follows R m -> follows R' m.
Proof. intros H Hm w. apply H, Hm. Qed.

Ltac in_keys := apply (proj1 (bool_decide_eq_true _)); reflexivity.

Ltac writes_leaf :=
  leaf_step;
  first [ reflexivity
        | apply writes_within_frame; reflexivity
        | apply writes_within_setitem; [assumption|first [assumption|in_keys]] ].

Ltac batches_leaf :=
  leaf_step;
  first [ reflexivity
        | apply batches_kept_frame; reflexivity
        | apply batches_kept_new
        | apply batches_kept_store; assumption ].

Section Writes.
Variable env : environment.

Lemma extend_entry_writes targets keys ti si key :
  ti ∈ targets -> key ∈ keys ->
  follows (writes_within targets keys) (extend_entry env ti si key).
Proof.
  intros Hti Hk. unfold extend_entry, torch_cat.
  follows_from ltac:(fail) writes_leaf.
Qed.

Lemma merge_target_writes beta targets shifted i :
  follows (writes_within targets mixup_keys) (merge_target env beta targets shifted i).
Proof.
  unfold merge_target, getitem_nth at 1.
  destruct (targets !! i) as [ti|] eqn:Hti;
    [|apply follows_bind_raise; typeclasses eauto].
  assert (Hin : ti ∈ targets) by (eapply list_elem_of_lookup_2; eauto).
  apply follows_bind_ret. unfold torch_tensor.
  follows_from ltac:(apply extend_entry_writes; [assumption|in_keys]) writes_leaf.
Qed.

Lemma apply_mixup_writes images targets :
  follows (writes_within targets mixup_keys) (apply_mixup env images targets).
Proof.
  unfold apply_mixup, closing_notice, mixup_condition, random_uniform, blend_images,
    merge_targets, visualise, tensor_roll, tensor_mul_, tensor_add_,
    getitem_first, getitem_last.
  follows_from ltac:(apply merge_target_writes) writes_leaf.
Qed.

Lemma call_writes items :
  follows (writes_within (map snd items) (mixup_keys ++ ["masks"]))
          (call env items).
Proof.
  apply follows_call; [typeclasses eauto| |].
  - unfold call_body, release_before_transition, stack_images, getitem_first.
    apply follows_bind; [typeclasses eauto| |intros u].
    { follows_from ltac:(fail) writes_leaf. }
    apply follows_bind; [typeclasses eauto| |intros images].
    { follows_from ltac:(fail) writes_leaf. }
    cbn zeta.
    apply (follows_bind_value _ _ _ (fun r => r = (images, map snd items)));
      [apply apply_mixup_value| |intros it ->].
    { eapply follows_weaken; [|apply apply_mixup_writes].
      intros w w' H r key [Hr|Hk]; apply H; [left; exact Hr|right].
      intros Hin. apply Hk, elem_of_app. left. exact Hin. }
    cbn [fst snd].
    unfold multi_scale_resize, F_interpolate, random_choice, getitem_first.
    follows_from
      ltac:(apply follows_for_each_elem;
            [typeclasses eauto|
             let tg := fresh "tg" in let Htg := fresh "Htg" in
             intros tg Htg; unfold resize_masks, F_interpolate])
      writes_leaf.
  - intros e. unfold handler, getitem_first, getitem_last.
    follows_from ltac:(fail) writes_leaf.
Qed.
End Writes.

Section Batches.
Variable env : environment.

(** The blend writes to the batch it is given and to the rolled copy it
    creates, nowhere else. *)
Lemma blend_images_batches n images beta :
  (n <= images)%nat -> follows (batches_kept n) (blend_images env images beta).
Proof.
  intros Hi w.
  unfold blend_images, tensor_roll, tensor_mul_, tensor_add_, tensor_op, tensor_load,
    tensor_store, tensor_new, gc_collect, emit, bind, ret.
  cbn [ops with_ops with_tensors with_stdout tensors fst snd].
  repeat match goal with
         | |- context [faults env ?k] => destruct (faults env k)
         end;
  cbn [ops with_ops with_tensors with_stdout tensors fst snd];
  intros Hn; cbn [tensors with_tensors with_ops with_stdout];
  rewrite ?length_insert, ?length_app; (split; [lia|]);
  rewrite ?take_insert_ge by (rewrite ?length_insert, ?length_app; cbn; lia);
  rewrite ?take_app_le by lia; reflexivity.
Qed.

Lemma apply_mixup_batches n images targets :
  (n <= images)%nat -> follows (batches_kept n) (apply_mixup env images targets).
Proof.
  intros Hi.
  unfold apply_mixup, closing_notice, mixup_condition, random_uniform,
    merge_targets, merge_target, extend_entry, torch_cat, torch_tensor, visualise,
    getitem_first, getitem_last.
  follows_from ltac:(apply blend_images_batches; assumption) batches_leaf.
Qed.

Lemma multi_scale_resize_batches n images targets :
  follows (batches_kept n) (multi_scale_resize env images targets).
Proof.
  unfold multi_scale_resize, resize_masks, F_interpolate, random_choice,
    getitem_first.
  follows_from ltac:(fail) batches_leaf.
Qed.

Lemma call_batches items (w : world) :
  batches_kept (length (tensors w)) w (fst (call env items w)).
Proof.
  assert (Hb : batches_kept (length (tensors w)) w (fst (call_body env items w))).
  { unfold call_body.
    rewrite (bind_inr _ _ _ _ _ (release_before_transition_exact env w)).
    set (w1 := with_stdout _ w).
    destruct (stack_images_cases env (map fst items) w1)
      as [(_ & _ & Hrun)|[(_ & e & _ & Hrun)|(_ & Hrun)]].
    - rewrite (bind_inr _ _ _ _ _ Hrun). cbn zeta.
      set (w2 := with_tensors _ _).
      transitivity w2; [apply (batches_kept_new _ w)|].
      apply (follows_bind (batches_kept (length (tensors w))));
        [apply apply_mixup_batches; reflexivity|].
      intros it. apply multi_scale_resize_batches.
    - rewrite (bind_inl _ _ _ _ _ Hrun). apply batches_kept_frame. reflexivity.
    - rewrite (bind_inl _ _ _ _ _ Hrun). apply batches_kept_frame. reflexivity. }
  unfold call. destruct (call_body env items w) as [w' [e|r]]; [|exact Hb].
  unfold bind. rewrite handler_run. exact Hb.
Qed.
End Batches.

(** X12.  [apply_mixup] assigns only to the keys ['boxes'], ['labels'],
    ['area'] and ['mixup'] of the targets it is given, and [__call__] only
    to these and ['masks'] of the targets of its items: whatever they
    return or raise, every other entry of every dictionary (an image id, an
    original size, a crowd flag, any entry of a dictionary that is not in
    the batch) reads as before. *)
Theorem collate_writes_only_its_targets (env : environment) (images : loc)
    (targets : list loc) (items : list (row * loc)) (w : world) :
  (forall r key,
     r ∉ targets \/ key ∉ ["boxes"; "labels"; "area"; "mixup"] ->
     entry (fst (apply_mixup env images targets w)) r key = entry w r key) /\
  (forall r key,
     r ∉ map snd items \/ key ∉ ["boxes"; "labels"; "area"; "mixup"; "masks"] ->
     entry (fst (call env items w)) r key = entry w r key).
Proof.
  split.
  - apply (apply_mixup_writes env images targets w).
  - apply (call_writes env items w).
Qed.

(** X13.  [__call__] leaves every image batch that existed before the
    call as it was, whatever it returns or raises: the in-place blend
    works on the batch the call has stacked itself and on the rolled copy,
    and the resize allocates its result. *)
Theorem call_keeps_existing_batches (env : environment)
    (items : list (row * loc)) (w : world) :
  tensors w `prefix_of` tensors (fst (call env items w)).
Proof.
  destruct (call_batches env items w (le_n _)) as [Hlen Htake].
  exists (drop (length (tensors w)) (tensors (fst (call env items w)))).
  rewrite <- (take_drop (length (tensors w)) (tensors (fst (call env items w)))) at 1.
  rewrite Htake, firstn_all. reflexivity.
Qed.

(** * The resize *)

Lemma random_choice_run (env : environment) {A} (l : list A) (w : world) :
  l <> [] ->
  exists x, l !! (random_index env (draws w) mod length l)%nat = Some x /\
            random_choice env l w = (with_draws (S (draws w)) w, inr x).
Proof.
  intros Hl. destruct l as [|y l]; [contradiction|].
  set (i := (random_index env (draws w) mod length (y :: l))%nat).
  destruct (lookup_lt_is_Some_2 (y :: l) i) as [x Hx].
  { apply Nat.mod_upper_bound. discriminate. }
  exists x. split; [exact Hx|].
  unfold random_choice, getitem_nth. fold i. rewrite Hx. reflexivity.
Qed.

Lemma F_interpolate_run (env : environment) (t : tensor) (sz : Z) (w : world) :
  faults env (ops w) = None ->
  F_interpolate env t sz w = (with_ops (S (ops w)) w, inr (interpolate env t sz)).
Proof.
  intros Hf. unfold F_interpolate, bind, tensor_op. rewrite Hf. reflexivity.
Qed.

(** The resize up to the test for masks. *)
Lemma multi_scale_resize_start (env : environment) (images : loc)
    (targets : list loc) (l : list Z) (w : world) :
  scales (self w) = Some l -> l <> [] ->
  epoch (self w) < stop_epoch (self w) ->
  faults env (ops w) = None ->
  exists sz,
    l !! (random_index env (draws w) mod length l)%nat = Some sz /\
    multi_scale_resize env images targets w =
    (t0 <- getitem_first targets ;;
     has_masks <- dict_contains t0 "masks" ;;
     (if has_masks : bool then
        for_each targets (resize_masks env sz) ;;; raise (NotImplementedError "")
      else ret tt) ;;;
     ret (length (tensors w), targets))
    (with_tensors (tensors w ++ [interpolate env (default [] (tensors w !! images)) sz])
       (with_ops (S (ops w)) (with_draws (S (draws w)) w))).
Proof.
  intros Hsc Hl Hep Hf.
  destruct (random_choice_run env l w Hl) as (sz & Hsz & Hrun).
  exists sz. split; [exact Hsz|].
  unfold multi_scale_resize. unfold bind at 1. unfold get_self at 1.
  cbn [fst snd]. rewrite Hsc, (proj2 (Z.ltb_lt _ _) Hep).
  rewrite (bind_inr _ _ _ _ _ Hrun).
  unfold bind at 1. unfold tensor_load at 1. cbn [tensors with_draws].
  rewrite (bind_inr _ _ _ _ _
             (F_interpolate_run env _ sz (with_draws (S (draws w)) w) Hf)).
  unfold bind at 1. unfold tensor_new at 1. reflexivity.
Qed.

Lemma multi_scale_resize_no_masks (env : environment) (images : loc)
    (targets : list loc) (t0 : loc) (l : list Z) (w : world) :
  scales (self w) = Some l -> l <> [] ->
  epoch (self w) < stop_epoch (self w) ->
  faults env (ops w) = None ->
  head targets = Some t0 ->
  entry w t0 "masks" = None ->
  exists sz,
    l !! (random_index env (draws w) mod length l)%nat = Some sz /\
    multi_scale_resize env images targets w =
    (with_tensors (tensors w ++ [interpolate env (default [] (tensors w !! images)) sz])
       (with_ops (S (ops w)) (with_draws (S (draws w)) w)),
     inr (length (tensors w), targets)).
Proof.
  intros Hsc Hl Hep Hf Ht0 Hmask.
  destruct (multi_scale_resize_start env images targets l w Hsc Hl Hep Hf)
    as (sz & Hsz & ->).
  exists sz. split; [exact Hsz|].
  unfold bind, getitem_first, dict_contains. rewrite Ht0. cbn [ret fst snd dicts
    with_tensors with_ops with_draws].
  change (dicts w !! t0 ≫= (fun d => d !! "masks")) with (entry w t0 "masks").
  rewrite Hmask. rewrite bool_decide_eq_false_2 by (intros [x Hx]; discriminate Hx).
  reflexivity.
Qed.


(** X14.  When a resize is due (a scale set that is not empty, an epoch
    below [stop_epoch]) and the first target has no mask, the resize draws
    one index, takes the scale at that index (modulo the number of scales),
    and returns a new image batch holding the interpolation of the batch it
    was given: that batch itself, the dictionaries (so the boxes, which are
    not rescaled) and the object are left as they were. *)
Theorem multi_scale_resize_new_batch (env : environment) (images : loc)
    (targets : list loc) (t0 : loc) (l : list Z) (w : world) :
  scales (self w) = Some l -> l <> [] ->
  epoch (self w) < stop_epoch (self w) ->
  faults env (ops w) = None ->
  head targets = Some t0 ->
  entry w t0 "masks" = None ->
  exists sz,
    l !! (random_index env (draws w) mod length l)%nat = Some sz /\
    multi_scale_resize env images targets w =
    (with_tensors (tensors w ++ [interpolate env (default [] (tensors w !! images)) sz])
       (with_ops (S (ops w)) (with_draws (S (draws w)) w)),
     inr (length (tensors w), targets)).
Proof. apply multi_scale_resize_no_masks. Qed.

Lemma multi_scale_resize_new_batch_witness :
  let env := sample_env 1 None in
  let d := <[0%nat := sample_target 7]> ∅ in
  let w := with_tensors [[[1; 2]%Q]]
             (sample_world (sample_fn [10; 20] true true) 12 d) in
  exists sz,
    generate_scales 640 4 !! (random_index env (draws w) mod
                              length (generate_scales 640 4))%nat = Some sz /\
    multi_scale_resize env 0%nat [0%nat] w =
    (with_tensors (tensors w ++ [interpolate env (default [] (tensors w !! 0%nat)) sz])
       (with_ops (S (ops w)) (with_draws (S (draws w)) w)),
     inr (length (tensors w), [0%nat])).
Proof.
  intros env d w.
  apply (multi_scale_resize_new_batch env 0%nat [0%nat] 0%nat (generate_scales 640 4) w).
  - reflexivity.
  - discriminate.
  - vm_compute. reflexivity.
  - reflexivity.
  - reflexivity.
  - reflexivity.
Defined.





(** * The random source, a batch of one, the default window *)

Section Draws.
Variable env : environment.

Lemma mixup_body_draws images targets beta :
  follows draws_kept
    (blend_images env images beta ;;;
     merge_targets env beta targets ;;;
     s <- get_self ;;
     (if data_vis s then
        for_each (seq 0 (Nat.min 2 (length targets))) (visualise env images targets)
      else ret tt) ;;;
     ret (images, targets)).
Proof.
  unfold blend_images, tensor_roll, tensor_mul_, tensor_add_, merge_targets,
    merge_target, extend_entry, torch_cat, torch_tensor, visualise.
  follows_from ltac:(fail) ltac:(leaf_step; reflexivity).
Qed.
End Draws.

Lemma mixup_appliesb_spec (env : environment) (w : world) :
  mixup_appliesb env w = true <-> mixup_applies env w.
Proof.
  unfold mixup_appliesb, mixup_applies. split.
  - destruct (head (mixup_epochs (self w))) as [a|]; [|discriminate].
    destruct (last (mixup_epochs (self w))) as [b|]; [|discriminate].
    intros H. apply andb_true_iff in H. destruct H as [H1 H2].
    apply andb_true_iff in H2. destruct H2 as [H2 H3].
    exists a, b. repeat split; try assumption; lia.
  - intros (a & b & -> & -> & -> & H). cbn [andb].
    apply andb_true_iff. split; [apply Z.leb_le|apply Z.ltb_lt]; lia.
Qed.

(** X16.  What [apply_mixup] takes from the random source depends only
    on its test: with a window to look at, it consumes exactly one random
    number when mixup is not applied and exactly two when it is (the second
    is the mixing ratio), whatever the batch holds and whether the blend or
    the merge later fails. *)
Theorem apply_mixup_draws (env : environment) (images : loc)
    (targets : list loc) (w : world) :
  mixup_epochs (self w) <> [] ->
  draws (fst (apply_mixup env images targets w)) =
  (draws w + if mixup_appliesb env w then 2 else 1)%nat.
Proof.
  intros Hne.
  destruct (mixup_appliesb env w) eqn:Hb.
  - apply mixup_appliesb_spec in Hb.
    destruct (apply_mixup_start env images targets w Hb) as (b & out & _ & _ & ->).
    rewrite (mixup_body_draws env images targets (drawn_beta env w) _).
    cbn [draws with_draws]. lia.
  - assert (Hh : exists start, head (mixup_epochs (self w)) = Some start).
    { destruct (mixup_epochs (self w)); [contradiction|eauto]. }
    assert (Hl : exists end_, last (mixup_epochs (self w)) = Some end_).
    { destruct (mixup_epochs (self w)) as [|a l]; [contradiction|].
      rewrite last_cons. destruct (last l); eauto. }
    destruct Hh as [start Hh]. destruct Hl as [end_ Hl].
    unfold mixup_appliesb in Hb. rewrite Hh, Hl in Hb.
    destruct (apply_mixup_skipped env w images targets start end_ Hh Hl)
      as (b & out & ->).
    + apply andb_false_iff in Hb. destruct Hb as [Hb|Hb]; [auto|].
      apply andb_false_iff in Hb. destruct Hb as [Hb|Hb].
      * left. apply Z.leb_gt, Hb.
      * right. left. apply Z.ltb_ge, Hb.
    + cbn [fst draws with_draws]. lia.
Qed.

Lemma apply_mixup_draws_witness :
  let env := sample_env 0 None in
  let w := with_tensors [[[1; 2]%Q; [3; 4]%Q]]
             (sample_world (sample_fn [10; 20] true false) 12
                (<[0%nat := sample_target 7]> (<[1%nat := sample_target 8]> ∅))) in
  draws (fst (apply_mixup env 0%nat [0%nat; 1%nat] w)) =
  (draws w + if mixup_appliesb env w then 2 else 1)%nat.
Proof.
  intros env w. apply (apply_mixup_draws env 0%nat [0%nat; 1%nat] w). discriminate.
Defined.

Lemma blend_single (beta : Q) (x : row) :
  exists x', blend beta [x] = [x'] /\ Forall2 Qeq x' x.
Proof.
  exists (zip_with Qplus (map (fun p => p * beta)%Q x)
                         (map (fun p => p * (1 - beta))%Q x)).
  split; [reflexivity|].
  induction x as [|p x IH]; cbn; constructor; [ring|exact IH].
Qed.

(** X17.  Mixup on a batch of one sample pairs the sample with itself:
    when mixup is applied, the image keeps the value of every pixel (in
    exact arithmetic [beta * p + (1 - beta) * p] is [p]), while the boxes of
    its target are duplicated. *)
Theorem apply_mixup_single_sample (env : environment) (images r : loc)
    (x : row) (b l a : tensor) (w : world) :
  no_faults env ->
  mixup_applies env w ->
  tensors w !! images = Some [x] ->
  entry w r "boxes" = Some b ->
  entry w r "labels" = Some l ->
  entry w r "area" = Some a ->
  let res := apply_mixup env images [r] w in
  snd res = inr (images, [r]) /\
  (exists x', tensors (fst res) !! images = Some [x'] /\ Forall2 Qeq x' x) /\
  entry (fst res) r "boxes" = Some (b ++ b).
Proof.
  intros Hnf Happ Ht Hb Hl Ha res.
  assert (Han : annotated [r] w).
  { intros y key Hy Hk. apply list_elem_of_singleton in Hy. subst y.
    unfold annotation_keys in Hk.
    repeat (apply elem_of_cons in Hk; destruct Hk as [->|Hk]; [eauto|]).
    inversion Hk. }
  destruct (apply_mixup_applied env Hnf images [r] [x] w Happ Han Ht)
    as (v & Hv & -> & _ & _ & Hbl & _ & _ & w3 & Hd3 & Hdw); [cbn; lia|].
  fold res in Hv, Hbl, Hdw. split; [exact Hv|]. split.
  - destruct (blend_single (drawn_beta env w) x) as (x' & Hx' & Hq).
    exists x'. split; [|exact Hq]. plain_types. rewrite Hbl. f_equal. exact Hx'.
  - destruct (merge_targets_single env Hnf (drawn_beta env w) r b l a w3)
      as (H1 & _); try (unfold entry; rewrite Hd3; assumption).
    unfold entry. rewrite Hdw. exact H1.
Qed.

Lemma apply_mixup_single_sample_witness :
  let env := sample_env 0 None in
  let w := with_tensors [[[1; 2]%Q]]
             (sample_world (sample_fn [10; 20] true false) 12
                (<[0%nat := sample_target 7]> ∅)) in
  let res := apply_mixup env 0%nat [0%nat] w in
  snd res = inr (0%nat, [0%nat]) /\
  (exists x', tensors (fst res) !! 0%nat = Some [x'] /\ Forall2 Qeq x' [1; 2]%Q) /\
  entry (fst res) 0%nat "boxes" = Some [[7; 0; 0; 0]%Q; [7; 0; 0; 0]%Q].
Proof.
  intros env w.
  apply (apply_mixup_single_sample env 0%nat 0%nat [1; 2]%Q
           [[7; 0; 0; 0]%Q] [[7%Q]] [[7%Q]] w).
  - apply sample_env_no_faults.
  - exists 10, 20. split; [reflexivity|]. split; [reflexivity|].
    split; [reflexivity|].
    split; [intros H; vm_compute in H; discriminate H|vm_compute; reflexivity].
  - reflexivity.
  - reflexivity.
  - reflexivity.
  - reflexivity.
Defined.

Lemma with_mixup_prob_same (s : collate_fn) : with_mixup_prob (mixup_prob s) s = s.
Proof. destruct s. reflexivity. Qed.

(** X18.  A window that starts where it ends, as the default
    [mixup_epochs=[0, 0]] does, holds no epoch: [set_epoch] records the
    epoch and leaves the probability alone, it announces the activation of
    mixup at that epoch and never its deactivation, and [apply_mixup] hands
    the batch back untouched at every epoch and for every draw. *)
Theorem degenerate_window (env : environment) (e a : Z) (images : loc)
    (targets : list loc) (w : world) :
  window (self w) = Some (a, a) ->
  set_epoch e w =
    (with_stdout (stdout w ++ if e =? a then [Print (MsgActivating e)] else [])
       (with_self (with_epoch e) w), inr tt) /\
  (let r := apply_mixup env images targets w in
   snd r = inr (images, targets) /\
   dicts (fst r) = dicts w /\ tensors (fst r) = tensors w).
Proof.
  intros Hw. split.
  - rewrite set_epoch_unfold.
    assert (Hb : boundary_notice e (self w) =
                 if e =? a then [Print (MsgActivating e)] else []).
    { unfold boundary_notice. rewrite Hw. destruct (e =? a); reflexivity. }
    assert (Ht : target_prob e (self w) = None).
    { unfold target_prob. rewrite Hw.
      destruct (gradual_mixup (self w) && Qlt_bool 0 (mixup_prob (self w)));
        [|reflexivity].
      destruct (Z.leb_spec a e); destruct (Z.ltb_spec e a); try reflexivity; lia. }
    assert (Hp : prob_notice e (self w) = []) by (unfold prob_notice; rewrite Ht; reflexivity).
    assert (Hn : forall s, target_prob e s = None ->
                   with_mixup_prob (next_prob e s) (with_epoch e s) = with_epoch e s).
    { intros s H. unfold next_prob. rewrite H. destruct s. reflexivity. }
    rewrite Hb, Hp, app_nil_r. f_equal. unfold with_self, with_stdout.
    cbn [self dicts tensors stdout draws ops]. rewrite (Hn _ Ht). reflexivity.
  - cbn zeta. unfold window in Hw.
    destruct (2 <=? length (mixup_epochs (self w)))%nat; [|discriminate].
    destruct (head (mixup_epochs (self w))) as [a'|] eqn:Hh; [|discriminate].
    destruct (last (mixup_epochs (self w))) as [b'|] eqn:Hl; [|discriminate].
    inversion Hw; subst a' b'.
    destruct (apply_mixup_skipped env w images targets a a Hh Hl) as (b & out & ->).
    + destruct (Z_lt_le_dec (epoch (self w)) a); auto.
    + repeat split.
Qed.

Lemma degenerate_window_witness :
  let env := sample_env 0 None in
  let w := new_world (sample_fn [0; 0] true false) ∅ in
  set_epoch 0 w =
    (with_stdout (stdout w ++ [Print (MsgActivating 0)])
       (with_self (with_epoch 0) w), inr tt) /\
  snd (apply_mixup env 0%nat [] (fst (set_epoch 0 w))) = inr (0%nat, []).
Proof.
  intros env w. split.
  - apply (proj1 (degenerate_window env 0 0 0%nat [] w eq_refl)).
  - apply (proj2 (degenerate_window env 0 0 0%nat [] (fst (set_epoch 0 w)) eq_refl)).
Defined.

(** X19.  Multi-scale training needs [base_size_repeat]: an object built
    without it has no scale set, and after any sequence of [set_epoch],
    [apply_mixup] and [__call__] its resize step hands the batch back as it
    is, without a draw, whatever [stop_epoch] was given; yet when
    [stop_epoch] is given [__init__] announces multi-scale training, with
    [None] for the scales. *)
Theorem no_resize_without_base_size_repeat (env : environment)
    (ms : list method) (stop_epoch_arg : option Z) (ema_restart_decay_arg : Q)
    (base_size_arg : Z) (mixup_prob_arg : Q) (mixup_epochs_arg : list Z)
    (data_vis_arg : bool) (vis_save_arg : string) (gradual_mixup_arg : bool)
    (d : gmap loc (gmap string tensor)) (images : loc) (targets : list loc) :
  let new := init stop_epoch_arg ema_restart_decay_arg base_size_arg None
                  mixup_prob_arg mixup_epochs_arg data_vis_arg vis_save_arg
                  gradual_mixup_arg in
  let w := session env ms (new_world (fst new) d) in
  multi_scale_resize env images targets w = (w, inr (images, targets)) /\
  forall n, stop_epoch_arg = Some n ->
    exists out, snd new = out ++ [Print (MsgMultiScaleUntil n);
                                  Print (MsgMultiScales None)].
Proof.
  cbn zeta. split.
  - apply multi_scale_resize_off. left.
    destruct (session_configuration env ms
                (new_world (fst (init stop_epoch_arg ema_restart_decay_arg
                   base_size_arg None mixup_prob_arg mixup_epochs_arg data_vis_arg
                   vis_save_arg gradual_mixup_arg)) d)) as [Hc _].
    apply (f_equal (fun c => snd (fst (fst (fst (fst (fst (fst (fst (fst c)))))))))) in Hc.
    exact Hc.
  - intros n ->. eexists. reflexivity.
Qed.

Lemma no_resize_without_base_size_repeat_witness :
  exists out,
    snd (init (Some 50) (9999 # 10000) 640 None (1 # 2) [10; 20] false
              "./vis_dataset/" true) =
    out ++ [Print (MsgMultiScaleUntil 50); Print (MsgMultiScales None)].
Proof.
  apply (proj2 (no_resize_without_base_size_repeat (sample_env 0 None) []
                  (Some 50) (9999 # 10000) 640 (1 # 2) [10; 20] false
                  "./vis_dataset/" true ∅ 0%nat []) 50 eq_refl).
Defined.

(** * The images the visualisation saves *)

Ltac saves_leaf :=
  leaf_step;
  (unfold events_kept;
   cbn [stdout self with_stdout with_self with_dicts with_tensors with_draws with_ops];
   rewrite ?count_events_app; cbn; lia).

Section Saves.
Variable env : environment.
Variables (images : loc) (targets : list loc).

Lemma within_bind_kept {A B} (c : nat) (m : M A) (k : A -> M B) (w : world) :
  follows (events_kept is_save_image) m ->
  (forall a, saves_within c (k a) (fst (m w))) -> saves_within c (bind m k) w.
Proof.
  intros Hk Hb. specialize (Hk w). unfold saves_within, events_kept, bind in *.
  destruct (m w) as [w1 [e|a]]; cbn [fst] in *; [lia|].
  specialize (Hb a). rewrite Hk in Hb. exact Hb.
Qed.

Lemma visualise_saves i (w : world) : saves_within 1 (visualise env images targets i) w.
Proof.
  unfold visualise.
  repeat (apply within_bind_kept; [solve [saves_leaf]|intros ?]).
  match goal with |- saves_within _ _ ?w' => generalize w' end. intros w'.
  unfold saves_within, bind, gc_collect, emit. cbn [fst snd stdout with_stdout].
  rewrite !count_events_app. cbn. lia.
Qed.

Lemma visualise_loop_saves idx :
  forall w : world, saves_within (length idx) (for_each idx (visualise env images targets)) w.
Proof.
  induction idx as [|i idx IH]; intros w; unfold saves_within in *; cbn [for_each length].
  - cbn. lia.
  - pose proof (visualise_saves i w) as H. unfold saves_within in H. unfold bind.
    destruct (visualise env images targets i w) as [w1 [e|u]]; cbn [fst] in *; [lia|].
    specialize (IH w1). lia.
Qed.

Lemma bounded_ret {A} (a : A) (w : world) : saves_bounded (length targets) (ret a) w.
Proof. unfold saves_bounded, saves_within. cbn. lia. Qed.

Lemma bounded_bind {A B} (m : M A) (k : A -> M B) (w : world) :
  follows (events_kept is_save_image) m -> follows evolves m ->
  (forall a, saves_bounded (length targets) (k a) (fst (m w))) ->
  saves_bounded (length targets) (bind m k) w.
Proof.
  intros Hk He Hb. specialize (Hk w). specialize (He w).
  destruct (evolves_config _ _ He) as (_ & _ & _ & _ & _ & Hv).
  unfold saves_bounded, saves_within, events_kept, bind in *.
  destruct (m w) as [w1 [e|a]]; cbn [fst] in *; [lia|].
  specialize (Hb a). rewrite Hv, Hk in Hb. exact Hb.
Qed.

Lemma closing_notice_saves : follows (events_kept is_save_image) closing_notice.
Proof. unfold closing_notice, getitem_last. follows_from ltac:(fail) saves_leaf. Qed.

Lemma mixup_condition_saves : follows (events_kept is_save_image) (mixup_condition env).
Proof.
  unfold mixup_condition, getitem_first, getitem_last.
  follows_from ltac:(fail) saves_leaf.
Qed.

Lemma random_uniform_saves a b :
  follows (events_kept is_save_image) (random_uniform env a b).
Proof. unfold random_uniform. follows_from ltac:(fail) saves_leaf. Qed.

Lemma random_uniform_evolves a b : follows evolves (random_uniform env a b).
Proof. unfold random_uniform. follows_with evolves_leaf. Qed.

Lemma blend_images_saves beta :
  follows (events_kept is_save_image) (blend_images env images beta).
Proof.
  unfold blend_images, tensor_roll, tensor_mul_, tensor_add_.
  follows_from ltac:(fail) saves_leaf.
Qed.

Lemma merge_targets_saves beta :
  follows (events_kept is_save_image) (merge_targets env beta targets).
Proof.
  unfold merge_targets, merge_target, extend_entry, torch_cat, torch_tensor.
  follows_from ltac:(fail) saves_leaf.
Qed.

Lemma apply_mixup_saves (w : world) :
  saves_bounded (length targets) (apply_mixup env images targets) w.
Proof.
  unfold apply_mixup.
  apply bounded_bind; [apply closing_notice_saves|apply closing_notice_evolves|].
  intros _.
  apply bounded_bind; [apply mixup_condition_saves|apply mixup_condition_evolves|].
  intros [|]; [|apply bounded_ret].
  apply bounded_bind; [apply random_uniform_saves|apply random_uniform_evolves|].
  intros x. cbn zeta.
  apply bounded_bind; [apply blend_images_saves|apply blend_images_evolves|].
  intros _.
  apply bounded_bind; [apply merge_targets_saves|apply merge_targets_evolves|].
  intros _. set (w4 := fst _). clearbody w4.
  assert (Hrun :
    fst ((s <- get_self ;;
          (if data_vis s then
             for_each (seq 0 (Nat.min 2 (length targets)))
                      (visualise env images targets)
           else ret tt) ;;;
          ret (images, targets)) w4) =
    fst ((if data_vis (self w4) then
            for_each (seq 0 (Nat.min 2 (length targets)))
                     (visualise env images targets)
          else ret tt) w4)).
  { unfold bind at 1. unfold get_self. cbn [fst snd]. apply fst_bind_ret_any. }
  unfold saves_bounded, saves_within. rewrite Hrun.
  destruct (data_vis (self w4)).
  - pose proof (visualise_loop_saves (seq 0 (Nat.min 2 (length targets))) w4) as H.
    unfold saves_within in H. rewrite length_seq in H. exact H.
  - cbn. lia.
Qed.
End Saves.

(** X20.  The visualisation is capped: whatever the size of the batch,
    and whatever it returns or raises, one call of [apply_mixup] saves at
    most two images (at most one per target when there are fewer), and none
    when [data_vis] is off. *)
Theorem visualisation_saves_at_most_two (env : environment) (images : loc)
    (targets : list loc) (w : world) :
  let saved := count_events is_save_image (stdout w) in
  let saved' :=
    count_events is_save_image (stdout (fst (apply_mixup env images targets w))) in
  (saved <= saved' <=
   saved + if data_vis (self w) then Nat.min 2 (length targets) else 0)%nat.
Proof. apply apply_mixup_saves. Qed.

(** * [DataLoader] *)

(** X21.  [DataLoader.set_epoch] assigns the loader's epoch before it
    calls the dataset and the collate function, in that order.  With a
    dataset whose [set_epoch] leaves the collate object alone: when the
    dataset's call returns, the loader and the collate function end at the
    same epoch, and the collate function is as its own [set_epoch] leaves
    it; when the dataset's call raises, the exception is passed on, the
    loader's epoch has already changed and the collate function's has
    not.  The [shuffle] attribute is not touched. *)
Theorem loader_set_epoch_order (dataset_set_epoch : Z -> M unit) (e : Z)
    (loader : DataLoader.t) (w : world) :
  self (fst (dataset_set_epoch e w)) = self w ->
  let r := DataLoader.set_epoch dataset_set_epoch e loader in
  DataLoader.epoch (fst r) = e /\
  DataLoader._shuffle (fst r) = DataLoader._shuffle loader /\
  (forall x, snd (dataset_set_epoch e w) = inl x ->
     snd (snd r w) = inl x /\
     epoch (self (fst (snd r w))) = epoch (self w)) /\
  (snd (dataset_set_epoch e w) = inr tt ->
     snd (snd r w) = inr tt /\
     epoch (self (fst (snd r w))) = DataLoader.epoch (fst r) /\
     fst (snd r w) = fst (set_epoch e (fst (dataset_set_epoch e w)))).
Proof.
  intros Hself. cbn zeta. unfold DataLoader.set_epoch. cbn [fst snd].
  split; [reflexivity|]. split; [reflexivity|]. unfold bind.
  destruct (dataset_set_epoch e w) as [w1 [x|u]]; cbn [fst snd] in *; split.
  - intros x' Hx. inversion Hx; subst. rewrite Hself. split; reflexivity.
  - discriminate.
  - discriminate.
  - intros _. rewrite set_epoch_unfold. cbn [fst snd]. repeat split.
Qed.

Lemma loader_set_epoch_order_witness :
  let dataset_set_epoch := fun _ : Z => raise (RuntimeError "dataset") : M unit in
  let loader := {| DataLoader._epoch := None; DataLoader._shuffle := Some true |} in
  let w := new_world (sample_fn [10; 20] true false) ∅ in
  let r := DataLoader.set_epoch dataset_set_epoch 10 loader in
  DataLoader.epoch loader = -1 /\
  DataLoader.epoch (fst r) = 10 /\
  snd (snd r w) = inl (RuntimeError "dataset") /\
  epoch (self (fst (snd r w))) = -1.
Proof.
  intros dataset_set_epoch loader w.
  destruct (loader_set_epoch_order dataset_set_epoch 10 loader w eq_refl)
    as (H1 & _ & H3 & _).
  destruct (H3 (RuntimeError "dataset") eq_refl) as [H4 H5].
  split; [reflexivity|]. split; [exact H1|]. split; [exact H4|exact H5].
Defined.

(** X22.  The [shuffle] setter stores booleans and nothing else: after
    a successful assignment the property returns the boolean that was
    assigned and the loader's epoch is as before; every other value, the
    integers 0 and 1 included, is refused with the assertion error
    ['shuffle must be a boolean'], and nothing is stored.  Read before any
    assignment, the property raises [AttributeError]. *)
Theorem loader_shuffle_accepts_booleans (v : DataLoader.value)
    (loader : DataLoader.t) :
  match DataLoader.set_shuffle v loader with
  | inr loader' =>
      exists b, v = DataLoader.Bool b /\
                DataLoader.shuffle loader' = inr b /\
                DataLoader.epoch loader' = DataLoader.epoch loader
  | inl err =>
      err = DataLoader.AssertionError "shuffle must be a boolean" /\
      forall b, v <> DataLoader.Bool b
  end /\
  (forall z, DataLoader.set_shuffle (DataLoader.Int z) loader =
             inl (DataLoader.AssertionError "shuffle must be a boolean")) /\
  DataLoader.shuffle {| DataLoader._epoch := DataLoader._epoch loader;
                        DataLoader._shuffle := None |} =
    inl (DataLoader.AttributeError "_shuffle").
Proof.
  split; [|split; [reflexivity|reflexivity]].
  destruct v as [b|z|x|s|]; cbn.
  - exists b. repeat split.
  - split; [reflexivity|discriminate].
  - split; [reflexivity|discriminate].
  - split; [reflexivity|discriminate].
  - split; [reflexivity|discriminate].
Qed.

(** * Well-formed batches, the output, the annotations *)

(** X23.  A well-formed batch always collates: when no tensor operation
    fails, the images stack, the window is configured, every target has its
    boxes, labels and area, and, in case a resize is due, the scale set is
    not empty and the first target has no mask, [__call__] returns; what it
    returns is an image batch that did not exist before the call, with the
    items' own dictionaries in order. *)
Theorem call_returns_well_formed (env : environment) (items : list (row * loc))
    (w : world) :
  no_faults env ->
  stackable (map fst items) = true ->
  is_Some (head (mixup_epochs (self w))) ->
  annotated (map snd items) w ->
  (forall l, scales (self w) = Some l -> epoch (self w) < stop_epoch (self w) ->
     l <> [] /\
     forall t0, head (map snd items) = Some t0 -> entry w t0 "masks" = None) ->
  exists images,
    snd (call env items w) = inr (images, map snd items) /\
    (length (tensors w) <= images)%nat.
Proof.
  intros Hnf Hst Hh Han Hres.
  destruct (call_body_start env Hnf items w Hst) as [out Hstart].
  cbn zeta in Hstart. set (w3 := with_tensors _ _) in Hstart.
  set (targets := map snd items) in *.
  destruct (apply_mixup_returns env Hnf (length (tensors w)) targets
              (map fst items) w3) as (it & Hit & -> & He4).
  { exact Hh. }
  { exact Han. }
  { subst w3. cbn [tensors with_tensors with_ops with_stdout]. plain_types.
    rewrite lookup_app_r, Nat.sub_diag by lia. reflexivity. }
  { subst targets. rewrite !length_map. lia. }
  pose proof (apply_mixup_writes env (length (tensors w)) targets w3) as Hw4.
  pose proof (apply_mixup_batches env (length (tensors w)) (length (tensors w))
                targets (le_n _) w3) as Hb4.
  destruct (apply_mixup env (length (tensors w)) targets w3) as [w4 [e|it]] eqn:Hrun4;
    cbn [fst snd] in *; [discriminate Hit|].
  inversion Hit; subst it. clear Hit.
  destruct (evolves_config _ _ He4) as (Hs & Hstop & Hepoch & _).
  assert (Hlen4 : (length (tensors w) <= length (tensors w4))%nat).
  { apply Hb4. subst w3. cbn [tensors with_tensors]. rewrite length_app. lia. }
  assert (Hbody : exists images,
             snd (call_body env items w) = inr (images, targets) /\
             (length (tensors w) <= images)%nat).
  { rewrite Hstart, (bind_inr _ _ _ _ _ Hrun4). cbn [fst snd].
    destruct (scales (self w)) as [l|] eqn:Hsc.
    - destruct (Z_lt_le_dec (epoch (self w)) (stop_epoch (self w))) as [Hep|Hep].
      + destruct (Hres l eq_refl Hep) as [Hl Hmask].
        assert (Hne : exists t0, head targets = Some t0).
        { destruct targets as [|t0 tl] eqn:Ht; [|eauto].
          destruct items; [discriminate Hst|discriminate Ht]. }
        destruct Hne as [t0 Ht0].
        destruct (multi_scale_resize_no_masks env (length (tensors w)) targets t0 l w4)
          as (sz & _ & ->).
        * rewrite Hs. exact Hsc.
        * exact Hl.
        * rewrite Hstop, Hepoch. exact Hep.
        * apply Hnf.
        * exact Ht0.
        * rewrite (Hw4 t0 "masks"); [apply Hmask, Ht0|]. right.
          apply (proj1 (bool_decide_eq_false _)). reflexivity.
        * exists (length (tensors w4)). split; [reflexivity|exact Hlen4].
      + rewrite multi_scale_resize_off
          by (right; rewrite Hstop, Hepoch; exact Hep).
        exists (length (tensors w)). split; [reflexivity|lia].
    - rewrite multi_scale_resize_off by (left; rewrite Hs; exact Hsc).
      exists (length (tensors w)). split; [reflexivity|lia]. }
  destruct Hbody as (images & Hr & Hi). exists images. split; [|exact Hi].
  unfold call. destruct (call_body env items w) as [w' [e|r]];
    cbn [snd] in *; [discriminate Hr|exact Hr].
Qed.

Lemma call_returns_well_formed_witness :
  let env := sample_env 0 None in
  let d := <[0%nat := sample_target 7]> (<[1%nat := sample_target 8]> ∅) in
  let w := sample_world (sample_fn [10; 20] true true) 12 d in
  let items := [([1; 2]%Q, 0%nat); ([3; 4]%Q, 1%nat)] in
  exists images,
    snd (call env items w) = inr (images, [0%nat; 1%nat]) /\
    (length (tensors w) <= images)%nat.
Proof.
  intros env d w items.
  apply (call_returns_well_formed env items w).
  - apply sample_env_no_faults.
  - reflexivity.
  - vm_compute. eauto.
  - apply annotatedb_spec. reflexivity.
  - intros l Hl _. split.
    + intros ->. vm_compute in Hl. discriminate Hl.
    + intros t0 Ht0. inversion Ht0; subst t0. reflexivity.
Defined.

#[export] Instance output_kept_preorder : PreOrder output_kept.
Proof.
  split; [intros w; unfold output_kept; reflexivity|].
  intros w1 w2 w3 H12 H23. unfold output_kept in *. etransitivity; eassumption.
Qed.



Section Output.
Variable env : environment.


End Output.



#[export] Instance grows_preorder : PreOrder grows.
Proof.
  split.
  - intros w. split; [auto|]. intros r key b _ H. exists []. rewrite app_nil_r. exact H.
  - intros w1 w2 w3 [K12 G12] [K23 G23]. split.
    + intros r key H. apply K23, K12, H.
    + intros r key b Hk H. destruct (G12 r key b Hk H) as [b1 H1].
      destruct (G23 r key _ Hk H1) as [b2 H2].
      exists (b1 ++ b2). rewrite app_assoc. exact H2.
Qed.

Lemma evolves_grows (w w' : world) : evolves w w' -> grows w w'.
Proof. intros H. split; [apply (keys_kept _ _ H)|apply (annotations_grow _ _ H)]. Qed.

Lemma grows_frame (w w' : world) : dicts w' = dicts w -> grows w w'.
Proof.
  intros Hd. split; unfold entry; rewrite Hd; [auto|].
  intros r key b _ H. exists []. rewrite app_nil_r. exact H.
Qed.

Lemma invoke_grows (env : environment) (m : method) (w : world) :
  grows w (fst (invoke env m w)).
Proof.
  destruct m as [e|images targets|items]; cbn [invoke].
  - rewrite set_epoch_unfold. apply grows_frame. reflexivity.
  - rewrite fst_bind_ret_any. apply evolves_grows, apply_mixup_evolves.
  - rewrite fst_bind_ret_any.
    pose proof (call_body_evolves env items w) as Hb. apply evolves_grows in Hb.
    unfold call. destruct (call_body env items w) as [w' [e|r]]; [|exact Hb].
    unfold bind. rewrite handler_run. etransitivity; [exact Hb|].
    apply grows_frame. reflexivity.
Qed.

Lemma session_grows (env : environment) (ms : list method) :
  forall w, grows w (session env ms w).
Proof.
  induction ms as [|m ms IH]; intros w; cbn [session]; [reflexivity|].
  etransitivity; [apply invoke_grows|apply IH].
Qed.

(** X25.  What mixup adds to a target is never taken back: over any
    sequence of [set_epoch], [apply_mixup] and [__call__], whatever they
    return or raise, no dictionary loses a key, and the boxes, the labels
    and the area of every target are what they were with more appended, so
    a dictionary that is collated again carries the boxes merged into it
    before. *)
Theorem annotations_never_shrink (env : environment) (ms : list method)
    (w : world) :
  (forall r key, is_Some (entry w r key) ->
                 is_Some (entry (session env ms w) r key)) /\
  (forall r key b, key ∈ ["boxes"; "labels"; "area"] -> entry w r key = Some b ->
                   exists b', entry (session env ms w) r key = Some (b ++ b')).
Proof. apply (session_grows env ms w). Qed.

Lemma annotations_never_shrink_witness :
  let env := sample_env 0 None in
  let d := <[0%nat := sample_target 7]> (<[1%nat := sample_target 8]> ∅) in
  let w := new_world (sample_fn [10; 20] true false) d in
  let items := [([1; 2]%Q, 0%nat); ([3; 4]%Q, 1%nat)] in
  let ms := [SetEpoch 12; Call items; Call items] in
  exists b', entry (session env ms w) 0%nat "boxes" = Some ([[7; 0; 0; 0]%Q] ++ b').
Proof.
  intros env d w items ms.
  apply (proj2 (annotations_never_shrink env ms w) 0%nat "boxes" [[7; 0; 0; 0]%Q]).
  - apply (bool_decide_unpack _). reflexivity.
  - reflexivity.
Defined.
